(** * UniVSE experiment scripts: a shallow embedding

    The two scripts [experiments/precomp_vsts_emb.py] and
    [experiments/finetune_snli_ve.py] are straight-line Python programs that
    call into argparse, PyTorch, NumPy and the repository's dataset and model
    packages.  The embedding keeps what the scripts themselves do: attribute
    reads and writes on the argparse namespace, string tests, tuple
    unpacking, dictionary subscripts, the loops with their accumulators, the
    float arithmetic of the loss bookkeeping, and the order of the calls that
    leave the script.  The packages behind those calls are an interface
    ([Class]) whose operations may raise; every call is recorded in a trace. *)

From Stdlib Require Import Floats ZArith Uint63 Ascii String List Bool Lia Sorted.
From stdpp Require Import base option list strings gmap.
Import ListNotations.
Local Open Scope string_scope.
Local Open Scope list_scope.

(** ** Python values, exceptions and results *)

(** The exceptions a run of either script can end with.  [External] stands
    for anything raised from inside a library call. *)
Inductive exn : Type :=
| AttributeError (attr : string)
| NotImplementedError
| ZeroDivisionError
| ValueError (msg : string)
| TypeError (msg : string)
| KeyError (key : string)
| IndexError
| RuntimeError (msg : string)
| SystemExit (code : Z)
| External (what : string).

Inductive result (A : Type) : Type :=
| Ok (a : A)
| Raise (e : exn).
Arguments Ok {A} a.
Arguments Raise {A} e.

Definition is_ok {A} (r : result A) : bool :=
  match r with Ok _ => true | Raise _ => false end.

Definition unwrap {A} (d : A) (r : result A) : A :=
  match r with Ok a => a | Raise _ => d end.

(** The values an argparse namespace of these scripts holds. *)
Inductive pyval : Type :=
| PNone
| PBool (b : bool)
| PInt (z : Z)
| PFloat (f : float)
| PStr (s : string).

(** [argparse.Namespace]: attribute name to value. *)
Abbreviation Namespace := (gmap string pyval).

(** ** The script monad: state, exceptions and the trace of calls

    A computation runs from a state, ends with a value or an exception, and
    leaves the state it reached and the events it emitted, in order.  What
    was emitted before an exception stays emitted. *)
Section Monad.
Context {E S : Type}.

Definition M (A : Type) : Type := S -> result A * S * list E.

Definition ret {A} (a : A) : M A := fun s => (Ok a, s, []).

Definition bind {A B} (m : M A) (k : A -> M B) : M B :=
  fun s =>
    match m s with
    | (Ok a, s1, t1) => let '(r, s2, t2) := k a s1 in (r, s2, t1 ++ t2)
    | (Raise e, s1, t1) => (Raise e, s1, t1)
    end.

Definition raise {A} (e : exn) : M A := fun s => (Raise e, s, []).

Definition emit (ev : E) : M unit := fun s => (Ok tt, s, [ev]).

Definition get : M S := fun s => (Ok s, s, []).

Definition put (s : S) : M unit := fun _ => (Ok tt, s, []).

(** A pure operation that may raise. *)
Definition lift {A} (r : result A) : M A :=
  match r with Ok a => ret a | Raise e => raise e end.

(** A library call: it is recorded, then returns or raises. *)
Definition call {A} (ev : E) (r : result A) : M A :=
  bind (emit ev) (fun _ => lift r).

(** [for x in xs: acc = body(x, acc)], the loop-carried variables in [acc]. *)
Fixpoint for_each {X A} (xs : list X) (acc : A) (body : X -> A -> M A) : M A :=
  match xs with
  | [] => ret acc
  | x :: rest => bind (body x acc) (fun acc' => for_each rest acc' body)
  end.

(** [[f(x) for x in xs]], left to right. *)
Fixpoint map_each {X A} (xs : list X) (f : X -> M A) : M (list A) :=
  match xs with
  | [] => ret []
  | x :: rest => bind (f x) (fun a => bind (map_each rest f) (fun l => ret (a :: l)))
  end.

(** Every event a computation emits satisfies [P], however it ends. *)
Definition emits {A} (P : E -> Prop) (m : M A) : Prop :=
  forall s r s' t, m s = (r, s', t) -> Forall P t.


(** A computation that leaves the state as it found it, however it ends. *)
Definition keeps {A} (m : M A) : Prop :=
  forall s r s' t, m s = (r, s', t) -> s' = s.



End Monad.
Arguments M : clear implicits.

Declare Scope script_scope.
Delimit Scope script_scope with script.
Notation "x <- c1 ;; c2" := (bind c1 (fun x => c2))
  (at level 100, c1 at next level, right associativity) : script_scope.
Notation "c1 ;; c2" := (bind c1 (fun _ => c2))
  (at level 100, right associativity) : script_scope.
Local Open Scope script_scope.

(** ** Python built-in operations the scripts use *)

(** [sub in s] on two [str]: [sub] occurs in [s] as a contiguous run. *)
Fixpoint str_in (sub s : string) : bool :=
  String.prefix sub s ||
  match s with
  | EmptyString => false
  | String _ rest => str_in sub rest
  end.

(** [sub in v]: a [TypeError] unless the right operand is a string. *)
Definition py_in (sub : string) (v : pyval) : result bool :=
  match v with
  | PStr s => Ok (str_in sub s)
  | PNone => Raise (TypeError "argument of type 'NoneType' is not iterable")
  | PBool _ => Raise (TypeError "argument of type 'bool' is not iterable")
  | PInt _ => Raise (TypeError "argument of type 'int' is not iterable")
  | PFloat _ => Raise (TypeError "argument of type 'float' is not iterable")
  end.

(** [v == "lit"] and [v != "lit"] against a string literal. *)
Definition py_eq_str (v : pyval) (lit : string) : bool :=
  match v with
  | PStr s => String.eqb s lit
  | _ => false
  end.

Definition py_ne_str (v : pyval) (lit : string) : bool := negb (py_eq_str v lit).

(** [a + b] where the script concatenates strings. *)
Definition py_add (a b : pyval) : result pyval :=
  match a, b with
  | PStr x, PStr y => Ok (PStr (x +:+ y))
  | _, _ => Raise (TypeError "unsupported operand type(s) for +")
  end.

(** [getattr(ns, name)]. *)
Definition getattr (ns : Namespace) (name : string) : result pyval :=
  match ns !! name with
  | Some v => Ok v
  | None => Raise (AttributeError name)
  end.

(** [a, b = xs], [a, b, c = xs] and [a, b, c, d, e = xs] on a sequence. *)
Definition unpack2 {A} (xs : list A) : result (A * A) :=
  match xs with
  | [a; b] => Ok (a, b)
  | [] | [_] => Raise (ValueError "not enough values to unpack (expected 2)")
  | _ => Raise (ValueError "too many values to unpack (expected 2)")
  end.

Definition unpack3 {A} (xs : list A) : result (A * A * A) :=
  match xs with
  | [a; b; c] => Ok (a, b, c)
  | [] | [_] | [_; _] => Raise (ValueError "not enough values to unpack (expected 3)")
  | _ => Raise (ValueError "too many values to unpack (expected 3)")
  end.

Definition unpack5 {A} (xs : list A) : result (A * A * A * A * A) :=
  match xs with
  | [a; b; c; d; e] => Ok (a, b, c, d, e)
  | [] | [_] | [_; _] | [_; _; _] | [_; _; _; _] =>
      Raise (ValueError "not enough values to unpack (expected 5)")
  | _ => Raise (ValueError "too many values to unpack (expected 5)")
  end.

(** Python's [int], [float], [str] and [format] on numbers: the run-time's
    own conversions, taken as given. *)
Class Builtins : Type := {
  int_of_str : string -> option Z;
  float_of_str : string -> option float;
  repr_int : Z -> string;
  repr_float : float -> string;
  format_float : string -> float -> string
}.

(** [str(v)], as an f-string field without a format spec renders it. *)
Definition py_str `{Builtins} (v : pyval) : string :=
  match v with
  | PNone => "None"
  | PBool true => "True"
  | PBool false => "False"
  | PInt z => repr_int z
  | PFloat f => repr_float f
  | PStr s => s
  end.

(** [float(z)] for a Python [int] below [2^63] in absolute value. *)
Definition float_of_int (z : Z) : float :=
  if (z <? 0)%Z then PrimFloat.opp (PrimFloat.of_uint63 (Uint63.of_Z (- z)))
  else PrimFloat.of_uint63 (Uint63.of_Z z).

(** [format(v, spec)] with a float presentation type ([.1E], [.3f], [.4f]). *)
Definition py_format `{Builtins} (spec : string) (v : pyval) : result string :=
  match v with
  | PFloat f => Ok (format_float spec f)
  | PInt z => Ok (format_float spec (float_of_int z))
  | PBool b => Ok (format_float spec (if b then 1%float else 0%float))
  | PNone => Raise (TypeError "unsupported format string passed to NoneType.__format__")
  | PStr _ => Raise (ValueError "Unknown format code for object of type 'str'")
  end.

(** ** argparse, as far as the two parsers use it

    Each [add_argument] call is one [argument].  Parsing starts from the
    defaults and stores what the command line gives; the namespace has one
    attribute per declared argument and no other.  Long options may be
    abbreviated to an unambiguous prefix and may carry their value after
    [=].  A rejected command line ends in [SystemExit].  The command line
    is read in one pass, which agrees with argparse on command lines made of
    options beginning with two dashes and of values that do not begin with
    a dash.  Where it differs: a value beginning with one dash is taken
    here and refused by argparse unless it reads as a negative number; a
    value beginning with two dashes is refused here and taken by argparse
    when it holds a space; the bare [--] separator is not read; an unknown
    token ends the parse here, with status 2, where argparse reads on and
    only then exits, with status 0 if [--help] follows.  What the scripts
    rely on is kept: the attributes of a returned namespace are the declared
    destinations, each holding its default or a converted, allowed value. *)
Inductive argtype : Type := TInt | TFloat | TStr.

Inductive action : Type :=
| StoreTrue
| Store (ty : argtype) (choices : option (list string)).

Record argument : Type := Arg {
  flag : string;
  act : action;
  default : pyval
}.

(** [dest]: the flag without its leading dashes, inner dashes as underscores. *)
Fixpoint dashes_to_underscores (s : string) : string :=
  match s with
  | EmptyString => EmptyString
  | String c rest =>
      String (if Ascii.eqb c "-"%char then "_"%char else c) (dashes_to_underscores rest)
  end.

Fixpoint strip_dashes (s : string) : string :=
  match s with
  | String c rest => if Ascii.eqb c "-"%char then strip_dashes rest else s
  | EmptyString => EmptyString
  end.

Definition dest (a : argument) : string := dashes_to_underscores (strip_dashes (flag a)).

Definition defaults (decls : list argument) : Namespace :=
  fold_left (fun ns a => <[dest a := default a]> ns) decls ∅.

(** [tok.split('=', 1)]. *)
Fixpoint split_eq (tok : string) : string * option string :=
  match tok with
  | EmptyString => (EmptyString, None)
  | String c rest =>
      if Ascii.eqb c "="%char then (EmptyString, Some rest)
      else let '(name, v) := split_eq rest in (String c name, v)
  end.

(** The option a token names: the declared flag equal to it, or the one
    long flag it is a prefix of.  [--help], which every parser has, counts
    among the flags a prefix may stand for. *)
Definition find_option (decls : list argument) (name : string) : option argument :=
  match List.filter (fun a => String.eqb (flag a) name) decls with
  | a :: _ => Some a
  | [] =>
      match List.filter (fun a => String.prefix name (flag a)) decls with
      | [a] =>
          if String.prefix "--" name && negb (String.prefix name "--help") then Some a
          else None
      | _ => None
      end
  end.

(** A token that asks for the help text: [-h], [--help], or a prefix of
    [--help] that no declared flag begins with. *)
Definition asks_help (decls : list argument) (tok : string) : bool :=
  String.eqb tok "-h" || String.eqb tok "--help"
  || (String.prefix "--" tok && String.prefix tok "--help"
      && forallb (fun a => negb (String.prefix tok (flag a))) decls).

Definition convert `{Builtins} (ty : argtype) (v : string) : option pyval :=
  match ty with
  | TInt => PInt <$> int_of_str v
  | TFloat => PFloat <$> float_of_str v
  | TStr => Some (PStr v)
  end.

Definition allowed (choices : option (list string)) (v : string) : bool :=
  match choices with
  | None => true
  | Some cs => existsb (String.eqb v) cs
  end.

Definition store `{Builtins} (a : argument) (ty : argtype) (choices : option (list string))
    (v : string) (ns : Namespace) : result Namespace :=
  match convert ty v with
  | Some pv => if allowed choices v then Ok (<[dest a := pv]> ns) else Raise (SystemExit 2)
  | None => Raise (SystemExit 2)
  end.

Fixpoint parse_tokens `{Builtins} (decls : list argument) (argv : list string)
    (ns : Namespace) : result Namespace :=
  match argv with
  | [] => Ok ns
  | tok :: rest =>
      if asks_help decls tok then Raise (SystemExit 0)
      else
        let '(name, inline) := split_eq tok in
        match find_option decls name with
        | None => Raise (SystemExit 2)
        | Some a =>
            match act a, inline with
            | StoreTrue, None => parse_tokens decls rest (<[dest a := PBool true]> ns)
            | StoreTrue, Some _ => Raise (SystemExit 2)
            | Store ty choices, Some v =>
                match store a ty choices v ns with
                | Ok ns' => parse_tokens decls rest ns'
                | Raise e => Raise e
                end
            | Store ty choices, None =>
                match rest with
                | v :: rest' =>
                    if String.prefix "--" v then Raise (SystemExit 2)
                    else
                      match store a ty choices v ns with
                      | Ok ns' => parse_tokens decls rest' ns'
                      | Raise e => Raise e
                      end
                | [] => Raise (SystemExit 2)
                end
            end
        end
  end.

(** [ArgumentParser.parse_args(argv)]. *)
Definition argparse `{Builtins} (decls : list argument) (argv : list string) : result Namespace :=
  parse_tokens decls argv (defaults decls).

(** ** Tensors and data loaders

    The embeddings the scripts handle are two-dimensional: one row per
    instance of the batch.  [x[0]] is the first row; [torch.cat(.., dim=1)]
    joins the rows of two tensors pairwise. *)
Abbreviation tensor := (list (list float)).

Definition row0 {A} (t : list A) : result A :=
  match t with
  | r :: _ => Ok r
  | [] => Raise IndexError
  end.

Definition cat_dim1 (a b : tensor) : result tensor :=
  if Nat.eqb (length a) (length b) then Ok (zip_with (@app float) a b)
  else Raise (RuntimeError "Sizes of tensors must match except in dimension 1").

(** [d[k]] on a dictionary with string keys. *)
Definition subscript {A} (d : gmap string A) (k : string) : result A :=
  match d !! k with
  | Some v => Ok v
  | None => Raise (KeyError k)
  end.

(** What [np.save] receives: a list of rows or a list of scalars, after
    [np.asarray]. *)
Inductive array : Type :=
| Arr2 (rows : list (list float))
| Arr1 (xs : list float).

(** [torch.utils.data.DataLoader] over a map-style dataset whose instances
    are tuples: without shuffling the instances are cut, in index order,
    into runs of [batch_size] (the last one may be shorter), and each run is
    collated field by field. *)
Class Collate (obj : Type) : Type := {
  stack : list obj -> obj
}.

Fixpoint chunks_from {A} (n : nat) (cur : list A) (room : nat) (rows : list A) : list (list A) :=
  match rows with
  | [] => match cur with [] => [] | _ => [rev cur] end
  | r :: rest =>
      match room with
      | 0 | 1 => rev (r :: cur) :: chunks_from n [] n rest
      | S room' => chunks_from n (r :: cur) room' rest
      end
  end.

Definition chunks {A} (n : nat) (rows : list A) : list (list A) := chunks_from n [] n rows.

Definition collate `{Collate obj} (rows : list (list obj)) : list obj :=
  match rows with
  | [] => []
  | r0 :: _ => List.map (fun j => stack (omap (fun r => r !! j) rows)) (seq 0 (length r0))
  end.

Definition sequential_batches `{Collate obj} (batch_size : nat) (rows : list (list obj))
    : list (list obj) :=
  List.map collate (chunks batch_size rows).

(** * experiments/precomp_vsts_emb.py *)
Module Precomp.

(** What the script calls: [data.vsts_dataset], the two UniVSE model
    packages, the tensors' conversions, [os] and [np.save]. *)
Class Framework : Type := {
  obj : Type;
  dataset : Type;
  model : Type;
  obj_collate :: Collate obj;
  VstsCaptions : pyval -> string -> result dataset;
  instances : dataset -> list (list obj);
  simp_univse_from_filename : pyval -> result model;
  univse_from_filename : pyval -> result model;
  load_model : model -> pyval -> result model;
  add_graphs : model -> pyval -> result model;
  to_device : model -> model;
  eval_mode : model -> model;
  py_list : obj -> result obj;
  forward : model -> obj -> obj -> result (gmap string tensor);
  numpy1 : obj -> result (list float);
  path_exists : string -> bool;
  mkdir : string -> result unit;
  np_save : string -> array -> result unit
}.

Section Script.
Context `{Builtins} `{Framework}.

Inductive event : Type :=
| Print (line : string)
| PrintShape (label : string) (a : array)
| NewDataset (root : pyval) (split : string)
| FromFilename (package : string) (vocab_path : pyval)
| LoadModel (model_path : pyval)
| AddGraphs (graph_path : pyval)
| Forward (img sents : obj)
| MkDir (path : string)
| NpSave (path : string) (a : array).

Definition parser : list argument := [
  Arg "--model" (Store TStr (Some ["vse++"; "univse"; "simp_univse"])) (PStr "univse");
  Arg "--modality"
    (Store TStr (Some ["img"; "sent"; "cap"; "comp"; "sent+img"; "cap+img"; "comp+img"]))
    (PStr "sent");
  Arg "--data-path" (Store TStr None) PNone;
  Arg "--model-path" (Store TStr None) PNone;
  Arg "--graph-path" (Store TStr None) PNone;
  Arg "--output-path" (Store TStr None) PNone;
  Arg "--vocab-path" (Store TStr None) PNone
].

Definition parse_args (argv : list string) : result Namespace := argparse parser argv.

(** The script's only mutable variable that outlives a statement is
    [args]; the state of a run is the namespace. *)
Abbreviation Run := (M event Namespace).

Definition attr (name : string) : Run pyval :=
  ns <- get ;; lift (getattr ns name).

Definition setattr (name : string) (v : pyval) : Run unit :=
  ns <- get ;; put (<[name := v]> ns).

(** Lines 70-73. *)
Definition load_data : Run dataset :=
  emit (Print "A) Load data") ;;
  root <- attr "data_path" ;;
  call (NewDataset root "all") (VstsCaptions root "all").

Definition warning (from : string) (m : pyval) : string :=
  "WARNING: modality of embedding changed from '" +:+ from +:+ "' to 'sent', as "
  +:+ py_str m +:+ " has only sentence embeddings as output.".

(** [sub in args.modality and args.model != "univse"], left to right. *)
Definition guard (sub : string) : Run bool :=
  md <- attr "modality" ;;
  c <- lift (py_in sub md) ;;
  if c then m <- attr "model" ;; ret (py_ne_str m "univse") else ret false.

(** Lines 75-81. *)
Definition adjust_cap : Run unit :=
  g <- guard "cap" ;;
  if g then
    md <- attr "modality" ;;
    i <- lift (py_in "img" md) ;;
    (if i then setattr "modality" (PStr "sent+img") else setattr "modality" (PStr "sent")) ;;
    m <- attr "model" ;;
    emit (Print (warning "cap" m))
  else ret tt.

(** Lines 83-89. *)
Definition adjust_comp : Run unit :=
  g <- guard "comp" ;;
  if g then
    md <- attr "modality" ;;
    i <- lift (py_in "comp" md) ;;
    (if i then setattr "modality" (PStr "comp+img") else setattr "modality" (PStr "comp")) ;;
    m <- attr "model" ;;
    emit (Print (warning "comp" m))
  else ret tt.

(** Lines 91-103; [None] is the [return] of the last branch. *)
Definition load_the_model : Run (option model) :=
  emit (Print "B) Load model") ;;
  m <- attr "model" ;;
  if py_eq_str m "vse++" then raise NotImplementedError
  else if py_eq_str m "simp_univse" then
    vp <- attr "vocab_path" ;;
    mdl <- call (FromFilename "simplified_univse" vp) (simp_univse_from_filename vp) ;;
    mp <- attr "model_path" ;;
    mdl <- call (LoadModel mp) (load_model mdl mp) ;;
    ret (Some mdl)
  else if py_eq_str m "univse" then
    vp <- attr "vocab_path" ;;
    mdl <- call (FromFilename "univse" vp) (univse_from_filename vp) ;;
    mp <- attr "model_path" ;;
    mdl <- call (LoadModel mp) (load_model mdl mp) ;;
    gp <- attr "graph_path" ;;
    mdl <- call (AddGraphs gp) (add_graphs mdl gp) ;;
    ret (Some mdl)
  else
    emit (Print "ERROR: model name unknown.") ;;
    ret None.

(** Lines 127-147: the [if]/[elif] chain on [args.modality]. *)
Definition select_pair (md : pyval) (e1 e2 : gmap string tensor) : result (tensor * tensor) :=
  let single k :=
    match subscript e1 k with
    | Ok a => match subscript e2 k with Ok b => Ok (a, b) | Raise e => Raise e end
    | Raise e => Raise e
    end in
  let joined (d : gmap string tensor) k :=
    match subscript d k with
    | Ok a => match subscript d "img_emb" with Ok b => cat_dim1 a b | Raise e => Raise e end
    | Raise e => Raise e
    end in
  let with_img k :=
    match joined e1 k with
    | Ok a => match joined e2 k with Ok b => Ok (a, b) | Raise e => Raise e end
    | Raise e => Raise e
    end in
  if py_eq_str md "img" then single "img_emb"
  else if py_eq_str md "cap" then single "cap_emb"
  else if py_eq_str md "sent" then single "sent_emb"
  else if py_eq_str md "comp" then single "comp_emb"
  else if py_eq_str md "cap+img" then with_img "cap_emb"
  else if py_eq_str md "sent+img" then with_img "sent_emb"
  else with_img "comp_emb".

(** The three lists the loop grows. *)
Record collected : Type := Collected {
  embs1 : list (list float);
  embs2 : list (list float);
  sims : list float
}.

(** Lines 122-151: one pass of the loop body. *)
Definition loop_body (mdl : model) (batch : list obj) (acc : collected) : Run collected :=
  fields <- lift (unpack5 batch) ;;
  let '(img_1, sent_1, img_2, sent_2, sim) := fields in
  s1 <- lift (py_list sent_1) ;;
  embeddings_1 <- call (Forward img_1 s1) (forward mdl img_1 s1) ;;
  s2 <- lift (py_list sent_2) ;;
  embeddings_2 <- call (Forward img_2 s2) (forward mdl img_2 s2) ;;
  md <- attr "modality" ;;
  current <- lift (select_pair md embeddings_1 embeddings_2) ;;
  let '(current_emb_1, current_emb_2) := current in
  r1 <- lift (row0 current_emb_1) ;;
  r2 <- lift (row0 current_emb_2) ;;
  sv <- lift (numpy1 sim) ;;
  s0 <- lift (row0 sv) ;;
  ret (Collected (embs1 acc ++ [r1]) (embs2 acc ++ [r2]) (sims acc ++ [s0])).

(** Lines 109-151: the loader with batch size 1 and no shuffling, and the
    loop over it. *)
Definition embed_all (mdl : model) (all_data : dataset) : Run collected :=
  let generator := sequential_batches 1 (instances all_data) in
  for_each generator (Collected [] [] []) (loop_body mdl).

(** A path handed to [os.path.exists], [os.mkdir] or [np.save]: a string,
    the only value besides [None] that [parse_args] can yield for it. *)
Definition as_path (v : pyval) : result string :=
  match v with
  | PStr p => Ok p
  | _ => Raise (TypeError "stat: path should be string, bytes, os.PathLike or integer")
  end.

(** [args.output_path + '/' + args.model + '_' + args.modality + suffix]. *)
Definition emb_file_name (suffix : string) : Run string :=
  out <- attr "output_path" ;;
  a <- lift (py_add out (PStr "/")) ;;
  m <- attr "model" ;;
  b <- lift (py_add a m) ;;
  c <- lift (py_add b (PStr "_")) ;;
  md <- attr "modality" ;;
  d <- lift (py_add c md) ;;
  e <- lift (py_add d (PStr suffix)) ;;
  lift (as_path e).

(** Lines 153-168. *)
Definition save_outputs (acc : collected) : Run unit :=
  emit (PrintShape "Emb. 1: " (Arr2 (embs1 acc))) ;;
  emit (PrintShape "Emb. 2: " (Arr2 (embs2 acc))) ;;
  emit (PrintShape "Sim: " (Arr1 (sims acc))) ;;
  out <- attr "output_path" ;;
  p <- lift (as_path out) ;;
  (if negb (path_exists p) then
     out <- attr "output_path" ;; p <- lift (as_path out) ;; call (MkDir p) (mkdir p)
   else ret tt) ;;
  f1 <- emb_file_name "_emb_1.npy" ;;
  call (NpSave f1 (Arr2 (embs1 acc))) (np_save f1 (Arr2 (embs1 acc))) ;;
  f2 <- emb_file_name "_emb_2.npy" ;;
  call (NpSave f2 (Arr2 (embs2 acc))) (np_save f2 (Arr2 (embs2 acc))) ;;
  out <- attr "output_path" ;;
  f3 <- lift (py_add out (PStr "/sim.npy")) ;;
  f3 <- lift (as_path f3) ;;
  call (NpSave f3 (Arr1 (sims acc))) (np_save f3 (Arr1 (sims acc))).

(** Lines 70-151: the run up to the end of the loop over the instances;
    [None] when the model branch returned. *)
Definition embed_phase : Run (option collected) :=
  all_data <- load_data ;;
  adjust_cap ;;
  adjust_comp ;;
  loaded <- load_the_model ;;
  match loaded with
  | None => ret None
  | Some mdl =>
      let mdl := eval_mode (to_device mdl) in
      acc <- embed_all mdl all_data ;;
      ret (Some acc)
  end.

(** [main], from the namespace [parse_args] returned. *)
Definition main_body : Run unit :=
  done <- embed_phase ;;
  match done with
  | None => ret tt
  | Some acc => save_outputs acc
  end.

Definition main (argv : list string) : result unit * list event :=
  match parse_args argv with
  | Raise e => (Raise e, [])
  | Ok args => let '(r, _, t) := main_body args in (r, t)
  end.

End Script.

(** What every namespace returned by [parse_args] satisfies: the model and
    the modality are among the declared choices, and each path is a string
    or [None]. *)
Definition models : list string := ["vse++"; "univse"; "simp_univse"].

Definition modalities : list string :=
  ["img"; "sent"; "cap"; "comp"; "sent+img"; "cap+img"; "comp+img"].

Definition str_or_none (ns : Namespace) (k : string) : Prop :=
  ns !! k = Some PNone \/ exists s, ns !! k = Some (PStr s).

Record parsed (ns : Namespace) : Prop := Parsed {
  parsed_model : exists m, ns !! "model" = Some (PStr m) /\ In m models;
  parsed_modality : exists md, ns !! "modality" = Some (PStr md) /\ In md modalities;
  parsed_data_path : str_or_none ns "data_path";
  parsed_model_path : str_or_none ns "model_path";
  parsed_graph_path : str_or_none ns "graph_path";
  parsed_output_path : str_or_none ns "output_path";
  parsed_vocab_path : str_or_none ns "vocab_path"
}.

(** The attributes the parser declares, in the order of its
    [add_argument] calls. *)
Definition attributes : list string :=
  ["model"; "modality"; "data_path"; "model_path"; "graph_path"; "output_path";
   "vocab_path"].

(** The selection as the specification words it: a plain modality names one
    embedding of the model's output; a modality [x+img] is the embedding
    named [x] joined, along dimension 1, with the image embedding. *)
Fixpoint before_plus (s : string) : string :=
  match s with
  | EmptyString => EmptyString
  | String c rest => if Ascii.eqb c "+"%char then EmptyString else String c (before_plus rest)
  end.

Definition named (name : string) (e : gmap string tensor) : result tensor :=
  subscript e (name +:+ "_emb").

Definition selection_spec (md : string) (e : gmap string tensor) : result tensor :=
  if existsb (String.eqb md) ["img"; "cap"; "sent"; "comp"] then named md e
  else
    match named (before_plus md) e with
    | Ok a => match named "img" e with Ok b => cat_dim1 a b | Raise x => Raise x end
    | Raise x => Raise x
    end.

Definition both {A B} (ra : result A) (rb : result B) : result (A * B) :=
  match ra with
  | Ok a => match rb with Ok b => Ok (a, b) | Raise x => Raise x end
  | Raise x => Raise x
  end.

(** The events that create a directory or write a file. *)
Definition writes `{Framework} (e : event) : Prop :=
  match e with
  | MkDir _ | NpSave _ _ => True
  | _ => False
  end.

Definition is_warning `{Builtins} `{Framework} (e : event) : Prop :=
  exists from m, e = Print (warning from m).

(** What a run with model [m] does not emit: the line of the last branch of
    lines 92-103 and, unless [m] is "univse", a call of [add_graphs]. *)
Definition branch_event `{Framework} (m : string) (e : event) : Prop :=
  e <> Print "ERROR: model name unknown." /\ (m <> "univse" -> forall gp, e <> AddGraphs gp).

(** The events of lines 153-168. *)
Definition saving `{Framework} (e : event) : Prop :=
  match e with
  | PrintShape _ _ | MkDir _ | NpSave _ _ => True
  | _ => False
  end.

(** The phase an event belongs to: 1 loading the data (with the warnings on
    the modality), 2 loading the model, 3 the loop over the instances,
    4 saving the outputs. *)
Definition phase_of `{Framework} (e : event) : nat :=
  match e with
  | Print line =>
      if String.prefix "B) " line || String.prefix "ERROR" line then 2 else 1
  | NewDataset _ _ => 1
  | FromFilename _ _ | LoadModel _ | AddGraphs _ => 2
  | Forward _ _ => 3
  | PrintShape _ _ | MkDir _ | NpSave _ _ => 4
  end.

End Precomp.

(** * experiments/finetune_snli_ve.py *)
Module Finetune.

(** What the script calls.  [torch] is everything PyTorch holds between two
    calls: the classifier's parameters and buffers, its mode, the
    optimizer's state and the random generator.  [weights] is a state
    dictionary as a value, which is what [copy.deepcopy] makes of the
    dictionary [state_dict()] returns.  [new_iterator] is what starting a
    pass over a loader does to that state (the iterator draws its base seed
    from the random generator); [shuffled] is the order a random sampler
    gives the instances, with the state after the draw. *)
Class Framework : Type := {
  obj : Type;
  dataset : Type;
  torch : Type;
  weights : Type;
  logits : Type;
  loss_tensor : Type;
  obj_collate :: Collate obj;
  SnliVECaptionsPrecomp : pyval -> pyval -> string -> result dataset;
  instances : dataset -> list (list obj);
  label : dataset -> list Z;
  SnliClassifier : pyval -> pyval -> pyval -> pyval -> torch -> result torch;
  SGD : pyval -> pyval -> pyval -> torch -> result torch;
  new_iterator : torch -> torch;
  shuffled : list (list obj) -> torch -> list (list obj) * torch;
  set_train : torch -> torch;
  set_eval : torch -> torch;
  forward : obj -> torch -> result (logits * torch);
  forward2 : obj -> obj -> torch -> result (logits * torch);
  view_label : obj -> result obj;
  criterion : logits -> obj -> result loss_tensor;
  zero_grad : torch -> torch;
  backward : loss_tensor -> torch -> result torch;
  step : torch -> result torch;
  loss_value : loss_tensor -> result float;
  state_dict : torch -> weights;
  load_state_dict : weights -> torch -> result torch;
  predicted_labels : logits -> result (list Z);
  torch_save : string -> weights -> result unit;
  savefig : string -> list Z -> list float -> list float -> result unit;
  pickle_dump : string -> gmap string (list float) -> result unit
}.

Section Script.
Context `{Builtins} `{Framework}.

Inductive event : Type :=
| Print (line : string)
| NewDataset (file_emb file_label : pyval) (split : string)
| NewModel (input_dim hidden_dim dropout batch_norm : pyval)
| NewOptimizer (lr weight_decay momentum : pyval)
| Forward (phase : string) (emb : obj)
| OptimizerStep
| SetDescription (text : string)
| TorchSave (path : string) (w : weights)
| SaveFig (path : string) (train dev : list float)
| PickleDump (path : string) (losses : gmap string (list float))
| Forward2 (emb_1 emb_2 : obj).

(** The default of [--lr] is the double nearest to [0.0001]. *)
Definition parser : list argument := [
  Arg "--plot" StoreTrue (PBool false);
  Arg "--eval" StoreTrue (PBool false);
  Arg "--epochs" (Store TInt None) (PInt 300);
  Arg "--lr" (Store TFloat None) (PFloat 0x1.a36e2eb1c432dp-14);
  Arg "--batch-size" (Store TInt None) (PInt 128);
  Arg "--input-size" (Store TInt None) (PInt 1024);
  Arg "--hidden-size" (Store TInt None) (PInt 100);
  Arg "--momentum" (Store TFloat None) (PFloat 0.0);
  Arg "--weight-decay" (Store TFloat None) (PFloat 0.0);
  Arg "--dropout" (Store TFloat None) (PFloat 0.0);
  Arg "--batch-norm" StoreTrue (PBool false);
  Arg "--emb-file" (Store TStr None) PNone;
  Arg "--label-file" (Store TStr None) PNone;
  Arg "--output-path" (Store TStr None) PNone
].

Definition parse_args (argv : list string) : result Namespace := argparse parser argv.

(** The state of a run is PyTorch's; the script's own variables are passed
    along. *)
Abbreviation Run := (M event torch).

(** A call that changes PyTorch's state. *)
Definition update (ev : option event) (f : torch -> result torch) : Run unit :=
  match ev with Some e => emit e | None => ret tt end ;;
  w <- get ;;
  w' <- lift (f w) ;;
  put w'.

(** A call that changes PyTorch's state and returns a value. *)
Definition query {A} (ev : event) (f : torch -> result (A * torch)) : Run A :=
  emit ev ;;
  w <- get ;;
  r <- lift (f w) ;;
  put (snd r) ;;
  ret (fst r).

Record loader : Type := Loader {
  ld_data : dataset;
  ld_batch_size : nat;
  ld_shuffle : bool;
  ld_workers : Z
}.

(** [data.DataLoader(dataset, batch_size=.., shuffle=.., num_workers=..)];
    the batch size is the integer [parse_args] yields.  With [shuffle=True]
    the random sampler is built first and refuses a dataset without
    instances; then the batch sampler refuses a batch size that is not
    positive. *)
Definition DataLoader (d : dataset) (batch_size : pyval) (sh : bool) (workers : Z)
    : result loader :=
  if sh && Nat.eqb (length (instances d)) 0 then
    Raise (ValueError "num_samples should be a positive integer value, but got num_samples=0")
  else
    match batch_size with
    | PInt z =>
        if (0 <? z)%Z then Ok (Loader d (Z.to_nat z) sh workers)
        else Raise (ValueError "batch_size should be a positive integer value")
    | _ => Raise (ValueError "batch_size should be a positive integer value")
    end.

(** One pass over a loader: the iterator is created, which draws from the
    random generator, and the batches it yields come in order, over the
    instances as the sampler orders them. *)
Definition batches_of (g : loader) : Run (list (list obj)) :=
  w <- get ;;
  put (new_iterator w) ;;
  if ld_shuffle g then
    w <- get ;;
    let '(rows, w') := shuffled (instances (ld_data g)) w in
    put w' ;;
    ret (sequential_batches (ld_batch_size g) rows)
  else ret (sequential_batches (ld_batch_size g) (instances (ld_data g))).

Definition as_int (v : pyval) : result Z :=
  match v with
  | PInt z => Ok z
  | PBool b => Ok (if b then 1 else 0)%Z
  | _ => Raise (TypeError "unsupported operand type(s) for +")
  end.

(** [range(lo, hi)]. *)
Definition py_range (lo hi : Z) : list Z :=
  List.map (fun i => (lo + Z.of_nat i)%Z) (seq 0 (Z.to_nat (hi - lo))).

(** [bool(v)], as an [if] tests it. *)
Definition truthy (v : pyval) : bool :=
  match v with
  | PNone => false
  | PBool b => b
  | PInt z => negb (z =? 0)%Z
  | PFloat f => negb (PrimFloat.eqb f 0%float)
  | PStr s => negb (String.eqb s "")
  end.

(** [xs[-1]]. *)
Definition last_item {A} (xs : list A) : result A :=
  match last xs with
  | Some x => Ok x
  | None => Raise IndexError
  end.

(** [x / n] for a float [x] and an int [n]. *)
Definition float_div_int (x : float) (n : Z) : result float :=
  if (n =? 0)%Z then Raise ZeroDivisionError
  else Ok (PrimFloat.div x (float_of_int n)).

(** [a / b] for two ints. *)
Definition int_div_int (a b : Z) : result float :=
  if (b =? 0)%Z then Raise ZeroDivisionError
  else Ok (PrimFloat.div (float_of_int a) (float_of_int b)).

(** [os.path.join(a, b)] for a [b] that is not absolute. *)
Definition os_path_join (a : pyval) (b : string) : result string :=
  match a with
  | PStr d =>
      if String.eqb d "" || String.eqb (String.substring (String.length d - 1) 1 d) "/"
      then Ok (d +:+ b)
      else Ok (d +:+ "/" +:+ b)
  | _ => Raise (TypeError "expected str, bytes or os.PathLike object")
  end.

(** Lines 109-120. *)
Definition inference_step (batch : list obj) (all_logits : list Z) : Run (list Z) :=
  fields <- lift (unpack3 batch) ;;
  let '(emb_1, emb_2, _) := fields in
  lg <- query (Forward2 emb_1 emb_2) (forward2 emb_1 emb_2) ;;
  pred_labels <- lift (predicted_labels lg) ;;
  ret (all_logits ++ pred_labels).

Definition inference (data_gen : loader) : Run (list Z) :=
  batches <- batches_of data_gen ;;
  for_each batches [] inference_step.

(** The variables the epoch loop carries (lines 161-165). *)
Record progress : Type := Progress {
  train_losses : list float;
  dev_losses : list float;
  best_model_wts : weights;
  best_loss : float
}.

(** Lines 185-196: the loss of one batch, as a Python float. *)
Definition batch_loss (phase : string) (current_batch : list obj) : Run float :=
  fields <- lift (unpack2 current_batch) ;;
  let '(emb, lbl) := fields in
  lg <- query (Forward phase emb) (forward emb) ;;
  lbl <- lift (view_label lbl) ;;
  loss <- lift (criterion lg lbl) ;;
  (if String.eqb phase "train" then
     update None (fun w => Ok (zero_grad w)) ;;
     update None (backward loss) ;;
     update (Some OptimizerStep) step
   else ret tt) ;;
  lift (loss_value loss).

(** Lines 183-198: one pass of the innermost loop; [acc] is
    [(running_loss, idx)]. *)
Definition batch_step (phase : string) (current_batch : list obj) (acc : float * Z)
    : Run (float * Z) :=
  v <- batch_loss phase current_batch ;;
  ret (PrimFloat.add (fst acc) v, (snd acc + 1)%Z).

Definition description (train dev : float) : string :=
  "Epoch Loss: " +:+ format_float ".3f" train +:+ " (train) / "
  +:+ format_float ".3f" dev +:+ " (val)".

(** Lines 172-200: the running loss of one phase of one epoch, divided by
    the number of batches. *)
Definition phase_loss (train_gen dev_gen : loader) (phase : string) : Run float :=
  let train := String.eqb phase "train" in
  update None (fun w => Ok (if train then set_train w else set_eval w)) ;;
  batches <- batches_of (if train then train_gen else dev_gen) ;;
  acc <- for_each batches (0%float, 0%Z) (batch_step phase) ;;
  lift (float_div_int (fst acc) (snd acc)).

(** Lines 202-212: the phase's loss is appended to its list; after a dev
    phase the description is refreshed and the best weights are renewed when
    the loss is below the best so far. *)
Definition record_loss (phase : string) (st : progress) (running_loss : float)
    : Run progress :=
  if String.eqb phase "train" then
    ret (Progress (train_losses st ++ [running_loss]) (dev_losses st)
           (best_model_wts st) (best_loss st))
  else
    let dev_losses' := dev_losses st ++ [running_loss] in
    t <- lift (last_item (train_losses st)) ;;
    d <- lift (last_item dev_losses') ;;
    emit (SetDescription (description t d)) ;;
    if PrimFloat.ltb running_loss (best_loss st) then
      w <- get ;;
      ret (Progress (train_losses st) dev_losses' (state_dict w) running_loss)
    else
      ret (Progress (train_losses st) dev_losses' (best_model_wts st) (best_loss st)).

(** Lines 172-212: one phase of one epoch. *)
Definition run_phase (train_gen dev_gen : loader) (phase : string) (st : progress)
    : Run progress :=
  running_loss <- phase_loss train_gen dev_gen phase ;;
  record_loss phase st running_loss.

(** Lines 168-212: one epoch, then all of them. *)
Definition run_epoch (train_gen dev_gen : loader) (st : progress) : Run progress :=
  for_each ["train"; "dev"] st (run_phase train_gen dev_gen).

Definition train_loop (train_gen dev_gen : loader) (epochs : list Z) (st : progress)
    : Run progress :=
  for_each epochs st (fun _ => run_epoch train_gen dev_gen).

Definition tab : string := String (ascii_of_nat 9) "".

(** Lines 127-133. *)
Definition load_data (args : Namespace) : Run (dataset * dataset) :=
  emit (Print "A) Load data") ;;
  fe <- lift (getattr args "emb_file") ;;
  fl <- lift (getattr args "sim_file") ;;
  train_data <- call (NewDataset fe fl "train") (SnliVECaptionsPrecomp fe fl "train") ;;
  fe <- lift (getattr args "emb_file") ;;
  fl <- lift (getattr args "sim_file") ;;
  dev_data <- call (NewDataset fe fl "dev") (SnliVECaptionsPrecomp fe fl "dev") ;;
  ret (train_data, dev_data).

(** Lines 135-144. *)
Definition load_the_model (args : Namespace) : Run unit :=
  emit (Print "B) Load model") ;;
  input_dim <- lift (getattr args "input_size") ;;
  hidden_dim <- lift (getattr args "hidden_size") ;;
  dropout <- lift (getattr args "dropout") ;;
  batch_norm <- lift (getattr args "batch_norm") ;;
  update (Some (NewModel input_dim hidden_dim dropout batch_norm))
    (SnliClassifier input_dim hidden_dim dropout batch_norm) ;;
  lr <- lift (getattr args "lr") ;;
  weight_decay <- lift (getattr args "weight_decay") ;;
  momentum <- lift (getattr args "momentum") ;;
  update (Some (NewOptimizer lr weight_decay momentum)) (SGD lr weight_decay momentum).

(** Lines 146-212; returns the loop's variables, [dev_gen] and the batch
    size [eval_params] keeps. *)
Definition train (args : Namespace) (train_data dev_data : dataset)
    : Run (progress * loader * pyval) :=
  emit (Print "C) Train model") ;;
  bs <- lift (getattr args "batch_size") ;;
  train_gen <- lift (DataLoader train_data bs true 6) ;;
  bs <- lift (getattr args "batch_size") ;;
  dev_gen <- lift (DataLoader dev_data bs false 6) ;;
  w <- get ;;
  let st := Progress [] [] (state_dict w) 1e10%float in
  ep <- lift (getattr args "epochs") ;;
  n <- lift (as_int ep) ;;
  st <- train_loop train_gen dev_gen (py_range 1 (n + 1)) st ;;
  ret (st, dev_gen, bs).

(** Lines 214-225. *)
Definition save_outputs (args : Namespace) (st : progress) : Run unit :=
  update None (load_state_dict (best_model_wts st)) ;;
  w <- get ;;
  out <- lift (getattr args "output_path") ;;
  lr <- lift (getattr args "lr") ;;
  lr_text <- lift (py_format ".1E" lr) ;;
  path <- lift (os_path_join out ("ft_model_lr" +:+ lr_text +:+ ".pth")) ;;
  call (TorchSave path (state_dict w)) (torch_save path (state_dict w)) ;;
  plot <- lift (getattr args "plot") ;;
  (if truthy plot then
     ep <- lift (getattr args "epochs") ;;
     n <- lift (as_int ep) ;;
     out <- lift (getattr args "output_path") ;;
     lr <- lift (getattr args "lr") ;;
     lr_text <- lift (py_format ".1E" lr) ;;
     path <- lift (os_path_join out ("training_losses_" +:+ lr_text +:+ ".png")) ;;
     call (SaveFig path (train_losses st) (dev_losses st))
       (savefig path (py_range 1 (n + 1)) (train_losses st) (dev_losses st))
   else ret tt) ;;
  out <- lift (getattr args "output_path") ;;
  path <- lift (os_path_join out "losses.pickle") ;;
  let losses : gmap string (list float) :=
    <["dev" := dev_losses st]> (<["train" := train_losses st]> ∅) in
  call (PickleDump path losses) (pickle_dump path losses).

(** [sum(1 for x, y in zip(pred, truth) if x == y) / len(pred)]. *)
Definition accuracy (pred truth : list Z) : result float :=
  int_div_int
    (Z.of_nat (length (List.filter (fun xy => (fst xy =? snd xy)%Z) (combine pred truth))))
    (Z.of_nat (length pred)).

(** Lines 227-249. *)
Definition evaluate (args : Namespace) (train_data dev_data : dataset) (dev_gen : loader)
    (bs : pyval) : Run unit :=
  fe <- lift (getattr args "emb_file") ;;
  fl <- lift (getattr args "sim_file") ;;
  test_data <- call (NewDataset fe fl "test") (SnliVECaptionsPrecomp fe fl "test") ;;
  train_gen <- lift (DataLoader train_data bs false 6) ;;
  test_gen <- lift (DataLoader test_data bs false 6) ;;
  emit (Print "D) Inference") ;;
  update None (fun w => Ok (set_eval w)) ;;
  pred_train <- inference train_gen ;;
  pred_dev <- inference dev_gen ;;
  pred_test <- inference test_gen ;;
  emit (Print "E) Compute Accuracy (between predicted labels and ground truth)") ;;
  a_train <- lift (accuracy pred_train (label train_data)) ;;
  a_dev <- lift (accuracy pred_dev (label dev_data)) ;;
  a_test <- lift (accuracy pred_test (label test_data)) ;;
  emit (Print (tab +:+ tab +:+ tab +:+ "TRAIN" +:+ tab +:+ "DEV" +:+ tab +:+ "TEST")) ;;
  emit (Print ("Accuracies: " +:+ format_float ".4f" a_train +:+ tab
               +:+ format_float ".4f" a_dev +:+ tab +:+ format_float ".4f" a_test)).

(** [main], from the namespace [parse_args] returned. *)
Definition main_body (args : Namespace) : Run unit :=
  data <- load_data args ;;
  let '(train_data, dev_data) := data in
  load_the_model args ;;
  trained <- train args train_data dev_data ;;
  let '(st, dev_gen, bs) := trained in
  save_outputs args st ;;
  ev <- lift (getattr args "eval") ;;
  if truthy ev then evaluate args train_data dev_data dev_gen bs else ret tt.

Definition main (argv : list string) (w : torch) : result unit * list event :=
  match parse_args argv with
  | Raise e => (Raise e, [])
  | Ok args => let '(r, _, t) := main_body args w in (r, t)
  end.

(** ** The specification's side of the loss bookkeeping *)

(** The arithmetic mean of a list of floats, summed from [0.0] in order. *)
Definition mean (ls : list float) : result float :=
  match ls with
  | [] => Raise ZeroDivisionError
  | _ => Ok (PrimFloat.div (fold_left PrimFloat.add ls 0%float)
               (float_of_int (Z.of_nat (length ls))))
  end.

(** One phase of one epoch, as the mean of the per-batch losses: the model
    is put in the phase's mode, the phase's loader is iterated once, every
    batch yields its loss, and the losses are averaged. *)
Definition phase_mean (train_gen dev_gen : loader) (phase : string) : Run float :=
  let train := String.eqb phase "train" in
  update None (fun w => Ok (if train then set_train w else set_eval w)) ;;
  batches <- batches_of (if train then train_gen else dev_gen) ;;
  ls <- map_each batches (batch_loss phase) ;;
  lift (mean ls).

(** What one completed epoch leaves behind: the two averages and PyTorch's
    state at the end of its dev phase. *)
Record epoch : Type := Epoch {
  ep_train : float;
  ep_dev : float;
  ep_torch : torch
}.

(** [h] is the history of consecutive completed epochs run from state [w]. *)
Fixpoint epochs_from (train_gen dev_gen : loader) (w : torch) (h : list epoch) : Prop :=
  match h with
  | [] => True
  | ep :: h' =>
      (exists w1 t1 t2,
         phase_mean train_gen dev_gen "train" w = (Ok (ep_train ep), w1, t1) /\
         phase_mean train_gen dev_gen "dev" w1 = (Ok (ep_dev ep), ep_torch ep, t2)) /\
      epochs_from train_gen dev_gen (ep_torch ep) h'
  end.

(** The best weights and the best loss after the epochs of [h], from those
    before them: an epoch whose dev average is below the best so far
    replaces both. *)
Definition track (best : weights * float) (h : list epoch) : weights * float :=
  fold_left
    (fun b ep =>
       if PrimFloat.ltb (ep_dev ep) (snd b) then (state_dict (ep_torch ep), ep_dev ep) else b)
    h best.

(** Epoch [k] (from 0) set a record: its dev average is strictly below
    [1e10] and strictly below the dev average of every earlier epoch. *)
Definition record (devs : list float) (k : nat) : Prop :=
  exists x, devs !! k = Some x /\ PrimFloat.ltb x 1e10%float = true /\
    forall j y, j < k -> devs !! j = Some y -> PrimFloat.ltb x y = true.

(** Best-checkpoint tracking, in the specification's words, for the history
    [h] of a run whose initially captured weights are [w0]: either no dev
    average was ever below [1e10] and the weights are still [w0], or they
    are the state dictionary as it was at the dev phase of the last epoch
    that set a record. *)
Definition best_by_record (w0 : weights) (h : list epoch) (best : weights) : Prop :=
  let devs := List.map ep_dev h in
  ((forall y, In y devs -> PrimFloat.ltb y 1e10%float = false) /\ best = w0) \/
  (exists k ep,
     h !! k = Some ep /\ record devs k /\
     (forall k', k < k' -> ~ record devs k') /\
     best = state_dict (ep_torch ep)).

(** The phase an event belongs to: 1 loading the data, 2 loading the model,
    3 the epoch loop, 4 saving the outputs, 5 the evaluation asked for by
    [--eval]. *)
Definition phase_of (e : event) : nat :=
  match e with
  | Print line =>
      if String.prefix "A) " line then 1
      else if String.prefix "B) " line then 2
      else if String.prefix "C) " line then 3
      else 5
  | NewDataset _ _ split => if String.eqb split "test" then 5 else 1
  | NewModel _ _ _ _ | NewOptimizer _ _ _ => 2
  | Forward _ _ | OptimizerStep | SetDescription _ => 3
  | TorchSave _ _ | SaveFig _ _ _ | PickleDump _ _ => 4
  | Forward2 _ _ => 5
  end.

Definition writes (e : event) : Prop :=
  match e with
  | TorchSave _ _ | SaveFig _ _ _ | PickleDump _ _ => True
  | _ => False
  end.


End Script.

(** The attributes the parser declares, in the order of its
    [add_argument] calls, and what each holds in a namespace returned by
    [parse_args]: a flag holds a [bool], an option of type [int] or [float]
    a number of that type, an option of type [str] a string or, not
    given, [None]. *)
Definition attributes : list string :=
  ["plot"; "eval"; "epochs"; "lr"; "batch_size"; "input_size"; "hidden_size"; "momentum";
   "weight_decay"; "dropout"; "batch_norm"; "emb_file"; "label_file"; "output_path"].

Definition holds_bool (ns : Namespace) (k : string) : Prop :=
  exists b, ns !! k = Some (PBool b).

Definition holds_int (ns : Namespace) (k : string) : Prop :=
  exists z, ns !! k = Some (PInt z).

Definition holds_float (ns : Namespace) (k : string) : Prop :=
  exists f, ns !! k = Some (PFloat f).

Definition holds_path (ns : Namespace) (k : string) : Prop :=
  ns !! k = Some PNone \/ exists s, ns !! k = Some (PStr s).

Definition parsed (ns : Namespace) : Prop :=
  Forall (holds_bool ns) ["plot"; "eval"; "batch_norm"] /\
  Forall (holds_int ns) ["epochs"; "batch_size"; "input_size"; "hidden_size"] /\
  Forall (holds_float ns) ["lr"; "momentum"; "weight_decay"; "dropout"] /\
  Forall (holds_path ns) ["emb_file"; "label_file"; "output_path"].

End Finetune.


(** * A small concrete framework

    The interfaces above are met by the definitions below, on which both
    scripts run by computation: two vSTS instances and a model whose
    embeddings are short vectors; a classifier whose only weight counts the
    optimizer steps taken. *)
Module Sample.

Fixpoint digits (s : string) (acc : Z) : option Z :=
  match s with
  | EmptyString => Some acc
  | String c rest =>
      let n := nat_of_ascii c in
      if ((48 <=? n) && (n <=? 57))%nat
      then digits rest (10 * acc + Z.of_nat (n - 48))%Z
      else None
  end.

Definition decimal (s : string) : option Z :=
  match s with
  | EmptyString => None
  | String "-" EmptyString => None
  | String "-" rest => Z.opp <$> digits rest 0
  | _ => digits s 0
  end.

Definition builtins : Builtins := {|
  int_of_str := decimal;
  float_of_str := fun s => float_of_int <$> decimal s;
  repr_int := fun _ => "<int>";
  repr_float := fun _ => "<float>";
  format_float := fun spec _ => "<" +:+ spec +:+ ">"
|}.

#[warnings="-register-all"]
Inductive item : Type :=
| Img (n : Z)
| Sent (s : string)
| Score (f : float)
| Stacked (l : list item).

Definition img_row (o : item) : list float :=
  match o with
  | Stacked [Img n] => [float_of_int n]
  | _ => []
  end.

Definition vsts_rows : list (list item) := [
  [Img 1; Sent "a"; Img 2; Sent "b"; Score 3.5];
  [Img 3; Sent "c"; Img 4; Sent "d"; Score 1.5]
].

Definition embeddings (package : string) (img : item) : gmap string tensor :=
  <["img_emb" := [img_row img]]>
    (<["sent_emb" := [[7%float]]]>
       (<["comp_emb" := [[9%float]]]>
          (if String.eqb package "univse" then {["cap_emb" := [[8%float]]]} else ∅))).

Definition vsts : Precomp.Framework := {|
  Precomp.obj := item;
  Precomp.dataset := list (list item);
  Precomp.model := string;
  Precomp.obj_collate := {| stack := Stacked |};
  Precomp.VstsCaptions := fun root _ =>
    match root with
    | PStr _ => Ok vsts_rows
    | _ => Raise (TypeError "expected str, bytes or os.PathLike object, not NoneType")
    end;
  Precomp.instances := fun d => d;
  Precomp.simp_univse_from_filename := fun _ => Ok "simp_univse";
  Precomp.univse_from_filename := fun _ => Ok "univse";
  Precomp.load_model := fun m _ => Ok m;
  Precomp.add_graphs := fun m _ => Ok m;
  Precomp.to_device := fun m => m;
  Precomp.eval_mode := fun m => m;
  Precomp.py_list := fun o => Ok o;
  Precomp.forward := fun m img _ => Ok (embeddings m img);
  Precomp.numpy1 := fun o =>
    match o with
    | Stacked [Score f] => Ok [f]
    | _ => Raise (AttributeError "data")
    end;
  Precomp.path_exists := fun p => String.eqb p "out";
  Precomp.mkdir := fun _ => Ok tt;
  Precomp.np_save := fun _ _ => Ok tt
|}.

(** The classifier: its weight is the number of optimizer steps so far; the
    loss of a batch is the squared distance of (sum of the embeddings +
    weight) from 12. *)
Definition snli_rows (split : string) : list (list Z) :=
  if String.eqb split "train" then [[1; 0]; [2; 1]; [3; 0]]%Z
  else if String.eqb split "dev" then [[4; 1]; [5; 0]]%Z
  else [[6; 1]]%Z.

Definition snli : Finetune.Framework := {|
  Finetune.obj := Z;
  Finetune.dataset := list (list Z);
  Finetune.torch := Z;
  Finetune.weights := Z;
  Finetune.logits := Z;
  Finetune.loss_tensor := float;
  Finetune.obj_collate := {| stack := fun l => fold_right Z.add 0%Z l |};
  Finetune.SnliVECaptionsPrecomp := fun _ _ split => Ok (snli_rows split);
  Finetune.instances := fun d => d;
  Finetune.label := fun d => List.map (fun r => nth 1 r 0%Z) d;
  Finetune.SnliClassifier := fun _ _ _ _ _ => Ok 0%Z;
  Finetune.SGD := fun _ _ _ w => Ok w;
  Finetune.new_iterator := fun w => w;
  Finetune.shuffled := fun rows w => (rev rows, w);
  Finetune.set_train := fun w => w;
  Finetune.set_eval := fun w => w;
  Finetune.forward := fun emb w => Ok ((emb + w)%Z, w);
  Finetune.forward2 := fun e1 e2 w => Ok ((e1 + e2 + w)%Z, w);
  Finetune.view_label := fun l => Ok l;
  Finetune.criterion := fun lg _ => Ok (float_of_int ((lg - 12) * (lg - 12)));
  Finetune.zero_grad := fun w => w;
  Finetune.backward := fun _ w => Ok w;
  Finetune.step := fun w => Ok (w + 1)%Z;
  Finetune.loss_value := fun l => Ok l;
  Finetune.state_dict := fun w => w;
  Finetune.load_state_dict := fun d _ => Ok d;
  Finetune.predicted_labels := fun lg => Ok [(lg mod 2)%Z];
  Finetune.torch_save := fun _ _ => Ok tt;
  Finetune.savefig := fun _ _ _ _ => Ok tt;
  Finetune.pickle_dump := fun _ _ => Ok tt
|}.

Definition vsts_argv : list string :=
  ["--model"; "simp_univse"; "--modality"; "comp"; "--data-path"; "vsts"; "--output-path"; "o"].

Definition vsts_args : Namespace := unwrap ∅ (Precomp.parse_args (H:=builtins) vsts_argv).

(** The namespace of [--epochs 3 --batch-size 2 --output-path out --plot]. *)
Definition snli_argv : list string :=
  ["--epochs"; "3"; "--batch-size"; "2"; "--output-path"; "out"; "--plot"].

Definition snli_args : Namespace := unwrap ∅ (Finetune.parse_args (H:=builtins) snli_argv).

(** The run of the precomputation on [vsts_argv]. *)
Definition vsts_run := Precomp.main_body (H:=builtins) (H0:=vsts) vsts_args.

(** Its part up to the end of the loop, and the arrays collected there. *)
Definition vsts_embedding := Precomp.embed_phase (H:=builtins) (H0:=vsts) vsts_args.

Definition vsts_collected : Precomp.collected :=
  match vsts_embedding.1.1 with
  | Ok (Some acc) => acc
  | _ => Precomp.Collected [] [] []
  end.

(** The training of [snli_argv] on the sample datasets, from a fresh
    classifier: three epochs with dev averages 1, 1 and 9, then the saving. *)
Definition snli_st : Finetune.progress (H0:=snli) :=
  Finetune.Progress (H0:=snli) [74.5; 44.5; 22.5]%float [1; 1; 9]%float 2%Z 1%float.

Definition snli_dev_gen : Finetune.loader (H0:=snli) :=
  Finetune.Loader (H0:=snli) (snli_rows "dev") 2 false 6.

Definition snli_training :=
  Finetune.train (H:=builtins) (H0:=snli) snli_args (snli_rows "train") (snli_rows "dev") 0%Z.

Definition snli_saving :=
  Finetune.save_outputs (H:=builtins) (H0:=snli) snli_args snli_st 6%Z.

(** The same classifier with a loss that is not a number when the logits
    are 11, which is what the first dev phase yields: the dev averages of
    three epochs are NaN, 1 and 9. *)
Definition snli_nan : Finetune.Framework := {|
  Finetune.obj := Z;
  Finetune.dataset := list (list Z);
  Finetune.torch := Z;
  Finetune.weights := Z;
  Finetune.logits := Z;
  Finetune.loss_tensor := float;
  Finetune.obj_collate := {| stack := fun l => fold_right Z.add 0%Z l |};
  Finetune.SnliVECaptionsPrecomp := fun _ _ split => Ok (snli_rows split);
  Finetune.instances := fun d => d;
  Finetune.label := fun d => List.map (fun r => nth 1 r 0%Z) d;
  Finetune.SnliClassifier := fun _ _ _ _ _ => Ok 0%Z;
  Finetune.SGD := fun _ _ _ w => Ok w;
  Finetune.new_iterator := fun w => w;
  Finetune.shuffled := fun rows w => (rev rows, w);
  Finetune.set_train := fun w => w;
  Finetune.set_eval := fun w => w;
  Finetune.forward := fun emb w => Ok ((emb + w)%Z, w);
  Finetune.forward2 := fun e1 e2 w => Ok ((e1 + e2 + w)%Z, w);
  Finetune.view_label := fun l => Ok l;
  Finetune.criterion := fun lg _ =>
    Ok (if (lg =? 11)%Z then nan else float_of_int ((lg - 12) * (lg - 12)));
  Finetune.zero_grad := fun w => w;
  Finetune.backward := fun _ w => Ok w;
  Finetune.step := fun w => Ok (w + 1)%Z;
  Finetune.loss_value := fun l => Ok l;
  Finetune.state_dict := fun w => w;
  Finetune.load_state_dict := fun d _ => Ok d;
  Finetune.predicted_labels := fun lg => Ok [(lg mod 2)%Z];
  Finetune.torch_save := fun _ _ => Ok tt;
  Finetune.savefig := fun _ _ _ _ => Ok tt;
  Finetune.pickle_dump := fun _ _ => Ok tt
|}.

Definition nan_st : Finetune.progress (H0:=snli_nan) :=
  Finetune.Progress (H0:=snli_nan) [74.5; 44.5; 22.5]%float [nan; 1; 9]%float 4%Z 1%float.

Definition nan_dev_gen : Finetune.loader (H0:=snli_nan) :=
  Finetune.Loader (H0:=snli_nan) (snli_rows "dev") 2 false 6.

Definition nan_training :=
  Finetune.train (H:=builtins) (H0:=snli_nan) snli_args (snli_rows "train")
    (snli_rows "dev") 0%Z.

Definition nan_saving :=
  Finetune.save_outputs (H:=builtins) (H0:=snli_nan) snli_args nan_st 6%Z.

(** Command lines and loaders for the edge cases: a model without caption
    embeddings asked for them; no output path; no epoch; a batch size of
    zero; a dev set without instances. *)
Definition cap_argv : list string :=
  ["--model"; "simp_univse"; "--modality"; "cap+img"; "--data-path"; "vsts"].

Definition cap_args : Namespace := unwrap ∅ (Precomp.parse_args (H:=builtins) cap_argv).

Definition cap_adjusted :=
  bind (Precomp.adjust_cap (H:=builtins) (H0:=vsts))
    (fun _ => Precomp.adjust_comp (H:=builtins) (H0:=vsts)) cap_args.

Definition nopath_argv : list string := ["--data-path"; "vsts"].

Definition nopath_args : Namespace :=
  unwrap ∅ (Precomp.parse_args (H:=builtins) nopath_argv).

Definition nopath_embedding :=
  Precomp.embed_phase (H:=builtins) (H0:=vsts) nopath_args.

Definition nopath_collected : Precomp.collected :=
  match nopath_embedding.1.1 with
  | Ok (Some acc) => acc
  | _ => Precomp.Collected [] [] []
  end.

Definition idle_argv : list string := ["--epochs"; "0"; "--batch-size"; "2"].

Definition idle_args : Namespace := unwrap ∅ (Finetune.parse_args (H:=builtins) idle_argv).

Definition zero_batch_argv : list string := ["--batch-size"; "0"].

Definition zero_batch_args : Namespace :=
  unwrap ∅ (Finetune.parse_args (H:=builtins) zero_batch_argv).

Definition snli_train_gen : Finetune.loader (H0:=snli) :=
  Finetune.Loader (H0:=snli) (snli_rows "train") 2 true 6.

Definition empty_dev_gen : Finetune.loader (H0:=snli) :=
  Finetune.Loader (H0:=snli) [] 2 false 6.




(** The train phase of a first epoch, and the dev phase after it. *)
Definition snli_train_phase :=
  Finetune.phase_loss (H0:=snli) snli_train_gen snli_dev_gen "train" 0%Z.

Definition snli_dev_phase :=
  Finetune.phase_loss (H0:=snli) snli_train_gen snli_dev_gen "dev" snli_train_phase.1.2.

End Sample.
(** * Reasoning about runs *)
Section RunFacts.
Context {E S : Type}.
Implicit Types (s : S) (t : list E).

Lemma bind_run {A B} (m : M E S A) (k : A -> M E S B) s a s1 t1 :
  m s = (Ok a, s1, t1) ->
  bind m k s = (let '(r, s2, t2) := k a s1 in (r, s2, t1 ++ t2)).
Proof. intros Hm. unfold bind. rewrite Hm. reflexivity. Qed.

Lemma bind_raise {A B} (m : M E S A) (k : A -> M E S B) s e s1 t1 :
  m s = (Raise e, s1, t1) -> bind m k s = (Raise e, s1, t1).
Proof. intros Hm. unfold bind. rewrite Hm. reflexivity. Qed.

Lemma bind_Ok_inv {A B} (m : M E S A) (k : A -> M E S B) s b s2 t :
  bind m k s = (Ok b, s2, t) ->
  exists a s1 t1 t2, m s = (Ok a, s1, t1) /\ k a s1 = (Ok b, s2, t2) /\ t = t1 ++ t2.
Proof.
  unfold bind. destruct (m s) as [[[a|e] s1] t1]; [|discriminate].
  destruct (k a s1) as [[r s3] t2] eqn:Hk. intros [= -> -> <-].
  exists a, s1, t1, t2. auto.
Qed.

Lemma bind_inv {A B} (m : M E S A) (k : A -> M E S B) s r s2 t :
  bind m k s = (r, s2, t) ->
  (exists e, m s = (Raise e, s2, t) /\ r = Raise e) \/
  (exists a s1 t1 t2, m s = (Ok a, s1, t1) /\ k a s1 = (r, s2, t2) /\ t = t1 ++ t2).
Proof.
  unfold bind. destruct (m s) as [[[a|e] s1] t1].
  - destruct (k a s1) as [[r' s3] t2] eqn:Hk. intros [= <- <- <-].
    right. exists a, s1, t1, t2. auto.
  - intros [= <- <- <-]. left. exists e. auto.
Qed.

Lemma lift_Ok_inv {A} (r : result A) s a s' t :
  lift (E:=E) r s = (Ok a, s', t) -> r = Ok a /\ s' = s /\ t = [].
Proof. destruct r; cbn; intros [= <- <- <-]; auto. Qed.

Lemma lift_Ok {A} (r : result A) (a : A) s :
  r = Ok a -> lift (E:=E) r s = (Ok a, s, []).
Proof. intros ->. reflexivity. Qed.

Lemma call_Ok_inv {A} (ev : E) (r : result A) s a s' t :
  call ev r s = (Ok a, s', t) -> r = Ok a /\ s' = s /\ t = [ev].
Proof. destruct r; cbn; intros [= <- <- <-]; auto. Qed.

Lemma call_Ok {A} (ev : E) (r : result A) (a : A) s :
  r = Ok a -> call ev r s = (Ok a, s, [ev]).
Proof. intros ->. reflexivity. Qed.

Lemma for_each_app {X A} (xs ys : list X) (acc : A) (body : X -> A -> M E S A) s :
  for_each (xs ++ ys) acc body s
  = bind (for_each xs acc body) (fun acc' => for_each ys acc' body) s.
Proof.
  revert acc s. induction xs as [|x xs IH]; intros acc s; cbn [for_each app].
  - unfold bind, ret. destruct (for_each ys acc body s) as [[r s'] t]. reflexivity.
  - unfold bind. destruct (body x acc s) as [[[a|e] s1] t1]; [|reflexivity].
    specialize (IH a s1). unfold bind in IH. rewrite IH.
    destruct (for_each xs a body s1) as [[[a'|e'] s2] t2]; [|reflexivity].
    destruct (for_each ys a' body s2) as [[r s3] t3]. now rewrite app_assoc.
Qed.

Lemma emits_ret {A} (P : E -> Prop) (a : A) : emits (S:=S) P (ret a).
Proof. intros s r s' t [= <- <- <-]. constructor. Qed.

Lemma emits_raise {A} (P : E -> Prop) e : emits (S:=S) P (raise (A:=A) e).
Proof. intros s r s' t [= <- <- <-]. constructor. Qed.

Lemma emits_get (P : E -> Prop) : emits (S:=S) P get.
Proof. intros s r s' t [= <- <- <-]. constructor. Qed.

Lemma emits_put (P : E -> Prop) s0 : emits P (put s0).
Proof. intros s r s' t [= <- <- <-]. constructor. Qed.

Lemma emits_lift {A} (P : E -> Prop) (r0 : result A) : emits (S:=S) P (lift r0).
Proof. destruct r0; [apply emits_ret | apply emits_raise]. Qed.

Lemma emits_emit (P : E -> Prop) (ev : E) : P ev -> emits (S:=S) P (emit ev).
Proof. intros HP s r s' t [= <- <- <-]. auto. Qed.

Lemma emits_bind {A B} P (m : M E S A) (k : A -> M E S B) :
  emits P m -> (forall a, emits P (k a)) -> emits P (bind m k).
Proof.
  intros Hm Hk s r s' t Hrun. apply bind_inv in Hrun as [(e & Hrun & _)|(a & s1 & t1 & t2 & H1 & H2 & ->)].
  - eapply Hm, Hrun.
  - apply Forall_app. split; [eapply Hm, H1 | eapply Hk, H2].
Qed.

Lemma emits_call {A} (P : E -> Prop) (ev : E) (r0 : result A) :
  P ev -> emits (S:=S) P (call ev r0).
Proof. intros HP. apply emits_bind; [now apply emits_emit | intros _; apply emits_lift]. Qed.

Lemma emits_for_each {X A} P (xs : list X) (acc : A) (body : X -> A -> M E S A) :
  (forall x a, emits P (body x a)) -> emits P (for_each xs acc body).
Proof.
  intros Hb. revert acc. induction xs as [|x xs IH]; intros acc; cbn.
  - apply emits_ret.
  - apply emits_bind; auto.
Qed.

Lemma emits_if {A} P (b : bool) (m1 m2 : M E S A) :
  emits P m1 -> emits P m2 -> emits P (if b then m1 else m2).
Proof. destruct b; auto. Qed.







End RunFacts.

Lemma unwrap_ok {A} (d : A) (r : result A) : is_ok r = true -> r = Ok (unwrap d r).
Proof. destruct r; [reflexivity | discriminate]. Qed.

Section RunLaws.
Context {E S : Type}.

(** A run that returns [a], written with its final state and its trace. *)
Lemma run_returns {A} (m : M E S A) s a :
  (m s).1.1 = Ok a -> m s = (Ok a, (m s).1.2, (m s).2).
Proof. destruct (m s) as [[r s1] t]. cbn. now intros ->. Qed.

Lemma run_eta {A} (m : M E S A) s : m s = ((m s).1.1, (m s).1.2, (m s).2).
Proof. now destruct (m s) as [[r s1] t]. Qed.

Lemma bind_assoc {A B C} (m : M E S A) (f : A -> M E S B) (g : B -> M E S C) s :
  bind (bind m f) g s = bind m (fun a => bind (f a) g) s.
Proof.
  unfold bind. destruct (m s) as [[[a|e] s1] t1]; [|reflexivity].
  destruct (f a s1) as [[[b|e] s2] t2]; [|reflexivity].
  destruct (g b s2) as [[r s3] t3]. now rewrite app_assoc.
Qed.

Lemma bind_ret_l {A B} (a : A) (f : A -> M E S B) s : bind (ret a) f s = f a s.
Proof. unfold bind, ret. destruct (f a s) as [[r s1] t1]. reflexivity. Qed.

Lemma bind_ext {A B} (m : M E S A) (f g : A -> M E S B) s :
  (forall a s1, f a s1 = g a s1) -> bind m f s = bind m g s.
Proof.
  intros Hfg. unfold bind. destruct (m s) as [[[a|e] s1] t1]; [|reflexivity].
  now rewrite Hfg.
Qed.

Lemma bind_cong_l {A B} (m m' : M E S A) (k : A -> M E S B) s :
  (forall s0, m s0 = m' s0) -> bind m k s = bind m' k s.
Proof. intros Hm. unfold bind. now rewrite Hm. Qed.

End RunLaws.

(** Prove [emits P m] by following the structure of [m]; [tac] proves [P]
    of each emitted event. *)
Ltac emits_with tac :=
  repeat first
    [ apply emits_ret | apply emits_raise | apply emits_get | apply emits_put
    | apply emits_lift
    | apply emits_emit; tac
    | apply emits_call; tac
    | apply emits_for_each; intros ? ?
    | apply emits_bind; [|intros ?]
    | apply emits_if
    | match goal with
      | |- emits _ (match ?x with _ => _ end) => destruct x
      end ].

Create HintDb emits discriminated.
#[export] Hint Resolve emits_ret emits_raise emits_get emits_put emits_lift emits_bind
  emits_call emits_emit emits_for_each emits_if : emits.

(** * argparse *)
Section ArgparseFacts.
Context `{Builtins}.

Lemma find_option_In decls name a : find_option decls name = Some a -> In a decls.
Proof.
  unfold find_option.
  destruct (List.filter (fun a => String.eqb (flag a) name) decls) as [|a0 l0] eqn:Hexact.
  - destruct (List.filter (fun a => String.prefix name (flag a)) decls)
      as [|a1 [|a2 l1]] eqn:Hpre; try discriminate.
    destruct (String.prefix "--" name && negb (String.prefix name "--help"));
      [|discriminate]. intros [= <-].
    assert (Hin : In a1 (List.filter (fun a => String.prefix name (flag a)) decls))
      by (rewrite Hpre; now left).
    apply filter_In in Hin. tauto.
  - intros [= <-].
    assert (Hin : In a0 (List.filter (fun a => String.eqb (flag a) name) decls))
      by (rewrite Hexact; now left).
    apply filter_In in Hin. tauto.
Qed.

Lemma store_Ok_inv a ty ch v ns ns' :
  store a ty ch v ns = Ok ns' ->
  exists pv, convert ty v = Some pv /\ allowed ch v = true /\ ns' = <[dest a := pv]> ns.
Proof.
  unfold store. destruct (convert ty v) as [pv|]; [|discriminate].
  destruct (allowed ch v); [|discriminate]. intros [= <-]. eauto.
Qed.

(** A property of namespaces that every store of a declared argument keeps
    holds of whatever [parse_tokens] returns. *)
Lemma parse_tokens_inv decls (P : Namespace -> Prop) :
  (forall a ns, In a decls -> act a = StoreTrue -> P ns -> P (<[dest a := PBool true]> ns)) ->
  (forall a ty ch v pv ns, In a decls -> act a = Store ty ch ->
     convert ty v = Some pv -> allowed ch v = true -> P ns -> P (<[dest a := pv]> ns)) ->
  forall argv ns ns', P ns -> parse_tokens decls argv ns = Ok ns' -> P ns'.
Proof.
  intros Hflag Hstore argv.
  remember (length argv) as n eqn:Hn. revert argv Hn.
  induction n as [n IH] using lt_wf_ind. intros argv Hn ns ns' HP.
  destruct argv as [|tok rest]; cbn [parse_tokens].
  - intros [= <-]. exact HP.
  - destruct (asks_help decls tok); [discriminate|].
    destruct (split_eq tok) as [name inline].
    destruct (find_option decls name) as [a|] eqn:Hfind; [|discriminate].
    apply find_option_In in Hfind.
    destruct (act a) as [|ty ch] eqn:Hact; destruct inline as [v|]; try discriminate.
    + apply (IH (length rest)); [subst n; cbn; lia | reflexivity | eauto].
    + destruct (store a ty ch v ns) as [ns1|] eqn:Hst; [|discriminate].
      apply store_Ok_inv in Hst as (pv & Hc & Ha & ->).
      apply (IH (length rest)); [subst n; cbn; lia | reflexivity | eauto].
    + destruct rest as [|v rest']; [discriminate|].
      destruct (String.prefix "--" v); [discriminate|].
      destruct (store a ty ch v ns) as [ns1|] eqn:Hst; [|discriminate].
      apply store_Ok_inv in Hst as (pv & Hc & Ha & ->).
      apply (IH (length rest')); [subst n; cbn; lia | reflexivity | eauto].
Qed.

Lemma allowed_In cs v : allowed (Some cs) v = true -> In v cs.
Proof.
  cbn. rewrite existsb_exists. intros (x & Hin & Heq).
  apply String.eqb_eq in Heq. now subst.
Qed.

End ArgparseFacts.

(** * argparse: command lines that extend one another, and the attributes
    of a returned namespace *)
Section ArgparseMore.
Context `{Builtins}.

(** The tokens are taken from left to right: after an accepted command
    line, what follows is parsed from the namespace reached so far. *)
Lemma parse_tokens_app decls pre rest :
  forall ns ns1,
    parse_tokens decls pre ns = Ok ns1 ->
    parse_tokens decls (pre ++ rest) ns = parse_tokens decls rest ns1.
Proof.
  remember (length pre) as n eqn:Hn. revert pre Hn.
  induction n as [n IH] using lt_wf_ind. intros pre Hn ns ns1.
  destruct pre as [|tok pre]; cbn [parse_tokens app].
  - now intros [= <-].
  - destruct (asks_help decls tok); [discriminate|].
    destruct (split_eq tok) as [name inline].
    destruct (find_option decls name) as [a|]; [|discriminate].
    destruct (act a) as [|ty ch]; destruct inline as [v|]; try discriminate.
    + apply (IH (length pre)); [subst n; cbn; lia | reflexivity].
    + destruct (store a ty ch v ns) as [ns2|]; [|discriminate].
      apply (IH (length pre)); [subst n; cbn; lia | reflexivity].
    + destruct pre as [|v pre']; [discriminate|]. cbn [app].
      destruct (String.prefix "--" v); [discriminate|].
      destruct (store a ty ch v ns) as [ns2|]; [|discriminate].
      apply (IH (length pre')); [subst n; cbn; lia | reflexivity].
Qed.

Lemma defaults_keys decls :
  forall (ns0 : Namespace) k,
    is_Some (fold_left (fun ns a => <[dest a := default a]> ns) decls ns0 !! k) ->
    is_Some (ns0 !! k) \/ In k (List.map dest decls).
Proof.
  induction decls as [|a decls IH]; intros ns0 k; cbn [fold_left List.map]; [auto|].
  intros Hk. apply IH in Hk as [Hk|Hk]; [|right; now right].
  apply lookup_insert_is_Some in Hk as [<-|[_ Hk]]; [right; now left | now left].
Qed.

(** A returned namespace has no attribute besides the declared
    destinations. *)
Lemma argparse_keys decls argv ns k :
  argparse decls argv = Ok ns -> is_Some (ns !! k) -> In k (List.map dest decls).
Proof.
  unfold argparse. intros Hp. revert k.
  refine (parse_tokens_inv decls (fun ns => forall k, is_Some (ns !! k) -> In k (List.map dest decls))
            _ _ argv (defaults decls) ns _ Hp).
  - intros a ns0 Hin _ IH k Hk.
    apply lookup_insert_is_Some in Hk as [<-|[_ Hk]]; [now apply in_map | auto].
  - intros a ty ch v pv ns0 Hin _ _ _ IH k Hk.
    apply lookup_insert_is_Some in Hk as [<-|[_ Hk]]; [now apply in_map | auto].
  - intros k Hk. apply defaults_keys in Hk as [Hk|Hk]; [|assumption].
    rewrite lookup_empty in Hk. now destruct Hk.
Qed.

Lemma allowed_not_In cs v : ~ In v cs -> allowed (Some cs) v = false.
Proof.
  intros Hn. cbn. apply not_true_is_false. intros Hex. apply Hn.
  apply existsb_exists in Hex as (x & Hin & Heq). apply String.eqb_eq in Heq. now subst.
Qed.

End ArgparseMore.

(** * Runs: weakening what is known of the events *)
Section RunMore.
Context {E S : Type}.

Lemma emits_impl {A} (P Q : E -> Prop) (m : M E S A) :
  (forall e, P e -> Q e) -> emits P m -> emits Q m.
Proof.
  intros HPQ Hm s r s' t Hr. eapply Forall_impl; [exact (Hm s r s' t Hr) | exact HPQ].
Qed.

(** A run that returns, written with its value, its final state and its
    trace. *)
Lemma run_ok {A} (d : A) (m : M E S A) s :
  is_ok (m s).1.1 = true -> m s = (Ok (unwrap d (m s).1.1), (m s).1.2, (m s).2).
Proof. destruct (m s) as [[[a|e] s1] t]; [reflexivity | discriminate]. Qed.

Lemma emit_run (ev : E) (s : S) : emit ev s = (Ok tt, s, [ev]).
Proof. reflexivity. Qed.



Lemma keeps_ret {A} (a : A) : keeps (E:=E) (S:=S) (ret a).
Proof. intros s r s' t [= <- <- <-]. reflexivity. Qed.

Lemma keeps_raise {A} e : keeps (E:=E) (S:=S) (raise (A:=A) e).
Proof. intros s r s' t [= <- <- <-]. reflexivity. Qed.

Lemma keeps_get : keeps (E:=E) (S:=S) get.
Proof. intros s r s' t [= <- <- <-]. reflexivity. Qed.

Lemma keeps_emit (ev : E) : keeps (S:=S) (emit ev).
Proof. intros s r s' t [= <- <- <-]. reflexivity. Qed.

Lemma keeps_lift {A} (r0 : result A) : keeps (E:=E) (S:=S) (lift r0).
Proof. intros s r s' t. destruct r0; intros [= <- <- <-]; reflexivity. Qed.

Lemma keeps_bind {A B} (m : M E S A) (k : A -> M E S B) :
  keeps m -> (forall a, keeps (k a)) -> keeps (bind m k).
Proof.
  intros Hm Hk s r s' t Hr.
  apply bind_inv in Hr as [(e & Hr & _)|(a & s1 & t1 & t2 & H1 & H2 & _)].
  - exact (Hm _ _ _ _ Hr).
  - apply Hm in H1 as ->. exact (Hk _ _ _ _ _ H2).
Qed.

Lemma keeps_call {A} (ev : E) (r0 : result A) : keeps (S:=S) (call ev r0).
Proof. apply keeps_bind; [apply keeps_emit | intros _; apply keeps_lift]. Qed.

Lemma keeps_for_each {X A} (xs : list X) (acc : A) (body : X -> A -> M E S A) :
  (forall x a, keeps (body x a)) -> keeps (for_each xs acc body).
Proof.
  intros Hbody. revert acc. induction xs as [|x xs IH]; intros acc; cbn [for_each].
  - apply keeps_ret.
  - apply keeps_bind; [apply Hbody | intros a; apply IH].
Qed.

Lemma keeps_if {A} (b : bool) (m1 m2 : M E S A) :
  keeps m1 -> keeps m2 -> keeps (if b then m1 else m2).
Proof. now destruct b. Qed.

End RunMore.

(** Prove [keeps m] by following the structure of [m]. *)
Ltac keeps_state :=
  repeat first
    [ apply keeps_ret | apply keeps_raise | apply keeps_get | apply keeps_emit
    | apply keeps_lift | apply keeps_call
    | apply keeps_for_each; intros ? ?
    | apply keeps_bind; [|intros ?]
    | apply keeps_if
    | match goal with
      | |- keeps (match ?x with _ => _ end) => destruct x
      end ].

Lemma append_inj_l (a b c : string) : a +:+ b = a +:+ c -> b = c.
Proof.
  induction a as [|x a IH]; [exact (fun Heq => Heq)|].
  change (String x (a +:+ b) = String x (a +:+ c) -> b = c). intros [= Heq]. auto.
Qed.

(** * Floats: the order [<] on numbers that are not NaN *)
Ltac compare_cases :=
  repeat match goal with
    | |- context [Pos.compare_cont Eq ?a ?b] =>
        change (Pos.compare_cont Eq a b) with (Pos.compare a b)
    end;
  repeat match goal with
    | |- context [Z.compare ?a ?b] => destruct (Z.compare_spec a b)
    | |- context [Pos.compare ?a ?b] => destruct (Pos.compare_spec a b)
    end.

Lemma SFltb_cotrans x y z :
  SFltb x y = true -> z <> S754_nan -> SFltb x z = true \/ SFltb z y = true.
Proof.
  unfold SFltb, SFcompare.
  destruct x as [sx|sx| |sx mx ex], y as [sy|sy| |sy my ey], z as [sz|sz| |sz mz ez];
    try congruence;
    repeat match goal with s : bool |- _ => destruct s end;
    try (intros; (discriminate || tauto || (left; reflexivity) || (right; reflexivity)));
    compare_cases; cbn; intros; subst; try discriminate; try lia; auto.
Qed.

Lemma SFltb_asym x y : SFltb x y = true -> SFltb y x = false.
Proof.
  unfold SFltb, SFcompare.
  destruct x as [sx|sx| |sx mx ex], y as [sy|sy| |sy my ey];
    repeat match goal with s : bool |- _ => destruct s end;
    try (intros; (discriminate || reflexivity));
    compare_cases; cbn; intros; subst; try discriminate; try lia; auto.
Qed.

Lemma is_nan_false x : is_nan x = false -> Prim2SF x <> S754_nan.
Proof.
  unfold is_nan. rewrite FloatAxioms.eqb_spec. intros Hn Hx. rewrite Hx in Hn. discriminate.
Qed.

(** If [x < y] then any number [z] is above [x] or below [y]. *)
Lemma ltb_cotrans (x y z : float) :
  PrimFloat.ltb x y = true -> is_nan z = false ->
  PrimFloat.ltb x z = true \/ PrimFloat.ltb z y = true.
Proof.
  rewrite !FloatAxioms.ltb_spec. intros Hlt Hz.
  apply SFltb_cotrans; [assumption | now apply is_nan_false].
Qed.

Lemma ltb_asym (x y : float) : PrimFloat.ltb x y = true -> PrimFloat.ltb y x = false.
Proof. rewrite !FloatAxioms.ltb_spec. apply SFltb_asym. Qed.

Lemma ltb_irrefl (x : float) : PrimFloat.ltb x x = false.
Proof.
  destruct (PrimFloat.ltb x x) eqn:Hx; [|reflexivity].
  pose proof (ltb_asym _ _ Hx). congruence.
Qed.

(** * Strings *)
Lemma append_assoc (a b c : string) : (a +:+ b) +:+ c = a +:+ (b +:+ c).
Proof.
  induction a as [|x a IH]; [reflexivity|].
  change (String x ((a +:+ b) +:+ c) = String x (a +:+ (b +:+ c))). now rewrite IH.
Qed.

Lemma py_add_Ok_inv a b c :
  py_add a b = Ok c -> exists x y, a = PStr x /\ b = PStr y /\ c = PStr (x +:+ y).
Proof. destruct a, b; cbn; try discriminate. intros [= <-]. eauto. Qed.

(** * Lists *)
Lemma map_fmap {A B} (f : A -> B) (l : list A) : List.map f l = f <$> l.
Proof. induction l as [|x l IH]; [reflexivity|]. cbn. now rewrite IH. Qed.

(** * Data loaders *)
Section LoaderFacts.
Context `{Collate obj}.

Lemma chunks_one {A} (rows : list A) : chunks 1 rows = List.map (fun r => [r]) rows.
Proof.
  unfold chunks. induction rows as [|r rows IH]; [reflexivity|].
  cbn. now rewrite IH.
Qed.

Lemma map_lookup_seq {A B} (g : option A -> B) (r : list A) :
  List.map (fun j => g (r !! j)) (seq 0 (length r)) = List.map (fun x => g (Some x)) r.
Proof.
  induction r as [|x r IH]; [reflexivity|].
  cbn [length seq List.map]. f_equal.
  rewrite <- seq_shift, List.map_map, <- IH. apply List.map_ext. intros j. reflexivity.
Qed.

(** A batch of one instance: every field stacked on its own. *)
Lemma collate_one (r : list obj) : collate [r] = List.map (fun x => stack [x]) r.
Proof.
  unfold collate.
  rewrite (map_lookup_seq (fun o => stack (match o with Some x => [x] | None => [] end)) r).
  reflexivity.
Qed.

Lemma sequential_batches_one (rows : list (list obj)) :
  sequential_batches 1 rows = List.map (fun r => List.map (fun x => stack [x]) r) rows.
Proof.
  unfold sequential_batches. rewrite chunks_one, List.map_map.
  apply List.map_ext. intros r. apply collate_one.
Qed.

End LoaderFacts.

(** * precomp_vsts_emb: the namespace *)
Module PrecompFacts.
Import Precomp.

Section Facts.
Context `{Builtins} `{Framework}.

Lemma attr_Ok (ns : Namespace) k v : ns !! k = Some v -> attr k ns = (Ok v, ns, []).
Proof. intros Hk. unfold attr, bind, get, lift, getattr. rewrite Hk. reflexivity. Qed.

Lemma str_or_none_insert ns k d pv :
  str_or_none ns k -> k <> d -> str_or_none (<[d := pv]> ns) k.
Proof.
  intros [Hn|[s Hs]] Hne; [left|right; exists s]; rewrite lookup_insert_ne; auto.
Qed.

Lemma str_or_none_store ns k s : str_or_none (<[k := PStr s]> ns) k.
Proof. right. exists s. apply lookup_insert_eq. Qed.

Lemma parse_args_parsed argv args : parse_args argv = Ok args -> parsed args.
Proof.
  unfold parse_args, argparse. apply parse_tokens_inv.
  - intros a ns Hin Hact _. cbn in Hin.
    repeat (destruct Hin as [<-|Hin]; [discriminate Hact|]). destruct Hin.
  - intros a ty ch v pv ns Hin Hact Hconv Hall [Hm Hmd H1 H2 H3 H4 H5]. cbn in Hin.
    repeat (destruct Hin as [<-|Hin];
      [ injection Hact as <- <-; injection Hconv as <-;
        change (dest _) with "model" || change (dest _) with "modality"
        || change (dest _) with "data_path" || change (dest _) with "model_path"
        || change (dest _) with "graph_path" || change (dest _) with "output_path"
        || change (dest _) with "vocab_path";
        destruct Hm as (m & Hm & Hmin); destruct Hmd as (md & Hmd & Hmdin);
        split;
        first
          [ apply str_or_none_store
          | apply str_or_none_insert; [assumption | discriminate]
          | eexists; split; [apply lookup_insert_eq | now apply allowed_In]
          | eexists; split; [rewrite lookup_insert_ne by discriminate; eassumption | assumption] ]
      |]).
    destruct Hin.
  - split; try (eexists; split; [reflexivity | cbn; tauto]); left; reflexivity.
Qed.

Lemma py_ne_str_true m lit : m <> lit -> py_ne_str (PStr m) lit = true.
Proof.
  intros Hne. unfold py_ne_str, py_eq_str.
  destruct (String.eqb_spec m lit); [contradiction | reflexivity].
Qed.

Lemma py_eq_str_true v lit : py_eq_str v lit = true -> v = PStr lit.
Proof.
  destruct v; cbn; try discriminate. intros Heq. apply String.eqb_eq in Heq. now subst.
Qed.

(** Unfold the script's blocks down to matches on namespace lookups. *)
Ltac unfold_run :=
  unfold main_body, embed_phase, load_data, adjust_cap, adjust_comp, guard, load_the_model, attr,
    setattr, call, bind, get, put, lift, getattr, ret, raise, emit.

(** Resolve the namespace lookups in the goal from the hypotheses. *)
Ltac lookups :=
  repeat first
    [ rewrite lookup_insert_eq
    | rewrite lookup_insert_ne by discriminate
    | match goal with
      | Hk : ?ns !! ?k = Some _ |- context [?ns !! ?k] => rewrite Hk
      end
    | progress cbn ].

(** C9. With a model other than "univse" and a modality in which "comp"
    occurs, lines 75-89 leave [args.modality] at "comp+img", whether it was
    "comp" or "comp+img", and print the one warning, which speaks of a
    change from 'comp' to 'sent'.  With such a model, whatever the modality,
    [args.modality] is never "comp" after these lines, so the fourth branch
    of the selection chain is not taken. *)
Theorem comp_modality_becomes_comp_img argv args m :
  parse_args argv = Ok args ->
  args !! "model" = Some (PStr m) ->
  m <> "univse" ->
  (forall md, args !! "modality" = Some (PStr md) -> str_in "comp" md = true ->
     (md = "comp" \/ md = "comp+img") /\
     bind adjust_cap (fun _ => adjust_comp) args
     = (Ok tt, <["modality" := PStr "comp+img"]> args,
        [Print ("WARNING: modality of embedding changed from 'comp' to 'sent', as "
                +:+ m +:+ " has only sentence embeddings as output.")])) /\
  (forall r args' t, bind adjust_cap (fun _ => adjust_comp) args = (r, args', t) ->
     r = Ok tt /\
     exists md', args' !! "modality" = Some (PStr md') /\ py_eq_str (PStr md') "comp" = false).
Proof.
  intros Hparse Hm Hne. apply parse_args_parsed in Hparse as [_ (md0 & Hmd0 & Hin) _ _ _ _ _].
  pose proof (py_ne_str_true m "univse" Hne) as Hneb.
  split.
  - intros md Hmd Hcomp. rewrite Hmd0 in Hmd. injection Hmd as <-.
    cbn in Hin.
    repeat (destruct Hin as [<-|Hin]; [try discriminate Hcomp|]); try destruct Hin.
    + split; [now left|]. unfold_run. lookups. rewrite Hneb. lookups. reflexivity.
    + split; [now right|]. unfold_run. lookups. rewrite Hneb. lookups. reflexivity.
  - intros r args' t. cbn in Hin.
    repeat (destruct Hin as [<-|Hin]); try destruct Hin;
      unfold_run; lookups; rewrite ?Hneb; lookups;
      intros [= <- <- <-]; (split; [reflexivity|]);
      eexists; (split; [lookups; first [reflexivity | eassumption] | reflexivity]).
Qed.

(** C10. With [--model vse++], once the dataset is built, the run prints the
    warnings of lines 75-89 if any, prints "B) Load model" and raises
    [NotImplementedError]: no model is loaded, no forward pass is made and
    no file is written. *)
Theorem vse_raises_not_implemented argv args root ds :
  parse_args argv = Ok args ->
  args !! "model" = Some (PStr "vse++") ->
  args !! "data_path" = Some root ->
  VstsCaptions root "all" = Ok ds ->
  exists warnings,
    main argv
    = (Raise NotImplementedError,
       [Print "A) Load data"; NewDataset root "all"] ++ warnings ++ [Print "B) Load model"]) /\
    Forall (fun e => exists from, e = Print (warning from (PStr "vse++"))) warnings.
Proof.
  intros Hparse Hm Hroot Hds. unfold main. rewrite Hparse.
  apply parse_args_parsed in Hparse as [_ (md0 & Hmd0 & Hin) _ _ _ _ _].
  cbn in Hin.
  repeat (destruct Hin as [<-|Hin]); try destruct Hin;
    unfold_run; lookups; rewrite Hds; lookups;
    first
      [ exists []; split; [reflexivity | constructor]
      | exists [Print (warning "cap" (PStr "vse++"))];
        split; [reflexivity | repeat constructor; now exists "cap"]
      | exists [Print (warning "comp" (PStr "vse++"))];
        split; [reflexivity | repeat constructor; now exists "comp"] ].
Qed.

Lemma attr_Ok_inv (ns : Namespace) k v ns' t :
  attr k ns = (Ok v, ns', t) -> ns !! k = Some v /\ ns' = ns /\ t = [].
Proof.
  unfold attr, bind, get, lift, getattr. destruct (ns !! k); cbn; intros [= <- <- <-]; auto.
Qed.

(** Take apart a run that returned: one [bind] at a time. *)
Ltac inv_bind Hr :=
  let a := fresh "a" in
  let s1 := fresh "s" in
  let t1 := fresh "t" in
  let t2 := fresh "t" in
  let H1 := fresh "Hrun" in
  let H2 := fresh "Hrun" in
  apply bind_Ok_inv in Hr as (a & s1 & t1 & t2 & H1 & H2 & ->);
  first
    [ apply attr_Ok_inv in H1 as (H1 & -> & ->)
    | apply lift_Ok_inv in H1 as (H1 & -> & ->)
    | apply call_Ok_inv in H1 as (H1 & -> & ->)
    | idtac ].

(** The selection chain against the specification's wording. *)
Lemma select_pair_spec md e1 e2 :
  In md modalities ->
  select_pair (PStr md) e1 e2 = both (selection_spec md e1) (selection_spec md e2).
Proof.
  intros Hin. cbn in Hin.
  repeat (destruct Hin as [<-|Hin]); try destruct Hin;
    unfold select_pair, selection_spec, named, both, subscript; cbn;
    repeat match goal with
      | |- context [?a +:+ ?b] =>
          let v := eval vm_compute in (a +:+ b) in change (a +:+ b) with v
      end;

    repeat match goal with
      | |- context [?e !! ?k] => destruct (e !! k); cbn
      | |- context [cat_dim1 ?a ?b] => destruct (cat_dim1 a b); cbn
      end; reflexivity.
Qed.

Lemma row0_cat_dim1 a b c r :
  cat_dim1 a b = Ok c -> row0 c = Ok r ->
  exists ra rb, row0 a = Ok ra /\ row0 b = Ok rb /\ r = ra ++ rb.
Proof.
  unfold cat_dim1. destruct (Nat.eqb (length a) (length b)); [|discriminate].
  intros [= <-]. destruct a as [|ra a], b as [|rb b]; cbn; try discriminate.
  intros [= <-]. eauto.
Qed.

Lemma loop_body_Ok_inv mdl batch acc args acc' args' t :
  loop_body mdl batch acc args = (Ok acc', args', t) ->
  exists img_1 sent_1 img_2 sent_2 sim s1 s2 e1 e2 md c1 c2 r1 r2 sv s0,
    batch = [img_1; sent_1; img_2; sent_2; sim] /\
    py_list sent_1 = Ok s1 /\ forward mdl img_1 s1 = Ok e1 /\
    py_list sent_2 = Ok s2 /\ forward mdl img_2 s2 = Ok e2 /\
    args !! "modality" = Some md /\
    select_pair md e1 e2 = Ok (c1, c2) /\
    row0 c1 = Ok r1 /\ row0 c2 = Ok r2 /\
    numpy1 sim = Ok sv /\ row0 sv = Ok s0 /\
    acc' = Collected (embs1 acc ++ [r1]) (embs2 acc ++ [r2]) (sims acc ++ [s0]) /\
    args' = args /\ t = [Forward img_1 s1; Forward img_2 s2].
Proof.
  unfold loop_body. intros Hr.
  inv_bind Hr. destruct a as [[[[img_1 sent_1] img_2] sent_2] sim].
  assert (Hbatch : batch = [img_1; sent_1; img_2; sent_2; sim]).
  { unfold unpack5 in Hrun.
    destruct batch as [|x1 [|x2 [|x3 [|x4 [|x5 [|x6 rest]]]]]]; try discriminate.
    now injection Hrun as <- <- <- <- <-. }
  clear Hrun. subst batch.
  do 6 match goal with Hr : bind _ _ _ = (Ok _, _, _) |- _ => inv_bind Hr end.
  match goal with a : (tensor * tensor)%type |- _ => destruct a as [c1 c2] end.
  do 4 match goal with Hr : bind _ _ _ = (Ok _, _, _) |- _ => inv_bind Hr end.
  match goal with Hr : ret _ _ = _ |- _ => injection Hr as <- <- <- end.
  do 16 eexists. repeat split; try eassumption; reflexivity.
Qed.

(** C3. For each of the seven modalities the chain of lines 127-147 picks,
    for both members of the pair alike, what the specification says: the
    embedding of that name, or the embedding named before [+img] joined along
    dimension 1 with the image embedding (the exported row is then the
    named row followed by the image row); and every pass of the loop that
    returns exports the first row of exactly that selection for each
    member. *)
Theorem embedding_selected_by_modality :
  (forall md e1 e2, In md modalities ->
     select_pair (PStr md) e1 e2 = both (selection_spec md e1) (selection_spec md e2)) /\
  (forall md e, In md ["img"; "cap"; "sent"; "comp"] ->
     selection_spec md e = subscript e (md +:+ "_emb")) /\
  (forall x e, In x ["cap"; "sent"; "comp"] ->
     selection_spec (x +:+ "+img") e
     = match subscript e (x +:+ "_emb"), subscript e "img_emb" with
       | Ok a, Ok b => cat_dim1 a b
       | Raise err, _ => Raise err
       | Ok _, Raise err => Raise err
       end) /\
  (forall a b c r, cat_dim1 a b = Ok c -> row0 c = Ok r ->
     exists ra rb, row0 a = Ok ra /\ row0 b = Ok rb /\ r = ra ++ rb) /\
  (forall mdl batch acc args md acc' args' t,
     args !! "modality" = Some (PStr md) -> In md modalities ->
     loop_body mdl batch acc args = (Ok acc', args', t) ->
     exists img_1 sent_1 img_2 sent_2 sim s1 s2 e1 e2 c1 c2 r1 r2,
       batch = [img_1; sent_1; img_2; sent_2; sim] /\
       py_list sent_1 = Ok s1 /\ forward mdl img_1 s1 = Ok e1 /\
       py_list sent_2 = Ok s2 /\ forward mdl img_2 s2 = Ok e2 /\
       selection_spec md e1 = Ok c1 /\ selection_spec md e2 = Ok c2 /\
       row0 c1 = Ok r1 /\ row0 c2 = Ok r2 /\
       embs1 acc' = embs1 acc ++ [r1] /\ embs2 acc' = embs2 acc ++ [r2]).
Proof.
  split; [exact select_pair_spec|].
  split.
  { intros md e Hin. cbn in Hin.
    repeat (destruct Hin as [<-|Hin]); try destruct Hin; reflexivity. }
  split.
  { intros x e Hin. cbn in Hin.
    repeat (destruct Hin as [<-|Hin]); try destruct Hin;
      unfold selection_spec, named; cbn;
      repeat match goal with
        | |- context [?a +:+ ?b] =>
            let v := eval vm_compute in (a +:+ b) in change (a +:+ b) with v
        end;
      repeat match goal with
        | |- context [subscript ?e ?k] => destruct (subscript e k); cbn
        end; reflexivity. }
  split; [exact row0_cat_dim1|].
  intros mdl batch acc args md acc' args' t Hmd Hin Hrun.
  apply loop_body_Ok_inv in Hrun
    as (img_1 & sent_1 & img_2 & sent_2 & sim & s1 & s2 & e1 & e2 & md' & c1 & c2 & r1 & r2
        & sv & s0 & -> & Hs1 & He1 & Hs2 & He2 & Hmd' & Hsel & Hr1 & Hr2 & _ & _ & -> & _ & _).
  rewrite Hmd in Hmd'. injection Hmd' as <-.
  rewrite (select_pair_spec _ _ _ Hin) in Hsel. unfold both in Hsel.
  destruct (selection_spec md e1) as [c1'|] eqn:Hc1; [|discriminate].
  destruct (selection_spec md e2) as [c2'|] eqn:Hc2; [|discriminate].
  injection Hsel as -> ->.
  exists img_1, sent_1, img_2, sent_2, sim, s1, s2, e1, e2, c1, c2, r1, r2.
  repeat split; assumption.
Qed.

(** A pass of the loop body reads the lists only to extend them. *)
Lemma loop_body_entry mdl batch acc args acc' args' t :
  loop_body mdl batch acc args = (Ok acc', args', t) ->
  exists r1 r2 s0,
    acc' = Collected (embs1 acc ++ [r1]) (embs2 acc ++ [r2]) (sims acc ++ [s0]) /\
    args' = args /\
    Forall (fun e => exists img sents, e = Forward img sents) t /\
    forall acc2,
      loop_body mdl batch acc2 args
      = (Ok (Collected (embs1 acc2 ++ [r1]) (embs2 acc2 ++ [r2]) (sims acc2 ++ [s0])), args, t).
Proof.
  intros Hrun. apply loop_body_Ok_inv in Hrun
    as (img_1 & sent_1 & img_2 & sent_2 & sim & s1 & s2 & e1 & e2 & md & c1 & c2 & r1 & r2
        & sv & s0 & -> & Hs1 & He1 & Hs2 & He2 & Hmd & Hsel & Hr1 & Hr2 & Hsv & Hs0
        & -> & -> & ->).
  exists r1, r2, s0. repeat split.
  - repeat constructor; eauto.
  - intros acc2. unfold loop_body, bind, lift, call, attr, get, getattr, emit, ret. cbn.
    rewrite Hs1. cbn. rewrite He1. cbn. rewrite Hs2. cbn. rewrite He2. cbn.
    rewrite Hmd. cbn. rewrite Hsel. cbn. rewrite Hr1. cbn. rewrite Hr2. cbn.
    rewrite Hsv. cbn. rewrite Hs0. reflexivity.
Qed.

(** The loop of lines 120-151 over any list of batches: one entry per batch,
    in order, each the one the body yields on that batch alone. *)
Lemma embed_loop_inv mdl batches :
  forall acc0 acc args args' t,
    for_each batches acc0 (loop_body mdl) args = (Ok acc, args', t) ->
    args' = args /\
    Forall (fun e => exists img sents, e = Forward img sents) t /\
    exists entries : list (list float * list float * float),
      Forall2 (fun b e => exists tb,
                 loop_body mdl b (Collected [] [] []) args
                 = (Ok (Collected [e.1.1] [e.1.2] [e.2]), args, tb)) batches entries /\
      embs1 acc = embs1 acc0 ++ List.map (fun e => e.1.1) entries /\
      embs2 acc = embs2 acc0 ++ List.map (fun e => e.1.2) entries /\
      sims acc = sims acc0 ++ List.map (fun e => e.2) entries.
Proof.
  induction batches as [|b batches IH]; intros acc0 acc args args' t; cbn [for_each].
  - intros [= <- <- <-]. repeat split; [constructor|]. exists [].
    cbn. rewrite !app_nil_r. repeat split. constructor.
  - intros Hrun. apply bind_Ok_inv in Hrun as (a & s1 & t1 & t2 & Hb & Hrest & ->).
    apply loop_body_entry in Hb as (r1 & r2 & s0 & -> & -> & Hfw & Hany).
    apply IH in Hrest as (-> & Hfw2 & entries & Hall & H1 & H2 & H3).
    repeat split; [apply Forall_app; auto|].
    exists ((r1, r2, s0) :: entries). cbn in *.
    rewrite H1, H2, H3, <- !app_assoc. repeat split.
    constructor; [|assumption]. exists t1. apply (Hany (Collected [] [] [])).
Qed.

Lemma as_path_Ok_inv v p : as_path v = Ok p -> v = PStr p.
Proof. destruct v; cbn; try discriminate. now intros [= <-]. Qed.

Lemma emb_file_name_Ok_inv suffix ns f ns' t :
  emb_file_name suffix ns = (Ok f, ns', t) ->
  exists out m md,
    ns !! "output_path" = Some (PStr out) /\ ns !! "model" = Some (PStr m) /\
    ns !! "modality" = Some (PStr md) /\
    f = out +:+ "/" +:+ m +:+ "_" +:+ md +:+ suffix /\ ns' = ns /\ t = [].
Proof.
  unfold emb_file_name. intros Hr.
  do 8 match goal with Hr : bind _ _ _ = (Ok _, _, _) |- _ => inv_bind Hr end.
  match goal with Hr : lift _ _ = _ |- _ => apply lift_Ok_inv in Hr as (Hp & -> & ->) end.
  repeat match goal with
    | Hadd : py_add _ _ = Ok _ |- _ =>
        apply py_add_Ok_inv in Hadd as (? & ? & ? & ? & ?); subst
    end.
  apply as_path_Ok_inv in Hp. simplify_eq.
  do 3 eexists. repeat split; try eassumption.
  now rewrite !append_assoc.
Qed.

(** Lines 153-168, for a run that returns: three shape lines, the directory
    if it was missing, then the three files. *)
Lemma save_outputs_Ok_inv acc ns ns' t :
  save_outputs acc ns = (Ok tt, ns', t) ->
  exists out m md,
    ns !! "output_path" = Some (PStr out) /\ ns !! "model" = Some (PStr m) /\
    ns !! "modality" = Some (PStr md) /\ ns' = ns /\
    t = [PrintShape "Emb. 1: " (Arr2 (embs1 acc)); PrintShape "Emb. 2: " (Arr2 (embs2 acc));
         PrintShape "Sim: " (Arr1 (sims acc))]
        ++ (if path_exists out then [] else [MkDir out])
        ++ [NpSave (out +:+ "/" +:+ m +:+ "_" +:+ md +:+ "_emb_1.npy") (Arr2 (embs1 acc));
            NpSave (out +:+ "/" +:+ m +:+ "_" +:+ md +:+ "_emb_2.npy") (Arr2 (embs2 acc));
            NpSave (out +:+ "/sim.npy") (Arr1 (sims acc))].
Proof.
  unfold save_outputs. intros Hr.
  do 3 match goal with Hr : bind _ _ _ = (Ok _, _, _) |- _ =>
    apply bind_Ok_inv in Hr as (? & ? & ? & ? & [= <- <- <-] & Hr & ->) end.
  do 2 match goal with Hr : bind _ _ _ = (Ok _, _, _) |- _ => inv_bind Hr end.
  match goal with Hp : as_path _ = Ok _ |- _ => apply as_path_Ok_inv in Hp; subst end.
  match goal with Hr : bind _ _ _ = (Ok _, _, _) |- _ =>
    apply bind_Ok_inv in Hr as (? & sd & td & ? & Hdir & Hr & ->) end.
  assert (Hd : sd = ns /\ td = (if path_exists a0 then [] else [MkDir a0])).
  { destruct (path_exists a0); cbn in Hdir.
    - injection Hdir as <- <- <-. auto.
    - apply bind_Ok_inv in Hdir as (o2 & ? & ? & ? & Ho2 & Hdir & ->).
      apply attr_Ok_inv in Ho2 as (Ho2 & -> & ->).
      apply bind_Ok_inv in Hdir as (p2 & ? & ? & ? & Hp2 & Hdir & ->).
      apply lift_Ok_inv in Hp2 as (Hp2 & -> & ->).
      apply call_Ok_inv in Hdir as (_ & -> & ->).
      apply as_path_Ok_inv in Hp2. split; [reflexivity|]. cbn. congruence. }
  destruct Hd as [-> ->]. clear Hdir.
  match goal with Hr : bind _ _ _ = (Ok _, _, _) |- _ =>
    apply bind_Ok_inv in Hr as (f1 & ? & ? & ? & Hf1 & Hr & ->) end.
  apply emb_file_name_Ok_inv in Hf1 as (out & m & md & Hout & Hm & Hmd & -> & -> & ->).
  match goal with Hr : bind _ _ _ = (Ok _, _, _) |- _ => inv_bind Hr end.
  match goal with Hr : bind _ _ _ = (Ok _, _, _) |- _ =>
    apply bind_Ok_inv in Hr as (f2 & ? & ? & ? & Hf2 & Hr & ->) end.
  apply emb_file_name_Ok_inv in Hf2 as (out2 & m2 & md2 & Hout2 & Hm2 & Hmd2 & -> & -> & ->).
  do 4 match goal with Hr : bind _ _ _ = (Ok _, _, _) |- _ => inv_bind Hr end.
  match goal with Hr : call _ _ _ = _ |- _ => apply call_Ok_inv in Hr as (_ & -> & ->) end.
  repeat match goal with
    | Hadd : py_add _ _ = Ok _ |- _ =>
        apply py_add_Ok_inv in Hadd as (? & ? & ? & ? & ?); subst
    end.
  match goal with Hp : as_path _ = Ok _ |- _ => apply as_path_Ok_inv in Hp end.
  simplify_eq. do 3 eexists. repeat split; eassumption.
Qed.

Lemma parsed_set_modality args md :
  parsed args -> In md modalities -> parsed (<["modality" := PStr md]> args).
Proof.
  intros [(m & Hm & Hmin) _ H1 H2 H3 H4 H5] Hin. split;
    try (apply str_or_none_insert; [assumption | discriminate]).
  - exists m. now rewrite lookup_insert_ne by discriminate.
  - exists md. now rewrite lookup_insert_eq.
Qed.

(** Lines 75-89 on a parsed namespace: they return, touch only
    [args.modality], keep it among the choices, and print only warnings. *)
Lemma adjust_inv args :
  parsed args ->
  (forall r args1 t, adjust_cap args = (r, args1, t) ->
     r = Ok tt /\ parsed args1 /\ (forall k, k <> "modality" -> args1 !! k = args !! k) /\
     Forall is_warning t) /\
  (forall r args1 t, adjust_comp args = (r, args1, t) ->
     r = Ok tt /\ parsed args1 /\ (forall k, k <> "modality" -> args1 !! k = args !! k) /\
     Forall is_warning t).
Proof.
  intros Hp. pose proof Hp as [(m & Hm & Hmin) (md & Hmd & Hmdin) _ _ _ _ _].
  assert (Hkeep : forall md' k, k <> "modality" ->
            <["modality" := PStr md']> args !! k = args !! k)
    by (intros; now apply lookup_insert_ne).
  cbn in Hmin, Hmdin.
  repeat (destruct Hmin as [<-|Hmin]); try destruct Hmin;
    repeat (destruct Hmdin as [<-|Hmdin]); try destruct Hmdin;
    (split; intros r args1 t; unfold_run; lookups; intros [= <- <- <-];
     (split; [reflexivity|]);
     (split; [first [assumption | apply parsed_set_modality; [assumption | cbn; tauto]]|]);
     (split; [first [reflexivity | apply Hkeep]|]);
     repeat constructor; eexists _, _; reflexivity).
Qed.

Lemma load_data_inv args r args1 t :
  load_data args = (r, args1, t) ->
  args1 = args /\ Forall (fun e => phase_of e = 1) t /\
  forall ds, r = Ok ds ->
    exists root, args !! "data_path" = Some root /\ VstsCaptions root "all" = Ok ds /\
      t = [Print "A) Load data"; NewDataset root "all"].
Proof.
  unfold load_data, call, attr, bind, emit, get, lift, getattr, ret, raise.
  destruct (args !! "data_path") as [root|]; cbn.
  - destruct (VstsCaptions root "all") as [ds|e] eqn:Hds; cbn; intros [= <- <- <-];
      (split; [reflexivity|]); (split; [repeat constructor|]); intros ds' [= <-].
    exists root. repeat split. exact Hds.
  - intros [= <- <- <-]. repeat split; [repeat constructor | discriminate].
Qed.

Lemma load_the_model_emits : emits (fun e => phase_of e = 2) load_the_model.
Proof. unfold load_the_model, attr. emits_with ltac:(exact eq_refl). Qed.

Lemma load_the_model_inv args r args1 t :
  parsed args -> load_the_model args = (Ok r, args1, t) -> args1 = args /\ exists mdl, r = Some mdl.
Proof.
  intros [(m & Hm & Hmin) _ _ _ _ _ _]. cbn in Hmin.
  repeat (destruct Hmin as [<-|Hmin]); try destruct Hmin;
    unfold load_the_model; intros Hr.
  - revert Hr. unfold_run. lookups. discriminate.
  - inv_bind Hr. injection Hrun as <- <- <-. inv_bind Hrun0.
    rewrite Hm in Hrun. injection Hrun as <-. cbn in Hrun1.
    do 5 match goal with Hr : bind _ _ _ = (Ok _, _, _) |- _ => inv_bind Hr end.
    match goal with Hr : bind _ _ _ = (Ok _, _, _) |- _ => inv_bind Hr end.
    match goal with Hr : ret _ _ = _ |- _ => injection Hr as <- <- <- end. eauto.
  - inv_bind Hr. injection Hrun as <- <- <-. inv_bind Hrun0.
    rewrite Hm in Hrun. injection Hrun as <-. cbn in Hrun1.
    do 4 match goal with Hr : bind _ _ _ = (Ok _, _, _) |- _ => inv_bind Hr end.
    match goal with Hr : ret _ _ = _ |- _ => injection Hr as <- <- <- end. eauto.
Qed.

Lemma is_warning_phase e : is_warning e -> phase_of e = 1.
Proof. intros (from & m & ->). reflexivity. Qed.

(** A run on a parsed namespace that gets through the loop went through
    every block before it. *)
Lemma embed_phase_Ok_inv args done args' t :
  parsed args -> embed_phase args = (Ok done, args', t) ->
  exists root ds mdl acc t0 tl,
    done = Some acc /\
    args !! "data_path" = Some root /\ VstsCaptions root "all" = Ok ds /\
    parsed args' /\ (forall k, k <> "modality" -> args' !! k = args !! k) /\
    embed_all mdl ds args' = (Ok acc, args', tl) /\
    t = t0 ++ tl /\ Forall (fun e => phase_of e <= 2) t0.
Proof.
  intros Hp Hr. unfold embed_phase in Hr.
  apply bind_Ok_inv in Hr as (ds & s1 & t1 & ? & Hload & Hr & ->).
  apply load_data_inv in Hload as (-> & Hph1 & Hds).
  destruct (Hds ds eq_refl) as (root & Hroot & Hvsts & ->). clear Hds.
  apply bind_Ok_inv in Hr as ([] & s2 & tw1 & ? & Hcap & Hr & ->).
  apply (proj1 (adjust_inv args Hp)) in Hcap as (_ & Hp2 & Hk2 & Hw1).
  apply bind_Ok_inv in Hr as ([] & s3 & tw2 & ? & Hcomp & Hr & ->).
  apply (proj2 (adjust_inv s2 Hp2)) in Hcomp as (_ & Hp3 & Hk3 & Hw2).
  apply bind_Ok_inv in Hr as (loaded & s4 & tm & ? & Hmodel & Hr & ->).
  pose proof (load_the_model_emits _ _ _ _ Hmodel) as Hphm.
  apply (load_the_model_inv _ _ _ _ Hp3) in Hmodel as (-> & mdl & ->).
  apply bind_Ok_inv in Hr as (acc & s5 & tl & ? & Hloop & Hret & ->).
  injection Hret as <- <- <-.
  pose proof Hloop as Hloop'. unfold embed_all in Hloop'.
  apply embed_loop_inv in Hloop' as (-> & _).
  exists root, ds, (eval_mode (to_device mdl)), acc,
    ([Print "A) Load data"; NewDataset root "all"] ++ tw1 ++ tw2 ++ tm), tl.
  do 4 (split; [assumption || reflexivity|]). split; [|split; [assumption|split]].
  - intros k Hk. rewrite Hk3, Hk2 by assumption. reflexivity.
  - rewrite app_nil_r. now rewrite <- !app_assoc.
  - repeat (apply Forall_app; split).
    + repeat constructor.
    + eapply Forall_impl; [exact Hw1|]. intros e He. rewrite (is_warning_phase e He). lia.
    + eapply Forall_impl; [exact Hw2|]. intros e He. rewrite (is_warning_phase e He). lia.
    + eapply Forall_impl; [exact Hphm|]. cbn. intros e ->. lia.
Qed.

(** A run on a parsed namespace that returns went through every block. *)
Lemma main_body_Ok_inv args args' t :
  parsed args -> main_body args = (Ok tt, args', t) ->
  exists root ds mdl acc t0 tl ts,
    args !! "data_path" = Some root /\ VstsCaptions root "all" = Ok ds /\
    parsed args' /\ (forall k, k <> "modality" -> args' !! k = args !! k) /\
    embed_all mdl ds args' = (Ok acc, args', tl) /\
    save_outputs acc args' = (Ok tt, args', ts) /\
    t = t0 ++ tl ++ ts /\ Forall (fun e => phase_of e <= 2) t0.
Proof.
  intros Hp Hr. unfold main_body in Hr.
  apply bind_Ok_inv in Hr as (done & s1 & t1 & ts & Hphase & Hsave & ->).
  apply (embed_phase_Ok_inv _ _ _ _ Hp) in Hphase
    as (root & ds & mdl & acc & t0 & tl & -> & Hroot & Hds & Hp1 & Hk & Hloop & -> & Hph).
  pose proof Hsave as Hsave'.
  apply save_outputs_Ok_inv in Hsave' as (_ & _ & _ & _ & _ & _ & -> & _).
  exists root, ds, mdl, acc, t0, tl, ts.
  do 3 (split; [assumption|]). split; [assumption|]. do 2 (split; [assumption|]).
  split; [now rewrite <- app_assoc | assumption].
Qed.

(** Lines 153-168 when the output path is a string and the calls to [os]
    and [np.save] return. *)
Lemma save_outputs_Ok acc ns out m md :
  ns !! "output_path" = Some (PStr out) -> ns !! "model" = Some (PStr m) ->
  ns !! "modality" = Some (PStr md) ->
  (path_exists out = false -> mkdir out = Ok tt) ->
  (forall p a, np_save p a = Ok tt) ->
  save_outputs acc ns
  = (Ok tt, ns,
     [PrintShape "Emb. 1: " (Arr2 (embs1 acc)); PrintShape "Emb. 2: " (Arr2 (embs2 acc));
      PrintShape "Sim: " (Arr1 (sims acc))]
     ++ (if path_exists out then [] else [MkDir out])
     ++ [NpSave (out +:+ "/" +:+ m +:+ "_" +:+ md +:+ "_emb_1.npy") (Arr2 (embs1 acc));
         NpSave (out +:+ "/" +:+ m +:+ "_" +:+ md +:+ "_emb_2.npy") (Arr2 (embs2 acc));
         NpSave (out +:+ "/sim.npy") (Arr1 (sims acc))]).
Proof.
  intros Hout Hm Hmd Hmk Hsave.
  unfold save_outputs, emb_file_name, call, attr, bind, get, lift, getattr, emit, ret, raise.
  unfold py_add, as_path. cbn. rewrite Hout. cbn.
  destruct (path_exists out) eqn:Hex; cbn.
  - repeat (first [rewrite Hout | rewrite Hm | rewrite Hmd | rewrite Hsave]; cbn).
    rewrite !append_assoc. reflexivity.
  - rewrite Hout. cbn. rewrite (Hmk eq_refl). cbn.
    repeat (first [rewrite Hout | rewrite Hm | rewrite Hmd | rewrite Hsave]; cbn).
    rewrite !append_assoc. reflexivity.
Qed.

(** C8. A run that completes its loop over the instances, with an output
    path on the command line and with [os.mkdir] and [np.save] returning,
    goes on to the end and leaves exactly three files, all under the output
    path, after creating that directory if it did not exist: the two
    embedding arrays, named after the model and the modality as lines 75-89
    left it, and the similarity array.  Nothing is written before. *)
Theorem three_files_written argv args acc args1 t1 out :
  parse_args argv = Ok args ->
  embed_phase args = (Ok (Some acc), args1, t1) ->
  args !! "output_path" = Some (PStr out) ->
  (path_exists out = false -> mkdir out = Ok tt) ->
  (forall p a, np_save p a = Ok tt) ->
  exists m md,
    args !! "model" = Some (PStr m) /\
    args1 !! "modality" = Some (PStr md) /\
    Forall (fun e => ~ writes e) t1 /\
    main_body args
    = (Ok tt, args1,
       t1
       ++ [PrintShape "Emb. 1: " (Arr2 (embs1 acc)); PrintShape "Emb. 2: " (Arr2 (embs2 acc));
           PrintShape "Sim: " (Arr1 (sims acc))]
       ++ (if path_exists out then [] else [MkDir out])
       ++ [NpSave (out +:+ "/" +:+ m +:+ "_" +:+ md +:+ "_emb_1.npy") (Arr2 (embs1 acc));
           NpSave (out +:+ "/" +:+ m +:+ "_" +:+ md +:+ "_emb_2.npy") (Arr2 (embs2 acc));
           NpSave (out +:+ "/sim.npy") (Arr1 (sims acc))]).
Proof.
  intros Hparse Hphase Hout Hmk Hsave. apply parse_args_parsed in Hparse.
  pose proof Hphase as Hinv.
  apply (embed_phase_Ok_inv _ _ _ _ Hparse) in Hinv
    as (root & ds & mdl & acc' & t0 & tl & _ & _ & _ & Hp1 & Hk & Hloop & -> & Hph).
  destruct Hp1 as [(m & Hm & _) (md & Hmd & _) _ _ _ _ _].
  exists m, md. split; [now rewrite <- Hk by discriminate|]. split; [assumption|]. split.
  - unfold embed_all in Hloop. apply embed_loop_inv in Hloop as (_ & Hfw & _).
    apply Forall_app. split.
    + eapply Forall_impl; [exact Hph|]. intros [] Hle; cbn in *; try tauto; lia.
    + eapply Forall_impl; [exact Hfw|]. intros e (img & sents & ->). cbn. tauto.
  - unfold main_body. rewrite (bind_run _ _ _ _ _ _ Hphase).
    rewrite (save_outputs_Ok acc args1 out m md); try assumption; [reflexivity|].
    now rewrite Hk by discriminate.
Qed.

Lemma loop_body_bad_arity mdl batch acc args :
  length batch <> 5 ->
  exists msg, loop_body mdl batch acc args = (Raise (ValueError msg), args, []).
Proof.
  intros Hlen. unfold loop_body, bind, lift.
  destruct batch as [|x1 [|x2 [|x3 [|x4 [|x5 [|x6 rest]]]]]]; cbn in *;
    try (eexists; reflexivity). contradiction.
Qed.

(** C5. A batch that does not have five fields stops the run with a
    [ValueError]; a pass that returns took the five fields as (image,
    sentence, image, sentence, score) and added one entry to each list.  In
    a run that returns, the three saved arrays have as many rows as the
    dataset has instances, and row [i] of each is what the loop body yields
    on the batch made of instance [i] alone, its fields stacked one by one,
    which is what a loader of batch size 1 without shuffling hands over. *)
Theorem one_row_per_instance :
  (forall mdl batch acc args, length batch <> 5 ->
     exists msg, loop_body mdl batch acc args = (Raise (ValueError msg), args, [])) /\
  (forall mdl batch acc args acc' args' t,
     loop_body mdl batch acc args = (Ok acc', args', t) ->
     exists img_1 sent_1 img_2 sent_2 sim s1 s2 sv r1 r2 s0,
       batch = [img_1; sent_1; img_2; sent_2; sim] /\
       py_list sent_1 = Ok s1 /\ py_list sent_2 = Ok s2 /\
       t = [Forward img_1 s1; Forward img_2 s2] /\
       numpy1 sim = Ok sv /\ row0 sv = Ok s0 /\
       embs1 acc' = embs1 acc ++ [r1] /\ embs2 acc' = embs2 acc ++ [r2] /\
       sims acc' = sims acc ++ [s0]) /\
  (forall ds, sequential_batches 1 (instances ds)
              = List.map (fun inst => List.map (fun x => stack [x]) inst) (instances ds)) /\
  (forall argv args args' t,
     parse_args argv = Ok args -> main_body args = (Ok tt, args', t) ->
     exists root ds mdl acc f1 f2 f3,
       args !! "data_path" = Some root /\ VstsCaptions root "all" = Ok ds /\
       In (NpSave f1 (Arr2 (embs1 acc))) t /\ In (NpSave f2 (Arr2 (embs2 acc))) t /\
       In (NpSave f3 (Arr1 (sims acc))) t /\
       length (embs1 acc) = length (instances ds) /\
       length (embs2 acc) = length (instances ds) /\
       length (sims acc) = length (instances ds) /\
       forall i inst, instances ds !! i = Some inst ->
         exists r1 r2 s tb,
           loop_body mdl (List.map (fun x => stack [x]) inst) (Collected [] [] []) args'
           = (Ok (Collected [r1] [r2] [s]), args', tb) /\
           embs1 acc !! i = Some r1 /\ embs2 acc !! i = Some r2 /\ sims acc !! i = Some s).
Proof.
  split; [exact loop_body_bad_arity|]. split; [|split].
  { intros mdl batch acc args acc' args' t Hr. apply loop_body_Ok_inv in Hr
      as (img_1 & sent_1 & img_2 & sent_2 & sim & s1 & s2 & e1 & e2 & md & c1 & c2 & r1 & r2
          & sv & s0 & -> & Hs1 & He1 & Hs2 & He2 & Hmd & Hsel & Hr1 & Hr2 & Hsv & Hs0
          & -> & -> & ->).
    exists img_1, sent_1, img_2, sent_2, sim, s1, s2, sv, r1, r2, s0. repeat split; assumption. }
  { intros ds. apply sequential_batches_one. }
  intros argv args args' t Hparse Hr. apply parse_args_parsed in Hparse.
  pose proof Hr as Hmain.
  apply (main_body_Ok_inv _ _ _ Hparse) in Hr
    as (root & ds & mdl & acc & t0 & tl & ts & Hroot & Hds & _ & _ & Hloop & Hsave & -> & _).
  unfold embed_all in Hloop. rewrite sequential_batches_one in Hloop.
  apply embed_loop_inv in Hloop as (_ & _ & entries & Hall & H1 & H2 & H3).
  cbn in H1, H2, H3.
  rewrite map_fmap in H1. rewrite map_fmap in H2. rewrite map_fmap in H3.
  rewrite map_fmap in Hall.
  apply save_outputs_Ok_inv in Hsave as (out & m & md & _ & _ & _ & _ & ->).
  pose proof (Forall2_length _ _ _ Hall) as Hlen. rewrite length_fmap in Hlen.
  exists root, ds, mdl, acc. do 3 eexists.
  do 2 (split; [assumption|]).
  split; [|split; [|split]].
  1-3: rewrite !in_app_iff; right; right; right; cbn; eauto.
  rewrite H1, H2, H3, !length_fmap.
  do 3 (split; [congruence|]).
  intros i inst Hi.
  destruct (Forall2_lookup_l _ _ _ i ((fun x => stack [x]) <$> inst) Hall)
    as (e & He & tb & Hbody).
  { rewrite list_lookup_fmap, Hi. cbn. now rewrite map_fmap. }
  exists e.1.1, e.1.2, e.2, tb. rewrite map_fmap, !list_lookup_fmap, He.
  split; [exact Hbody|]. repeat split.
Qed.

Lemma adjust_cap_emits : emits (fun e => phase_of e = 1) adjust_cap.
Proof. unfold adjust_cap, guard, attr, setattr. emits_with ltac:(exact eq_refl). Qed.

Lemma adjust_comp_emits : emits (fun e => phase_of e = 1) adjust_comp.
Proof. unfold adjust_comp, guard, attr, setattr. emits_with ltac:(exact eq_refl). Qed.

Lemma load_data_emits : emits (fun e => phase_of e = 1) load_data.
Proof. unfold load_data, attr. emits_with ltac:(exact eq_refl). Qed.

Lemma embed_all_emits mdl ds : emits (fun e => phase_of e = 3) (embed_all mdl ds).
Proof. unfold embed_all, loop_body, attr. emits_with ltac:(exact eq_refl). Qed.

Lemma save_outputs_emits acc : emits (fun e => phase_of e = 4) (save_outputs acc).
Proof. unfold save_outputs, emb_file_name, attr. emits_with ltac:(exact eq_refl). Qed.


(** ** The parser *)

(** X1. A namespace returned by [parse_args] has the seven declared
    attributes and no other; the model and the modality are among their
    choices and every path is a string or [None]. *)
Theorem precomp_namespace_attributes argv args :
  parse_args argv = Ok args ->
  parsed args /\ forall k, is_Some (args !! k) <-> In k attributes.
Proof.
  intros Hp. pose proof (parse_args_parsed _ _ Hp) as Hparsed.
  split; [assumption|]. intros k. split.
  - intros Hk. exact (argparse_keys parser argv args k Hp Hk).
  - destruct Hparsed as [(m & Hm & _) (md & Hmd & _) H1 H2 H3 H4 H5].
    cbn. intros Hin.
    repeat (destruct Hin as [<-|Hin];
      [ first [ rewrite Hm; eauto | rewrite Hmd; eauto
              | match goal with
                | Hs : str_or_none _ ?k |- is_Some (_ !! ?k) =>
                    destruct Hs as [Hs|[s Hs]]; rewrite Hs; eauto
                end ] |]).
    destruct Hin.
Qed.

(** X2. Options are taken from left to right and a later one overrides an
    earlier one: an accepted command line followed by [--modality v], for
    an allowed [v], gives the same namespace with [modality] set to [v].
    This is stated for command lines in which no token begins with a single
    dash, where the one-pass reading agrees with argparse. *)
Theorem later_modality_overrides pre args v :
  Forall (fun tok => String.prefix "-" tok = true -> String.prefix "--" tok = true) pre ->
  parse_args pre = Ok args -> In v modalities ->
  parse_args (pre ++ ["--modality"; v]) = Ok (<["modality" := PStr v]> args).
Proof.
  unfold parse_args, argparse. intros _ Hp Hin.
  rewrite (parse_tokens_app _ _ _ _ _ Hp). cbn in Hin.
  repeat (destruct Hin as [<-|Hin]; [reflexivity|]). destruct Hin.
Qed.

(** X3. A value outside the choices of [--model] or of [--modality] ends
    the run with exit status 2 before anything is loaded, wherever the
    option stands on the command line. *)
Theorem unknown_choice_rejected pre args v rest :
  parse_args pre = Ok args ->
  (~ In v models -> main (pre ++ "--model" :: v :: rest) = (Raise (SystemExit 2), [])) /\
  (~ In v modalities -> main (pre ++ "--modality" :: v :: rest) = (Raise (SystemExit 2), [])).
Proof.
  unfold main, parse_args, argparse. intros Hp.
  split; intros Hn; rewrite (parse_tokens_app _ _ _ _ _ Hp);
    apply allowed_not_In in Hn.
  - change (parse_tokens parser ("--model" :: v :: rest) args)
      with (if String.prefix "--" v then Raise (SystemExit 2)
            else match (if allowed (Some models) v
                        then Ok (<["model" := PStr v]> args) else Raise (SystemExit 2)) with
                 | Ok ns' => parse_tokens parser rest ns'
                 | Raise e => Raise e
                 end).
    rewrite Hn. now destruct (String.prefix "--" v).
  - change (parse_tokens parser ("--modality" :: v :: rest) args)
      with (if String.prefix "--" v then Raise (SystemExit 2)
            else match (if allowed (Some modalities) v
                        then Ok (<["modality" := PStr v]> args) else Raise (SystemExit 2)) with
                 | Ok ns' => parse_tokens parser rest ns'
                 | Raise e => Raise e
                 end).
    rewrite Hn. now destruct (String.prefix "--" v).
Qed.

(** ** Lines 75-89: the modality a model can deliver *)

(** X4. With a model other than "univse" and a modality in which "cap"
    occurs, lines 75-89 replace "cap" by "sent" and "cap+img" by
    "sent+img", and print the one warning about 'cap'. *)
Theorem cap_modality_becomes_sent argv args m md :
  parse_args argv = Ok args ->
  args !! "model" = Some (PStr m) ->
  m <> "univse" ->
  args !! "modality" = Some (PStr md) ->
  str_in "cap" md = true ->
  (md = "cap" \/ md = "cap+img") /\
  bind adjust_cap (fun _ => adjust_comp) args
  = (Ok tt, <["modality" := PStr (if str_in "img" md then "sent+img" else "sent")]> args,
     [Print ("WARNING: modality of embedding changed from 'cap' to 'sent', as "
             +:+ m +:+ " has only sentence embeddings as output.")]).
Proof.
  intros Hparse Hm Hne Hmd Hcap.
  apply parse_args_parsed in Hparse as [_ (md0 & Hmd0 & Hin) _ _ _ _ _].
  pose proof (py_ne_str_true m "univse" Hne) as Hneb.
  rewrite Hmd0 in Hmd. injection Hmd as <-. cbn in Hin.
  repeat (destruct Hin as [<-|Hin]; [try discriminate Hcap|]); try destruct Hin.
  - split; [now left|]. unfold_run. lookups. rewrite Hneb. lookups. reflexivity.
  - split; [now right|]. unfold_run. lookups. rewrite Hneb. lookups. reflexivity.
Qed.

(** X5. Lines 75-89 leave the namespace as it is and print nothing when
    the model is "univse", whatever the modality, and when neither "cap" nor
    "comp" occurs in the modality, whatever the model. *)
Theorem modality_kept argv args m md :
  parse_args argv = Ok args ->
  args !! "model" = Some (PStr m) ->
  args !! "modality" = Some (PStr md) ->
  m = "univse" \/ (str_in "cap" md = false /\ str_in "comp" md = false) ->
  bind adjust_cap (fun _ => adjust_comp) args = (Ok tt, args, []).
Proof.
  intros Hparse Hm Hmd Hcase.
  apply parse_args_parsed in Hparse as [_ (md0 & Hmd0 & Hin) _ _ _ _ _].
  rewrite Hmd0 in Hmd. injection Hmd as <-. cbn in Hin.
  destruct Hcase as [->|[Hcap Hcomp]].
  - repeat (destruct Hin as [<-|Hin]); try destruct Hin;
      unfold_run; lookups; reflexivity.
  - repeat (destruct Hin as [<-|Hin]; [try discriminate Hcap; try discriminate Hcomp|]);
      try destruct Hin; unfold_run; lookups; reflexivity.
Qed.

(** X6. With a model other than "univse", after lines 75-89 the modality is
    one of "img", "sent", "sent+img" and "comp+img", and the selection of
    lines 127-147 does not depend on what the model's output holds under
    "cap_emb". *)
Theorem cap_embedding_only_with_univse argv args m r args' t :
  parse_args argv = Ok args ->
  args !! "model" = Some (PStr m) ->
  m <> "univse" ->
  bind adjust_cap (fun _ => adjust_comp) args = (r, args', t) ->
  exists md',
    args' !! "modality" = Some (PStr md') /\
    In md' ["img"; "sent"; "sent+img"; "comp+img"] /\
    forall e1 e2 c1 c2,
      select_pair (PStr md') (<["cap_emb" := c1]> e1) (<["cap_emb" := c2]> e2)
      = select_pair (PStr md') e1 e2.
Proof.
  intros Hparse Hm Hne.
  apply parse_args_parsed in Hparse as [_ (md0 & Hmd0 & Hin) _ _ _ _ _].
  pose proof (py_ne_str_true m "univse" Hne) as Hneb. cbn in Hin.
  repeat (destruct Hin as [<-|Hin]); try destruct Hin;
    unfold_run; lookups; rewrite ?Hneb; lookups; intros [= <- <- <-];
    eexists; (split; [lookups; first [reflexivity | eassumption]|]);
    (split; [cbn; tauto|]);
    intros e1 e2 c1 c2; unfold select_pair, subscript; cbn;
    rewrite !lookup_insert_ne by discriminate; reflexivity.
Qed.

(** ** Lines 91-103: the model branch *)

Lemma branch_event_phase m e : phase_of e <> 2 -> branch_event m e.
Proof.
  intros Hph. split.
  - intros ->. now apply Hph.
  - intros _ gp ->. now apply Hph.
Qed.

(** Lines 91-103 from a namespace whose model is one of the choices. *)
Lemma load_the_model_events args m r args1 t :
  args !! "model" = Some (PStr m) -> In m models ->
  load_the_model args = (r, args1, t) ->
  Forall (branch_event m) t.
Proof.
  intros Hm Hin. unfold load_the_model.
  rewrite (bind_run _ _ args tt args [Print "B) Load model"] eq_refl).
  rewrite (bind_run _ _ _ _ _ _ (attr_Ok _ _ _ Hm)).
  cbn in Hin. repeat (destruct Hin as [<-|Hin]); try destruct Hin.
  - cbn. intros [= <- <- <-]. repeat constructor; discriminate.
  - change (py_eq_str (PStr "univse") "vse++") with false.
    change (py_eq_str (PStr "univse") "simp_univse") with false.
    change (py_eq_str (PStr "univse") "univse") with true. cbv iota.
    match goal with
    | |- context [bind (attr "vocab_path") ?k args] =>
        destruct (bind (attr "vocab_path") k args) as [[r' s'] t'] eqn:Hb
    end.
    intros [= <- <- <-]. constructor; [split; [discriminate | intros _ gp; discriminate]|].
    cbn [app]. refine ((_ : emits (branch_event "univse") _) _ _ _ _ Hb).
    unfold attr.
    emits_with ltac:(split; [discriminate | first [intros _ gp; discriminate | intros Hne; now destruct Hne]]).
  - change (py_eq_str (PStr "simp_univse") "vse++") with false.
    change (py_eq_str (PStr "simp_univse") "simp_univse") with true. cbv iota.
    match goal with
    | |- context [bind (attr "vocab_path") ?k args] =>
        destruct (bind (attr "vocab_path") k args) as [[r' s'] t'] eqn:Hb
    end.
    intros [= <- <- <-]. constructor; [split; [discriminate | intros _ gp; discriminate]|].
    cbn [app]. refine ((_ : emits (branch_event "simp_univse") _) _ _ _ _ Hb).
    unfold attr.
    emits_with ltac:(split; [discriminate | intros _ gp; discriminate]).
Qed.

Lemma embed_phase_events args m r args' t :
  parsed args -> args !! "model" = Some (PStr m) ->
  embed_phase args = (r, args', t) -> Forall (branch_event m) t.
Proof.
  intros Hp Hm Hr.
  assert (Hin : In m models).
  { destruct Hp as [(m' & Hm' & Hin) _ _ _ _ _ _]. rewrite Hm in Hm'. now injection Hm' as <-. }
  assert (Hone : forall tx, Forall (fun e => phase_of e = 1) tx -> Forall (branch_event m) tx).
  { intros tx Htx. eapply Forall_impl; [exact Htx|].
    intros e He. apply branch_event_phase. rewrite He. discriminate. }
  assert (Hwarn : forall tx, Forall is_warning tx -> Forall (branch_event m) tx).
  { intros tx Htx. eapply Forall_impl; [exact Htx|]. intros e He. apply branch_event_phase.
    rewrite (is_warning_phase e He). discriminate. }
  unfold embed_phase in Hr.
  apply bind_inv in Hr as [(e & Hr & _)|(ds & s1 & t1 & ta & Hload & Hr & ->)].
  { apply load_data_inv in Hr as (_ & Hph & _). auto. }
  apply load_data_inv in Hload as (-> & Hph1 & _).
  apply bind_inv in Hr as [(e & Hr & _)|([] & s2 & t2 & tb & Hcap & Hr & ->)].
  { apply (proj1 (adjust_inv args Hp)) in Hr as (_ & _ & _ & Hw). apply Forall_app; auto. }
  apply (proj1 (adjust_inv args Hp)) in Hcap as (_ & Hp2 & Hk2 & Hw2).
  apply bind_inv in Hr as [(e & Hr & _)|([] & s3 & t3 & tc & Hcomp & Hr & ->)].
  { apply (proj2 (adjust_inv s2 Hp2)) in Hr as (_ & _ & _ & Hw).
    repeat (apply Forall_app; split); auto. }
  apply (proj2 (adjust_inv s2 Hp2)) in Hcomp as (_ & Hp3 & Hk3 & Hw3).
  assert (Hm3 : s3 !! "model" = Some (PStr m)) by (rewrite Hk3, Hk2 by discriminate; exact Hm).
  apply bind_inv in Hr as [(e & Hr & _)|(loaded & s4 & t4 & td & Hmodel & Hr & ->)].
  { apply (load_the_model_events _ _ _ _ _ Hm3 Hin) in Hr.
    repeat (apply Forall_app; split); auto. }
  apply (load_the_model_events _ _ _ _ _ Hm3 Hin) in Hmodel.
  assert (Hloop : Forall (branch_event m) td).
  { destruct loaded as [mdl|].
    - eapply Forall_impl; [refine ((_ : emits (fun e => phase_of e = 3) _) _ _ _ _ Hr)|].
      + apply emits_bind; [apply embed_all_emits | intros acc; apply emits_ret].
      + intros e He. apply branch_event_phase. rewrite He. discriminate.
    - injection Hr as <- <- <-. constructor. }
  repeat (apply Forall_app; split); auto.
Qed.

Lemma main_body_events args m r args' t :
  parsed args -> args !! "model" = Some (PStr m) ->
  main_body args = (r, args', t) -> Forall (branch_event m) t.
Proof.
  intros Hp Hm Hr. unfold main_body in Hr.
  apply bind_inv in Hr as [(e & Hr & _)|(done & s1 & t1 & t2 & Hphase & Hr & ->)].
  { exact (embed_phase_events _ _ _ _ _ Hp Hm Hr). }
  apply Forall_app. split; [exact (embed_phase_events _ _ _ _ _ Hp Hm Hphase)|].
  destruct done as [acc|].
  - eapply Forall_impl; [exact (save_outputs_emits acc _ _ _ _ Hr)|].
    intros e He. apply branch_event_phase. rewrite He. discriminate.
  - injection Hr as <- <- <-. constructor.
Qed.

(** X7. Whatever the command line, the last branch of lines 92-103 is not
    taken: the line "ERROR: model name unknown." is never printed. *)
Theorem unknown_model_branch_unreachable argv r t :
  main argv = (r, t) -> Forall (fun e => e <> Print "ERROR: model name unknown.") t.
Proof.
  unfold main. destruct (parse_args argv) as [args|e] eqn:Hparse.
  - apply parse_args_parsed in Hparse. pose proof Hparse as [(m & Hm & _) _ _ _ _ _ _].
    destruct (main_body args) as [[r' args'] t'] eqn:Hr. intros [= <- <-].
    eapply Forall_impl; [exact (main_body_events _ _ _ _ _ Hparse Hm Hr)|].
    intros e [He _]. exact He.
  - intros [= <- <-]. constructor.
Qed.

(** X8. The scene graphs are read only for "univse": with another model no
    run calls [add_graphs], however it ends. *)
Theorem graphs_only_for_univse argv args m r args' t :
  parse_args argv = Ok args ->
  args !! "model" = Some (PStr m) ->
  m <> "univse" ->
  main_body args = (r, args', t) ->
  Forall (fun e => forall gp, e <> AddGraphs gp) t.
Proof.
  intros Hparse Hm Hne Hr. apply parse_args_parsed in Hparse.
  eapply Forall_impl; [exact (main_body_events _ _ _ _ _ Hparse Hm Hr)|].
  intros e [_ He]. exact (He Hne).
Qed.

(** ** Lines 153-168: what is written, and when *)

Lemma saving_phase e : saving e <-> phase_of e = 4.
Proof.
  destruct e; cbn; try (split; [tauto | discriminate]); try tauto.
  destruct (String.prefix "B) " line || String.prefix "ERROR" line); split; (tauto || discriminate).
Qed.

(** Lines 70-151 print no shape, create no directory and write no file. *)
Lemma embed_phase_quiet : emits (fun e => ~ saving e) embed_phase.
Proof.
  assert (Hq : forall k, k <> 4 -> forall e, phase_of e = k -> ~ saving e).
  { intros k Hk e He Hs. apply saving_phase in Hs. congruence. }
  unfold embed_phase.
  apply emits_bind; [exact (emits_impl _ _ _ (Hq 1 ltac:(discriminate)) load_data_emits)|].
  intros ds.
  apply emits_bind; [exact (emits_impl _ _ _ (Hq 1 ltac:(discriminate)) adjust_cap_emits)|].
  intros _.
  apply emits_bind; [exact (emits_impl _ _ _ (Hq 1 ltac:(discriminate)) adjust_comp_emits)|].
  intros _.
  apply emits_bind; [exact (emits_impl _ _ _ (Hq 2 ltac:(discriminate)) load_the_model_emits)|].
  intros [mdl|]; [|apply emits_ret].
  apply emits_bind; [|intros acc; apply emits_ret].
  exact (emits_impl _ _ _ (Hq 3 ltac:(discriminate)) (embed_all_emits _ _)).
Qed.

(** X9. Without [--output-path] a run that completes its loop over the
    instances prints the three shapes and then stops with a [TypeError] at
    line 163: no directory is created and none of the arrays is saved. *)
Theorem no_output_path_no_files argv args acc args1 t1 :
  parse_args argv = Ok args ->
  args !! "output_path" = Some PNone ->
  embed_phase args = (Ok (Some acc), args1, t1) ->
  exists msg,
    main_body args
    = (Raise (TypeError msg), args1,
       t1 ++ [PrintShape "Emb. 1: " (Arr2 (embs1 acc));
              PrintShape "Emb. 2: " (Arr2 (embs2 acc));
              PrintShape "Sim: " (Arr1 (sims acc))]) /\
    Forall (fun e => ~ writes e) t1.
Proof.
  intros Hparse Hout Hphase. apply parse_args_parsed in Hparse.
  pose proof (embed_phase_quiet _ _ _ _ Hphase) as Hquiet.
  apply (embed_phase_Ok_inv _ _ _ _ Hparse) in Hphase as Hinv.
  destruct Hinv as (root & ds & mdl & acc' & t0 & tl & _ & _ & _ & _ & Hk & _ & _ & _).
  assert (Hout1 : args1 !! "output_path" = Some PNone) by (now rewrite Hk by discriminate).
  eexists. split.
  - unfold main_body. rewrite (bind_run _ _ _ _ _ _ Hphase).
    unfold save_outputs, attr, bind, get, lift, getattr, emit, as_path, ret, raise.
    rewrite Hout1. reflexivity.
  - eapply Forall_impl; [exact Hquiet|]. intros [] He; cbn in *; tauto.
Qed.

(** X10. Whenever a run prints a shape, creates the output directory or
    writes a file, its loop over the instances has completed: the run is
    that of lines 70-151, in which nothing of the kind happens, followed by
    that of lines 153-168, in which nothing else happens. *)
Theorem files_only_after_the_loop args r args' t :
  main_body args = (r, args', t) ->
  Exists saving t ->
  exists acc args1 t1 t2,
    embed_phase args = (Ok (Some acc), args1, t1) /\
    save_outputs acc args1 = (r, args', t2) /\
    t = t1 ++ t2 /\
    Forall (fun e => ~ saving e) t1 /\ Forall saving t2.
Proof.
  unfold main_body. intros Hr Hex.
  assert (Hno : forall tx, Forall (fun e => ~ saving e) tx -> Exists saving tx -> False).
  { intros tx Hall Hsome. apply Exists_exists in Hsome as (e & Hin & He).
    rewrite Forall_forall in Hall. exact (Hall e Hin He). }
  apply bind_inv in Hr as [(e & Hr & _)|(done & s1 & t1 & t2 & Hphase & Hr & ->)].
  { destruct (Hno _ (embed_phase_quiet _ _ _ _ Hr) Hex). }
  pose proof (embed_phase_quiet _ _ _ _ Hphase) as Hquiet.
  destruct done as [acc|].
  - exists acc, s1, t1, t2. do 4 (split; [assumption || reflexivity|]).
    eapply Forall_impl; [exact (save_outputs_emits acc _ _ _ _ Hr)|].
    intros e He. now apply saving_phase.
  - injection Hr as <- <- <-. rewrite app_nil_r in Hex. destruct (Hno _ Hquiet Hex).
Qed.

(** A run that returns has printed the shapes. *)
Lemma returning_run_saves args args' t :
  parsed args -> main_body args = (Ok tt, args', t) -> Exists saving t.
Proof.
  intros Hp Hr. apply (main_body_Ok_inv _ _ _ Hp) in Hr
    as (root & ds & mdl & acc & t0 & tl & ts & _ & _ & _ & _ & _ & Hsave & -> & _).
  apply save_outputs_Ok_inv in Hsave as (out & m & md & _ & _ & _ & _ & ->).
  apply Exists_app. right. apply Exists_app. right. apply Exists_cons_hd. exact I.
Qed.

(** ** What a run changes, and where it writes *)

Lemma load_the_model_keeps : keeps load_the_model.
Proof. unfold load_the_model, attr. keeps_state. Qed.

Lemma embed_all_keeps mdl ds : keeps (embed_all mdl ds).
Proof. unfold embed_all, loop_body, attr. keeps_state. Qed.

Lemma save_outputs_keeps acc : keeps (save_outputs acc).
Proof. unfold save_outputs, emb_file_name, attr. keeps_state. Qed.

Lemma embed_phase_state args r args' t :
  parsed args -> embed_phase args = (r, args', t) ->
  parsed args' /\ forall k, k <> "modality" -> args' !! k = args !! k.
Proof.
  intros Hp Hr. unfold embed_phase in Hr.
  apply bind_inv in Hr as [(e & Hr & _)|(ds & s1 & t1 & ta & Hload & Hr & _)].
  { apply load_data_inv in Hr as (-> & _). auto. }
  apply load_data_inv in Hload as (-> & _).
  apply bind_inv in Hr as [(e & Hr & _)|([] & s2 & t2 & tb & Hcap & Hr & _)].
  { apply (proj1 (adjust_inv args Hp)) in Hr as (_ & Hp2 & Hk2 & _). auto. }
  apply (proj1 (adjust_inv args Hp)) in Hcap as (_ & Hp2 & Hk2 & _).
  assert (Hthen : forall s3, parsed s3 -> (forall k, k <> "modality" -> s3 !! k = s2 !! k) ->
            parsed s3 /\ forall k, k <> "modality" -> s3 !! k = args !! k).
  { intros s3 Hp3 Hk3. split; [assumption|]. intros k Hk. now rewrite Hk3, Hk2. }
  apply bind_inv in Hr as [(e & Hr & _)|([] & s3 & t3 & tc & Hcomp & Hr & _)].
  { apply (proj2 (adjust_inv s2 Hp2)) in Hr as (_ & Hp3 & Hk3 & _). auto. }
  apply (proj2 (adjust_inv s2 Hp2)) in Hcomp as (_ & Hp3 & Hk3 & _).
  assert (Hrest : args' = s3).
  { refine ((_ : keeps _) _ _ _ _ Hr).
    apply keeps_bind; [apply load_the_model_keeps | intros [mdl|]; [|apply keeps_ret]].
    apply keeps_bind; [apply embed_all_keeps | intros acc; apply keeps_ret]. }
  subst args'. auto.
Qed.

(** X24. The modality is the only attribute a run ever changes, and it
    stays one of the seven choices: every other attribute of the namespace,
    the model among them, is at the end of any run, however it ends, what
    [parse_args] returned. *)
Theorem only_modality_changes argv args r args' t :
  parse_args argv = Ok args ->
  main_body args = (r, args', t) ->
  (forall k, k <> "modality" -> args' !! k = args !! k) /\
  exists md, args' !! "modality" = Some (PStr md) /\ In md modalities.
Proof.
  intros Hparse Hr. apply parse_args_parsed in Hparse.
  assert (Hstate : parsed args' /\ forall k, k <> "modality" -> args' !! k = args !! k).
  { unfold main_body in Hr.
    apply bind_inv in Hr as [(e & Hr & _)|(done & s1 & t1 & t2 & Hphase & Hr & _)].
    - exact (embed_phase_state _ _ _ _ Hparse Hr).
    - assert (Hsame : args' = s1).
      { destruct done as [acc|]; [exact (save_outputs_keeps acc _ _ _ _ Hr)|].
        now injection Hr as _ <- _. }
      subst args'. exact (embed_phase_state _ _ _ _ Hparse Hphase). }
  destruct Hstate as [[_ Hmd _ _ _ _ _] Hk]. auto.
Qed.

(** X25. A run that returns has called [np.save] exactly three times, at
    the very end, on three different paths. *)
Theorem three_distinct_files argv args args' t :
  parse_args argv = Ok args ->
  main_body args = (Ok tt, args', t) ->
  exists before f1 f2 f3 a1 a2 a3,
    t = before ++ [NpSave f1 a1; NpSave f2 a2; NpSave f3 a3] /\
    Forall (fun e => forall f a, e <> NpSave f a) before /\
    f1 <> f2 /\ f1 <> f3 /\ f2 <> f3.
Proof.
  intros Hparse Hr. apply parse_args_parsed in Hparse.
  apply (main_body_Ok_inv _ _ _ Hparse) in Hr
    as (root & ds & mdl & acc & t0 & tl & ts & _ & _ & Hp1 & _ & Hloop & Hsave & -> & Hph).
  apply save_outputs_Ok_inv in Hsave as (out & m & md & Hout & Hm & Hmd & _ & ->).
  destruct Hp1 as [(m' & Hm' & Hin) _ _ _ _ _ _]. rewrite Hm in Hm'. injection Hm' as <-.
  unfold embed_all in Hloop. apply embed_loop_inv in Hloop as (_ & Hfw & _).
  exists (t0 ++ tl
          ++ [PrintShape "Emb. 1: " (Arr2 (embs1 acc)); PrintShape "Emb. 2: " (Arr2 (embs2 acc));
              PrintShape "Sim: " (Arr1 (sims acc))]
          ++ (if path_exists out then [] else [MkDir out])).
  do 6 eexists. split; [|split; [|split; [|split]]].
  - rewrite <- !app_assoc. reflexivity.
  - apply Forall_app. split; [|apply Forall_app; split; [|apply Forall_app; split]].
    + eapply Forall_impl; [exact Hph|]. intros [] Hle f' a'; cbn in Hle; (discriminate || lia).
    + eapply Forall_impl; [exact Hfw|]. intros e (img & sents & ->) f a. discriminate.
    + repeat constructor; discriminate.
    + destruct (path_exists out); repeat constructor; discriminate.
  - intros Heq. apply (append_inj_l out) in Heq. apply (append_inj_l "/") in Heq.
    apply (append_inj_l m) in Heq. apply (append_inj_l "_") in Heq.
    apply (append_inj_l md) in Heq. discriminate Heq.
  - intros Heq. apply (append_inj_l out) in Heq. apply (append_inj_l "/" _ "sim.npy") in Heq.
    cbn in Hin. repeat (destruct Hin as [<-|Hin]; [discriminate Heq|]). destruct Hin.
  - intros Heq. apply (append_inj_l out) in Heq. apply (append_inj_l "/" _ "sim.npy") in Heq.
    cbn in Hin. repeat (destruct Hin as [<-|Hin]; [discriminate Heq|]). destruct Hin.
Qed.

(** ** A run that returns, block by block *)





End Facts.
End PrecompFacts.

(** * finetune_snli_ve *)
Module FinetuneFacts.
Import Finetune.

Section Facts.
Context `{Builtins} `{Framework}.

(** No store of a declared argument creates [sim_file]; [emb_file] is
    there from the defaults on. *)
Lemma parse_args_attributes argv args :
  parse_args argv = Ok args ->
  args !! "sim_file" = None /\ is_Some (args !! "emb_file").
Proof.
  unfold parse_args, argparse. intros Hp.
  refine (parse_tokens_inv parser
            (fun ns => ns !! "sim_file" = None /\ is_Some (ns !! "emb_file"))
            _ _ argv (defaults parser) args _ Hp).
  - intros a ns Hin _ [Hs He]. cbn in Hin.
    repeat (destruct Hin as [<-|Hin];
      [ match goal with
        | |- context [dest ?a] =>
            let d := eval vm_compute in (dest a) in change (dest a) with d
        end;
        split; [rewrite lookup_insert_ne by discriminate; exact Hs|];
        first [ rewrite lookup_insert_ne by discriminate; exact He
              | rewrite lookup_insert_eq; eauto ] |]).
    destruct Hin.
  - intros a ty ch v pv ns Hin _ _ _ [Hs He]. cbn in Hin.
    repeat (destruct Hin as [<-|Hin];
      [ match goal with
        | |- context [dest ?a] =>
            let d := eval vm_compute in (dest a) in change (dest a) with d
        end;
        split; [rewrite lookup_insert_ne by discriminate; exact Hs|];
        first [ rewrite lookup_insert_ne by discriminate; exact He
              | rewrite lookup_insert_eq; eauto ] |]).
    destruct Hin.
  - split; [reflexivity | eexists; reflexivity].
Qed.

(** C2. Whatever the command line, [main] never gets past the first
    dataset: either [parse_args] rejects the command line and nothing is
    done, or the namespace has no attribute [sim_file] and the run ends in
    [AttributeError] after the line "A) Load data", before any dataset is
    built, so without a training step, a checkpoint, a plot or a pickle. *)
Theorem main_raises_attribute_error argv w :
  (exists e, parse_args argv = Raise e /\ main argv w = (Raise e, [])) \/
  (exists args, parse_args argv = Ok args /\
     args !! "sim_file" = None /\
     main_body args w = (Raise (AttributeError "sim_file"), w, [Print "A) Load data"]) /\
     main argv w = (Raise (AttributeError "sim_file"), [Print "A) Load data"])).
Proof.
  unfold main. destruct (parse_args argv) as [args|e] eqn:Hparse.
  - right. exists args. split; [reflexivity|].
    apply parse_args_attributes in Hparse as [Hsim [fe Hemb]].
    split; [assumption|].
    assert (Hrun : main_body args w
                   = (Raise (AttributeError "sim_file"), w, [Print "A) Load data"])).
    { unfold main_body, load_data, bind, emit, lift, getattr. rewrite Hemb, Hsim. reflexivity. }
    rewrite Hrun. split; reflexivity.
  - left. exists e. split; reflexivity.
Qed.

Lemma update_run ev (f : torch -> result torch) w :
  update ev f w
  = match f w with
    | Ok w' => (Ok tt, w', match ev with Some e => [e] | None => [] end)
    | Raise x => (Raise x, w, match ev with Some e => [e] | None => [] end)
    end.
Proof.
  unfold update, bind, get, put, lift, emit, ret, raise.
  destruct ev; destruct (f w); reflexivity.
Qed.

Lemma query_run {A} ev (f : torch -> result (A * torch)) w :
  query ev f w
  = match f w with
    | Ok (a, w') => (Ok a, w', [ev])
    | Raise x => (Raise x, w, [ev])
    end.
Proof.
  unfold query, bind, get, put, lift, emit, ret, raise.
  destruct (f w) as [[a w']|x]; reflexivity.
Qed.

(** The loop of lines 179-198, with its accumulators [running_loss] and
    [idx], computes the sum of the batch losses, in order, and their
    number. *)
Lemma running_loss_is_sum phase batches :
  forall x n w,
    for_each batches (x, n) (batch_step phase) w
    = bind (map_each batches (batch_loss phase))
        (fun ls => ret (fold_left PrimFloat.add ls x, (n + Z.of_nat (length ls))%Z)) w.
Proof.
  induction batches as [|b batches IH]; intros x n w; cbn [for_each map_each].
  - rewrite bind_ret_l. cbn. now rewrite Z.add_0_r.
  - unfold batch_step at 1. rewrite !bind_assoc. apply bind_ext. intros v w1.
    rewrite bind_ret_l, bind_assoc, IH. apply bind_ext. intros ls w2.
    rewrite bind_ret_l. cbn [length fold_left fst snd].
    replace (n + 1 + Z.of_nat (length ls))%Z with (n + Z.of_nat (S (length ls)))%Z by lia.
    reflexivity.
Qed.

Lemma float_div_int_mean ls :
  float_div_int (fold_left PrimFloat.add ls 0%float) (0 + Z.of_nat (length ls)) = mean ls.
Proof.
  unfold float_div_int, mean. destruct ls as [|v ls]; [reflexivity|].
  rewrite Z.add_0_l. destruct (Z.eqb_spec (Z.of_nat (length (v :: ls))) 0) as [Hz|_];
    [cbn in Hz; lia | reflexivity].
Qed.

(** The loss a phase records is the mean of its batch losses. *)
Lemma phase_loss_is_mean train_gen dev_gen phase w :
  phase_loss train_gen dev_gen phase w = phase_mean train_gen dev_gen phase w.
Proof.
  unfold phase_loss, phase_mean. apply bind_ext. intros _ w1. apply bind_ext. intros batches w2.
  rewrite (bind_cong_l _ _ _ _ (running_loss_is_sum phase batches 0%float 0%Z)).
  rewrite bind_assoc. apply bind_ext. intros ls w3.
  rewrite bind_ret_l. cbn [fst snd]. now rewrite float_div_int_mean.
Qed.

Lemma record_loss_train_inv st v w st' w' t :
  record_loss "train" st v w = (Ok st', w', t) ->
  w' = w /\ t = [] /\
  st' = Progress (train_losses st ++ [v]) (dev_losses st) (best_model_wts st) (best_loss st).
Proof. cbn. intros [= <- <- <-]. auto. Qed.

Lemma record_loss_dev_inv st d w st' w' t :
  record_loss "dev" st d w = (Ok st', w', t) ->
  w' = w /\ Forall (fun e => phase_of e = 3) t /\
  train_losses st' = train_losses st /\
  dev_losses st' = dev_losses st ++ [d] /\
  (best_model_wts st', best_loss st')
  = (if PrimFloat.ltb d (best_loss st) then (state_dict w, d)
     else (best_model_wts st, best_loss st)).
Proof.
  unfold record_loss. cbn [String.eqb Ascii.eqb Bool.eqb].
  unfold bind, lift, emit, get, ret, raise.
  destruct (last_item (train_losses st)); [|discriminate].
  destruct (last_item (dev_losses st ++ [d])); [|discriminate].
  destruct (PrimFloat.ltb d (best_loss st)); intros [= <- <- <-]; cbn;
    repeat split; repeat constructor.
Qed.

(** One epoch that completes: its two averages are the means of its two
    phases, and the best weights are renewed by the rule of line 209. *)
Lemma run_epoch_inv train_gen dev_gen st w st' w' t :
  run_epoch train_gen dev_gen st w = (Ok st', w', t) ->
  exists ep,
    epochs_from train_gen dev_gen w [ep] /\ w' = ep_torch ep /\
    train_losses st' = train_losses st ++ [ep_train ep] /\
    dev_losses st' = dev_losses st ++ [ep_dev ep] /\
    (best_model_wts st', best_loss st') = track (best_model_wts st, best_loss st) [ep].
Proof.
  unfold run_epoch. cbn [for_each]. intros Hr.
  apply bind_Ok_inv in Hr as (st1 & w1 & t1 & ? & Htrain & Hr & ->).
  apply bind_Ok_inv in Hr as (st2 & w2 & t2 & ? & Hdev & Hr & ->).
  injection Hr as <- <- <-.
  unfold run_phase in Htrain, Hdev.
  apply bind_Ok_inv in Htrain as (v & w1' & t1a & t1b & Hv & Hrec1 & ->).
  apply record_loss_train_inv in Hrec1 as (-> & -> & ->).
  apply bind_Ok_inv in Hdev as (d & w2' & t2a & t2b & Hd & Hrec2 & ->).
  apply record_loss_dev_inv in Hrec2 as (-> & _ & Htl & Hdl & Hbest).
  rewrite phase_loss_is_mean in Hv, Hd.
  exists (Epoch v d w2'). cbn in *. repeat split; try assumption.
  eauto 10.
Qed.

Lemma epochs_from_app train_gen dev_gen w h ep :
  epochs_from train_gen dev_gen w [ep] ->
  epochs_from train_gen dev_gen (ep_torch ep) h ->
  epochs_from train_gen dev_gen w (ep :: h).
Proof. cbn. tauto. Qed.

(** The epoch loop that completes: one history entry per epoch. *)
Lemma train_loop_inv train_gen dev_gen (epochs : list Z) :
  forall st w st' w' t,
    train_loop train_gen dev_gen epochs st w = (Ok st', w', t) ->
    exists h,
      length h = length epochs /\
      epochs_from train_gen dev_gen w h /\
      train_losses st' = train_losses st ++ List.map ep_train h /\
      dev_losses st' = dev_losses st ++ List.map ep_dev h /\
      (best_model_wts st', best_loss st') = track (best_model_wts st, best_loss st) h.
Proof.
  unfold train_loop. induction epochs as [|e epochs IH]; intros st w st' w' t; cbn [for_each].
  - intros [= <- <- <-]. exists []. cbn. rewrite !app_nil_r. repeat split.
  - intros Hr. apply bind_Ok_inv in Hr as (st1 & w1 & t1 & t2 & Hep & Hrest & ->).
    apply run_epoch_inv in Hep as (ep & Hfrom & -> & Htl & Hdl & Hbest).
    apply IH in Hrest as (h & Hlen & Hh & Htl' & Hdl' & Hbest').
    exists (ep :: h). cbn [length List.map].
    rewrite Htl', Hdl', Htl, Hdl, <- !app_assoc. cbn [app].
    split; [now rewrite Hlen|]. split; [now apply epochs_from_app|].
    do 2 (split; [reflexivity|]).
    rewrite Hbest'. cbn [track fold_left]. cbn [track fold_left] in Hbest.
    now rewrite <- Hbest.
Qed.

Lemma record_old devs d k : k < length devs -> record (devs ++ [d]) k <-> record devs k.
Proof.
  intros Hk. unfold record. split; intros (x & Hx & Hlt & Hall); exists x.
  - rewrite lookup_app_l in Hx by assumption. repeat split; try assumption.
    intros j y Hj Hy. apply (Hall j y Hj). rewrite lookup_app_l by lia. exact Hy.
  - rewrite lookup_app_l by assumption. repeat split; try assumption.
    intros j y Hj Hy. apply (Hall j y Hj). rewrite lookup_app_l in Hy by lia. exact Hy.
Qed.

Lemma record_beyond devs k : length devs <= k -> ~ record devs k.
Proof.
  intros Hk (x & Hx & _). apply lookup_lt_Some in Hx. lia.
Qed.

Lemma record_new devs d :
  record (devs ++ [d]) (length devs) <->
  PrimFloat.ltb d 1e10%float = true /\ forall y, In y devs -> PrimFloat.ltb d y = true.
Proof.
  unfold record. split.
  - intros (x & Hx & Hlt & Hall). rewrite list_lookup_middle in Hx by reflexivity.
    injection Hx as <-. split; [assumption|]. intros y Hy.
    apply list_elem_of_In, list_elem_of_lookup in Hy as [j Hj].
    apply (Hall j y); [eapply lookup_lt_Some, Hj|].
    rewrite lookup_app_l by (eapply lookup_lt_Some, Hj). exact Hj.
  - intros [Hlt Hall]. exists d. rewrite list_lookup_middle by reflexivity.
    repeat split; [assumption|]. intros j y Hj Hy. apply Hall.
    rewrite lookup_app_l in Hy by assumption.
    apply list_elem_of_In, list_elem_of_lookup. eauto.
Qed.

(** The rule of line 209, folded over the epochs, keeps the weights of the
    last epoch that set a record, provided no dev average is NaN. *)
Lemma track_best w0 h :
  Forall (fun ep => is_nan (ep_dev ep) = false) h ->
  is_nan (snd (track (w0, 1e10%float) h)) = false /\
  PrimFloat.ltb 1e10%float (snd (track (w0, 1e10%float) h)) = false /\
  (forall y, In y (List.map ep_dev h) ->
     PrimFloat.ltb y (snd (track (w0, 1e10%float) h)) = false) /\
  (((forall y, In y (List.map ep_dev h) -> PrimFloat.ltb y 1e10%float = false) /\
    track (w0, 1e10%float) h = (w0, 1e10%float)) \/
   (exists k ep,
      h !! k = Some ep /\ record (List.map ep_dev h) k /\
      (forall k', k < k' -> ~ record (List.map ep_dev h) k') /\
      track (w0, 1e10%float) h = (state_dict (ep_torch ep), ep_dev ep))).
Proof.
  induction h as [|ep h IH] using rev_ind; intros Hnan.
  - cbn. repeat split; try reflexivity; [intros y []|]. left. split; [intros y []|reflexivity].
  - apply Forall_app in Hnan as [Hnan Hep]. apply Forall_inv in Hep.
    specialize (IH Hnan) as (Hbn & Hbig & Hle & Hcase).
    unfold track in *. rewrite fold_left_app. cbn [fold_left].
    set (b := fold_left _ h (w0, 1e10%float)) in *.
    rewrite List.map_app. cbn [List.map].
    set (devs := List.map ep_dev h) in *.
    assert (Hlen : length devs = length h) by (unfold devs; apply length_map).
    assert (Hdn : forall y, In y devs -> is_nan y = false).
    { intros y Hy. unfold devs in Hy. apply in_map_iff in Hy as (e0 & <- & He0).
      rewrite List.Forall_forall in Hnan. now apply Hnan. }
    destruct (PrimFloat.ltb (ep_dev ep) (snd b)) eqn:Hlt; cbn [snd].
    + assert (Hd10 : PrimFloat.ltb (ep_dev ep) 1e10%float = true).
      { destruct (ltb_cotrans _ _ 1e10%float Hlt eq_refl) as [?|Hc]; [assumption|congruence]. }
      assert (Hdy : forall y, In y devs -> PrimFloat.ltb (ep_dev ep) y = true).
      { intros y Hy. destruct (ltb_cotrans _ _ y Hlt (Hdn y Hy)) as [?|Hc]; [assumption|].
        rewrite (Hle y Hy) in Hc. discriminate. }
      split; [assumption|]. split.
      { destruct (PrimFloat.ltb 1e10%float (ep_dev ep)) eqn:Hc; [|reflexivity].
        destruct (ltb_cotrans _ _ (snd b) Hc Hbn) as [Hc'|Hc']; [congruence|].
        rewrite (ltb_asym _ _ Hlt) in Hc'. discriminate. }
      split.
      { intros y Hy. apply in_app_or in Hy as [Hy|[<-|[]]]; [|apply ltb_irrefl].
        destruct (PrimFloat.ltb y (ep_dev ep)) eqn:Hc; [|reflexivity].
        destruct (ltb_cotrans _ _ (snd b) Hc Hbn) as [Hc'|Hc'].
        - rewrite (Hle y Hy) in Hc'. discriminate.
        - rewrite (ltb_asym _ _ Hlt) in Hc'. discriminate. }
      right. exists (length h), ep. split; [now apply list_lookup_middle|].
      split; [rewrite <- Hlen; apply record_new; auto|].
      split; [|reflexivity].
      intros k' Hk'. apply record_beyond. rewrite length_app, Hlen. cbn. lia.
    + split; [assumption|]. split; [assumption|]. split.
      { intros y Hy. apply in_app_or in Hy as [Hy|[<-|[]]]; auto. }
      destruct Hcase as [[Hnone Hb]|(k & ep0 & Hk & Hrec & Hlast & Hb)].
      * left. split; [|assumption]. rewrite Hb in Hlt. cbn in Hlt.
        intros y Hy. apply in_app_or in Hy as [Hy|[<-|[]]]; auto.
      * right. exists k, ep0. pose proof (lookup_lt_Some _ _ _ Hk) as Hklt.
        split; [rewrite lookup_app_l by assumption; exact Hk|].
        split; [apply record_old; [lia | assumption]|].
        split; [|assumption].
        intros k' Hk' Hrec'.
        destruct (Nat.lt_trichotomy k' (length devs)) as [Hlt'|[->|Hgt]].
        -- apply record_old in Hrec'; [|assumption]. exact (Hlast k' Hk' Hrec').
        -- apply record_new in Hrec' as [_ Hall].
           rewrite Hb in Hlt. cbn in Hlt.
           assert (Hin : In (ep_dev ep0) devs).
           { unfold devs. apply in_map. apply list_elem_of_In.
             eapply list_elem_of_lookup_2, Hk. }
           rewrite (Hall _ Hin) in Hlt. discriminate.
        -- revert Hrec'. apply record_beyond. rewrite length_app. cbn. lia.
Qed.

Lemma getattr_Ok_inv (ns : Namespace) k v : getattr ns k = Ok v -> ns !! k = Some v.
Proof. unfold getattr. destruct (ns !! k); [now intros [= <-] | discriminate]. Qed.

Lemma update_Ok_inv ev (f : torch -> result torch) w u w' t :
  update ev f w = (Ok u, w', t) ->
  f w = Ok w' /\ t = match ev with Some e => [e] | None => [] end.
Proof. rewrite update_run. destruct (f w); intros [= <- <- <-]; auto. Qed.

Lemma query_Ok_inv {A} ev (f : torch -> result (A * torch)) w a w' t :
  query ev f w = (Ok a, w', t) -> f w = Ok (a, w') /\ t = [ev].
Proof. rewrite query_run. destruct (f w) as [[a0 w0]|]; intros [= <- <- <-]; auto. Qed.

(** Take apart a run that returned: one [bind] at a time. *)
Ltac inv_step Hr :=
  let H1 := fresh "Hstep" in
  apply bind_Ok_inv in Hr as (? & ? & ? & ? & H1 & Hr & ->);
  first
    [ apply lift_Ok_inv in H1 as (H1 & -> & ->);
      try apply getattr_Ok_inv in H1
    | apply call_Ok_inv in H1 as (H1 & -> & ->)
    | apply update_Ok_inv in H1 as (H1 & ->)
    | apply query_Ok_inv in H1 as (H1 & ->)
    | injection H1 as <- <- <-
    | idtac ].

(** Lines 146-212, for a run that returns. *)
Lemma train_Ok_inv args train_data dev_data w st dev_gen bs w1 t :
  train args train_data dev_data w = (Ok (st, dev_gen, bs), w1, t) ->
  exists train_gen ep n t',
    args !! "batch_size" = Some bs /\
    DataLoader train_data bs true 6 = Ok train_gen /\
    DataLoader dev_data bs false 6 = Ok dev_gen /\
    args !! "epochs" = Some ep /\ as_int ep = Ok n /\
    train_loop train_gen dev_gen (py_range 1 (n + 1))
      (Progress [] [] (state_dict w) 1e10%float) w = (Ok st, w1, t') /\
    t = Print "C) Train model" :: t'.
Proof.
  unfold train. intros Hr.
  do 8 inv_step Hr.
  apply bind_Ok_inv in Hr as (st' & ? & t' & ? & Hloop & Hr & ->).
  injection Hr as <- <- <- <- <-.
  repeat match goal with
    | Ha : ?ns !! ?k = Some ?a, Hb : ?ns !! ?k = Some ?b |- _ =>
        rewrite Ha in Hb; injection Hb as <-
    end.
  do 4 eexists. repeat split; try eassumption. now rewrite app_nil_r.
Qed.

(** Lines 214-225, for a run that returns: the checkpoint, the plot if
    asked for, the pickle. *)
Lemma checkpoint_Ok_inv args st w1 w2 t :
  save_outputs args st w1 = (Ok tt, w2, t) ->
  load_state_dict (best_model_wts st) w1 = Ok w2 /\
  exists out lr lr_text plot path ppath,
    args !! "output_path" = Some out /\ args !! "lr" = Some lr /\
    py_format ".1E" lr = Ok lr_text /\ args !! "plot" = Some plot /\
    os_path_join out ("ft_model_lr" +:+ lr_text +:+ ".pth") = Ok path /\
    os_path_join out "losses.pickle" = Ok ppath /\
    t = [TorchSave path (state_dict w2)]
        ++ (if truthy plot
            then match os_path_join out ("training_losses_" +:+ lr_text +:+ ".png") with
                 | Ok fpath => [SaveFig fpath (train_losses st) (dev_losses st)]
                 | Raise _ => []
                 end
            else [])
        ++ [PickleDump ppath
              (<["dev" := dev_losses st]> (<["train" := train_losses st]> ∅))].
Proof.
  unfold save_outputs. intros Hr.
  do 8 inv_step Hr.
  apply bind_Ok_inv in Hr as ([] & w3 & tplot & ? & Hplot & Hr & ->).
  do 2 inv_step Hr. apply call_Ok_inv in Hr as (_ & -> & ->).
  cbn [app].
  repeat match goal with
    | Ha : ?ns !! ?k = Some ?a, Hb : ?ns !! ?k = Some ?b |- _ =>
        rewrite Ha in Hb; injection Hb as <-
    end.
  match goal with Hp : args !! "plot" = Some ?p |- _ => destruct (truthy p) eqn:Htruthy end.
  - do 6 inv_step Hplot. apply call_Ok_inv in Hplot as (_ & -> & ->).
    repeat match goal with
      | Ha : ?ns !! ?k = Some ?a, Hb : ?ns !! ?k = Some ?b |- _ =>
          rewrite Ha in Hb; injection Hb as <-
      | Ha : ?f = Ok ?a, Hb : ?f = Ok ?b |- _ => rewrite Ha in Hb; injection Hb as <-
      end.
    split; [assumption|].
    do 6 eexists. repeat split; try eassumption.
    rewrite Htruthy.
    match goal with Hj : os_path_join _ ("training_losses_" +:+ _) = Ok _ |- _ =>
      rewrite Hj end.
    reflexivity.
  - injection Hplot as <- <-.
    split; [assumption|].
    do 6 eexists. repeat split; try eassumption. rewrite Htruthy. reflexivity.
Qed.




(** C1. After the epoch loop, the weights handed to [torch.save] are the
    best weights the loop kept, and those are: the state dictionary captured
    before the loop when no dev average ever was below 1e10; otherwise the
    state dictionary as it was at the dev phase of the last epoch whose dev
    average was strictly below 1e10 and strictly below the dev average of
    every earlier epoch.  The dev averages are numbers (none is NaN), and
    loading a state dictionary makes it the model's. *)
Theorem best_checkpoint_is_saved args train_data dev_data w0 st dev_gen bs w1 t1 w2 t2 :
  (forall d w w', load_state_dict d w = Ok w' -> state_dict w' = d) ->
  train args train_data dev_data w0 = (Ok (st, dev_gen, bs), w1, t1) ->
  save_outputs args st w1 = (Ok tt, w2, t2) ->
  Forall (fun x => is_nan x = false) (dev_losses st) ->
  exists path saved rest train_gen h,
    t2 = TorchSave path saved :: rest /\
    ld_data train_gen = train_data /\ ld_data dev_gen = dev_data /\
    epochs_from train_gen dev_gen w0 h /\
    dev_losses st = List.map ep_dev h /\
    saved = best_model_wts st /\
    best_by_record (state_dict w0) h saved.
Proof.
  intros Hlaw Htrain Hsave Hnan.
  apply train_Ok_inv in Htrain
    as (train_gen & ep & n & t' & _ & Htg & Hdg & _ & _ & Hloop & _).
  apply train_loop_inv in Hloop as (h & _ & Hh & _ & Hdl & Hbest).
  cbn in Hdl, Hbest.
  apply checkpoint_Ok_inv in Hsave
    as (Hload & out & lr & lr_text & plot & path & ppath & _ & _ & _ & _ & _ & _ & ->).
  apply Hlaw in Hload.
  eexists path, (best_model_wts st), _, train_gen, h.
  split; [rewrite Hload; reflexivity|].
  assert (Hdata : forall d b sh g, DataLoader d b sh 6 = Ok g -> ld_data g = d).
  { intros d b sh g. unfold DataLoader.
    destruct (sh && Nat.eqb (length (instances d)) 0); [discriminate|].
    destruct b; try discriminate.
    destruct (0 <? z)%Z; [|discriminate]. now intros [= <-]. }
  split; [eapply Hdata, Htg|]. split; [eapply Hdata, Hdg|].
  do 3 (split; [assumption || reflexivity|]).
  assert (Hnan' : Forall (fun e => is_nan (ep_dev e) = false) h).
  { rewrite Hdl in Hnan. now apply List.Forall_map in Hnan. }
  destruct (track_best (state_dict w0) h Hnan') as (_ & _ & _ & Hcase).
  rewrite <- Hbest in Hcase. unfold best_by_record.
  destruct Hcase as [[Hnone Hb]|(k & e & Hk & Hrec & Hlast & Hb)].
  - left. split; [assumption|]. now injection Hb.
  - right. exists k, e. repeat split; try assumption. now injection Hb.
Qed.


Lemma emits_update (P : event -> Prop) ev (f : torch -> result torch) :
  match ev with Some e => P e | None => True end -> emits P (update ev f).
Proof.
  intros HP w r w' t. rewrite update_run.
  destruct (f w), ev; intros [= <- <- <-]; repeat constructor; assumption.
Qed.

Lemma emits_query {A} (P : event -> Prop) ev (f : torch -> result (A * torch)) :
  P ev -> emits P (query ev f).
Proof.
  intros HP w r w' t. rewrite query_run.
  destruct (f w) as [[a w1]|]; intros [= <- <- <-]; repeat constructor; assumption.
Qed.

Lemma emits_batches_of (P : event -> Prop) g : emits P (batches_of g).
Proof.
  intros w r w' t. unfold batches_of, bind, get, put, ret.
  destruct (ld_shuffle g); [destruct (shuffled _ (new_iterator w))|];
    intros [= <- <- <-]; constructor.
Qed.









(** ** The parser *)

Lemma holds_insert_ne (ns : Namespace) d k pv :
  d <> k ->
  (holds_bool ns k -> holds_bool (<[d := pv]> ns) k) /\
  (holds_int ns k -> holds_int (<[d := pv]> ns) k) /\
  (holds_float ns k -> holds_float (<[d := pv]> ns) k) /\
  (holds_path ns k -> holds_path (<[d := pv]> ns) k).
Proof.
  intros Hne. unfold holds_bool, holds_int, holds_float, holds_path.
  rewrite lookup_insert_ne by exact Hne. tauto.
Qed.

Lemma convert_kind ty v pv :
  convert ty v = Some pv ->
  match ty with
  | TInt => exists z, pv = PInt z
  | TFloat => exists f, pv = PFloat f
  | TStr => exists s, pv = PStr s
  end.
Proof.
  destruct ty; cbn.
  - destruct (int_of_str v); cbn; intros [= <-]; eauto.
  - destruct (float_of_str v); cbn; intros [= <-]; eauto.
  - intros [= <-]. eauto.
Qed.

(** Each store keeps every attribute of its kind. *)
Ltac kept_after_store :=
  repeat match goal with
    | |- Forall _ (_ :: _) => constructor
    | |- Forall _ [] => constructor
    end;
  match goal with
  | |- _ (<[?d := _]> _) ?k =>
      first
        [ apply (holds_insert_ne _ d k); [discriminate | assumption]
        | unfold holds_bool, holds_int, holds_float, holds_path;
          rewrite lookup_insert_eq; eauto ]
  end.

Lemma snli_args_kinds argv args : parse_args argv = Ok args -> parsed args.
Proof.
  unfold parse_args, argparse. intros Hp.
  refine (parse_tokens_inv parser parsed _ _ argv (defaults parser) args _ Hp).
  - intros a ns Hin Hact (Hb & Hi & Hf & Hs). cbn in Hin.
    repeat apply Forall_cons_1 in Hb as [? Hb].
    repeat apply Forall_cons_1 in Hi as [? Hi].
    repeat apply Forall_cons_1 in Hf as [? Hf].
    repeat apply Forall_cons_1 in Hs as [? Hs].
    repeat (destruct Hin as [<-|Hin];
      [ try discriminate Hact;
        match goal with
        | |- context [dest ?a] =>
            let d := eval vm_compute in (dest a) in change (dest a) with d
        end;
        repeat split; kept_after_store |]).
    destruct Hin.
  - intros a ty ch v pv ns Hin Hact Hconv _ (Hb & Hi & Hf & Hs). cbn in Hin.
    apply convert_kind in Hconv.
    repeat apply Forall_cons_1 in Hb as [? Hb].
    repeat apply Forall_cons_1 in Hi as [? Hi].
    repeat apply Forall_cons_1 in Hf as [? Hf].
    repeat apply Forall_cons_1 in Hs as [? Hs].
    repeat (destruct Hin as [<-|Hin];
      [ try discriminate Hact;
        injection Hact as <- <-; destruct Hconv as [x ->];
        match goal with
        | |- context [dest ?a] =>
            let d := eval vm_compute in (dest a) in change (dest a) with d
        end;
        repeat split; kept_after_store |]).
    destruct Hin.
  - repeat split; repeat constructor;
      unfold holds_bool, holds_int, holds_float, holds_path; cbn; eauto.
Qed.

(** X11. A namespace returned by [parse_args] has the fourteen declared
    attributes and no other (so no [sim_file]): the three flags hold a
    [bool], the options of type [int] and [float] a number of their type,
    and the three file options a string or [None]. *)
Theorem finetune_namespace_attributes argv args :
  parse_args argv = Ok args ->
  parsed args /\ forall k, is_Some (args !! k) <-> In k attributes.
Proof.
  intros Hp. pose proof (snli_args_kinds _ _ Hp) as Hparsed.
  split; [assumption|]. intros k. split.
  - intros Hk. exact (argparse_keys parser argv args k Hp Hk).
  - destruct Hparsed as (Hb & Hi & Hf & Hs).
    repeat apply Forall_cons_1 in Hb as [? Hb].
    repeat apply Forall_cons_1 in Hi as [? Hi].
    repeat apply Forall_cons_1 in Hf as [? Hf].
    repeat apply Forall_cons_1 in Hs as [? Hs].
    cbn. intros Hin.
    repeat (destruct Hin as [<-|Hin];
      [ match goal with
        | Hk : holds_bool _ ?k |- is_Some (_ !! ?k) => destruct Hk as [x Hk]; rewrite Hk; eauto
        | Hk : holds_int _ ?k |- is_Some (_ !! ?k) => destruct Hk as [x Hk]; rewrite Hk; eauto
        | Hk : holds_float _ ?k |- is_Some (_ !! ?k) => destruct Hk as [x Hk]; rewrite Hk; eauto
        | Hk : holds_path _ ?k |- is_Some (_ !! ?k) =>
            destruct Hk as [Hk|[x Hk]]; rewrite Hk; eauto
        end |]).
    destruct Hin.
Qed.

(** X12. A value that [int] (for [--epochs], [--batch-size],
    [--input-size], [--hidden-size]) or [float] (for [--lr], [--momentum],
    [--weight-decay], [--dropout]) does not accept ends the run with exit
    status 2 before anything is loaded, wherever the option stands on the
    command line. *)
Theorem non_number_rejected pre args opt v rest w :
  parse_args pre = Ok args ->
  (In opt ["--epochs"; "--batch-size"; "--input-size"; "--hidden-size"] /\ int_of_str v = None) \/
  (In opt ["--lr"; "--momentum"; "--weight-decay"; "--dropout"] /\ float_of_str v = None) ->
  main (pre ++ opt :: v :: rest) w = (Raise (SystemExit 2), []).
Proof.
  unfold main, parse_args, argparse. intros Hp Hcase.
  rewrite (parse_tokens_app _ _ _ _ _ Hp).
  assert (Hrej : parse_tokens parser (opt :: v :: rest) args = Raise (SystemExit 2)).
  { destruct Hcase as [[Hin Hnone]|[Hin Hnone]]; cbn in Hin;
      repeat (destruct Hin as [<-|Hin]); try destruct Hin;
      cbn [parse_tokens]; cbn -[String.prefix parse_tokens];
      destruct (String.prefix "--" v); try reflexivity;
      unfold store, convert; rewrite Hnone; reflexivity. }
  now rewrite Hrej.
Qed.

(** ** Lines 146-212: edge cases of the training loop *)

(** X13. With [--epochs 0], or a negative number, and a training set that
    is not empty (the shuffling loader refuses an empty one), the body of
    the epoch loop never runs: no forward pass is made, the two lists of
    losses stay empty and the best weights are the ones captured before the
    loop. *)
Theorem no_epoch_no_training args train_data dev_data w n b :
  args !! "epochs" = Some (PInt n) -> (n <= 0)%Z ->
  args !! "batch_size" = Some (PInt b) -> (0 < b)%Z ->
  instances train_data <> [] ->
  train args train_data dev_data w
  = (Ok (Progress [] [] (state_dict w) 1e10%float,
         Loader dev_data (Z.to_nat b) false 6, PInt b),
     w, [Print "C) Train model"]).
Proof.
  intros Hep Hn Hbs Hb Hrows.
  unfold train, DataLoader, train_loop, py_range, bind, lift, getattr, emit, get, ret, raise.
  rewrite Hbs, Hep. destruct (instances train_data) as [|row rows]; [contradiction|].
  cbn. destruct (Z.ltb_spec 0 b) as [_|Hle]; [|lia]. cbn.
  replace (Z.to_nat (n + 1 - 1)) with 0 by lia. reflexivity.
Qed.

(** X14. A batch size that is not positive is refused by the first
    [DataLoader]: the run ends in [ValueError] right after the line
    "C) Train model". *)
Theorem nonpositive_batch_size_rejected args train_data dev_data w b :
  args !! "batch_size" = Some (PInt b) -> (b <= 0)%Z ->
  exists msg,
    train args train_data dev_data w = (Raise (ValueError msg), w, [Print "C) Train model"]).
Proof.
  intros Hbs Hb.
  unfold train, DataLoader, bind, lift, getattr, emit, get, ret, raise.
  rewrite Hbs. destruct (instances train_data) as [|row rows]; cbn.
  - eexists. reflexivity.
  - destruct (Z.ltb_spec 0 b) as [Hlt|_]; [lia|]. eexists. reflexivity.
Qed.

Lemma train_phase_recorded train_gen dev_gen st w v w1 t1 :
  phase_loss train_gen dev_gen "train" w = (Ok v, w1, t1) ->
  run_phase train_gen dev_gen "train" st w
  = (Ok (Progress (train_losses st ++ [v]) (dev_losses st) (best_model_wts st) (best_loss st)),
     w1, t1).
Proof.
  intros Hv. unfold run_phase. rewrite (bind_run _ _ _ _ _ _ Hv). cbn.
  now rewrite app_nil_r.
Qed.

(** X15. A dev set without instances stops the first epoch: its train
    phase runs, then line 200 divides the running loss by [idx = 0] and
    raises [ZeroDivisionError]. *)
Theorem empty_dev_set_divides_by_zero train_gen dev_gen st w v w1 t1 :
  phase_loss train_gen dev_gen "train" w = (Ok v, w1, t1) ->
  ld_shuffle dev_gen = false ->
  instances (ld_data dev_gen) = [] ->
  run_epoch train_gen dev_gen st w
  = (Raise ZeroDivisionError, new_iterator (set_eval w1), t1).
Proof.
  intros Hv Hsh Hempty. unfold run_epoch. cbn [for_each].
  rewrite (bind_run _ _ _ _ _ _ (train_phase_recorded _ _ st _ _ _ _ Hv)).
  assert (Hdev : phase_loss train_gen dev_gen "dev" w1
                 = (Raise ZeroDivisionError, new_iterator (set_eval w1), [])).
  { unfold phase_loss, batches_of, update, bind, lift, get, put, emit, ret, raise.
    cbn. rewrite Hsh, Hempty. reflexivity. }
  unfold run_phase. rewrite (bind_raise _ _ _ _ _ _ (bind_raise _ _ _ _ _ _ Hdev)).
  now rewrite app_nil_r.
Qed.

Lemma last_item_snoc {A} (l : list A) x : last_item (l ++ [x]) = Ok x.
Proof. unfold last_item. now rewrite last_snoc. Qed.

Lemma dev_phase_recorded train_gen dev_gen st l v1 w1 v2 w2 t2 :
  train_losses st = l ++ [v1] ->
  phase_loss train_gen dev_gen "dev" w1 = (Ok v2, w2, t2) ->
  run_phase train_gen dev_gen "dev" st w1
  = (Ok (Progress (train_losses st) (dev_losses st ++ [v2])
           (if PrimFloat.ltb v2 (best_loss st) then state_dict w2 else best_model_wts st)
           (if PrimFloat.ltb v2 (best_loss st) then v2 else best_loss st)),
     w2, t2 ++ [SetDescription (description v1 v2)]).
Proof.
  intros Hl H2. unfold run_phase. rewrite (bind_run _ _ _ _ _ _ H2).
  unfold record_loss. cbn [String.eqb Ascii.eqb Bool.eqb].
  unfold bind, lift, emit, get, ret, raise. rewrite Hl, !last_item_snoc.
  destruct (PrimFloat.ltb v2 (best_loss st)); cbn; reflexivity.
Qed.

(** X16. An epoch whose two phases return completes: [train_losses[-1]]
    exists when the dev phase reads it, the description shows the two
    averages of this very epoch, and the best weights and loss are renewed
    exactly when the dev average is below the best so far. *)
Theorem epoch_completes train_gen dev_gen st w v1 w1 t1 v2 w2 t2 :
  phase_loss train_gen dev_gen "train" w = (Ok v1, w1, t1) ->
  phase_loss train_gen dev_gen "dev" w1 = (Ok v2, w2, t2) ->
  run_epoch train_gen dev_gen st w
  = (Ok (Progress (train_losses st ++ [v1]) (dev_losses st ++ [v2])
           (if PrimFloat.ltb v2 (best_loss st) then state_dict w2 else best_model_wts st)
           (if PrimFloat.ltb v2 (best_loss st) then v2 else best_loss st)),
     w2, t1 ++ t2 ++ [SetDescription (description v1 v2)]).
Proof.
  intros H1 H2. unfold run_epoch. cbn [for_each].
  rewrite (bind_run _ _ _ _ _ _ (train_phase_recorded _ _ st _ _ _ _ H1)).
  rewrite (bind_run _ _ _ _ _ _
             (dev_phase_recorded _ _
                (Progress (train_losses st ++ [v1]) (dev_losses st) (best_model_wts st)
                   (best_loss st))
                (train_losses st) v1 _ _ _ _ eq_refl H2)).
  cbn. now rewrite app_nil_r.
Qed.

(** X17. After a training that returns with no dev average a NaN, the best
    loss is [1e10] or one of the dev averages, and no dev average is below
    it: it is the least of them, capped at [1e10]. *)
Theorem best_loss_is_least args train_data dev_data w st dev_gen bs w1 t :
  train args train_data dev_data w = (Ok (st, dev_gen, bs), w1, t) ->
  Forall (fun x => is_nan x = false) (dev_losses st) ->
  (best_loss st = 1e10%float \/ In (best_loss st) (dev_losses st)) /\
  PrimFloat.ltb 1e10%float (best_loss st) = false /\
  Forall (fun x => PrimFloat.ltb x (best_loss st) = false) (dev_losses st).
Proof.
  intros Hr Hnan.
  apply train_Ok_inv in Hr as (train_gen & ep & n & t' & _ & _ & _ & _ & _ & Hloop & _).
  apply train_loop_inv in Hloop as (h & _ & _ & _ & Hdl & Hbest).
  cbn [train_losses dev_losses best_model_wts best_loss app] in Hdl, Hbest.
  rewrite Hdl in Hnan |- *.
  assert (Hh : Forall (fun ep => is_nan (ep_dev ep) = false) h).
  { rewrite List.Forall_map in Hnan. exact Hnan. }
  destruct (track_best (state_dict w) h Hh) as (_ & Hcap & Hleast & Hwhich).
  rewrite <- Hbest in Hcap, Hleast, Hwhich. cbn [snd] in Hcap, Hleast.
  split; [|split; [assumption|]].
  - destruct Hwhich as [[_ Heq]|(k & ep0 & Hk & _ & _ & Heq)]; injection Heq as _ ->.
    + now left.
    + right. apply in_map. apply list_elem_of_In, list_elem_of_lookup. eauto.
  - apply List.Forall_forall. exact Hleast.
Qed.

(** ** Lines 214-249: saving and evaluation *)

Lemma update_None_Ok (f : torch -> result torch) w w' :
  f w = Ok w' -> update None f w = (Ok tt, w', []).
Proof. intros Hf. now rewrite update_run, Hf. Qed.

(** X18. The evaluation block reads [args.sim_file] as well: on a namespace
    returned by [parse_args] it raises [AttributeError] before the test
    dataset is built, so no inference is run and no accuracy is printed. *)
Theorem evaluate_raises_attribute_error argv args train_data dev_data dev_gen bs w :
  parse_args argv = Ok args ->
  evaluate args train_data dev_data dev_gen bs w = (Raise (AttributeError "sim_file"), w, []).
Proof.
  intros Hp. apply parse_args_attributes in Hp as [Hsim [fe Hemb]].
  unfold evaluate, bind, lift, getattr. rewrite Hemb, Hsim. reflexivity.
Qed.

(** X19. Without [--output-path] the saving block restores the best
    weights and then stops with a [TypeError] in [os.path.join]: neither the
    checkpoint nor the plot nor the pickle is written. *)
Theorem checkpoint_needs_output_path argv args st w w' :
  parse_args argv = Ok args ->
  args !! "output_path" = Some PNone ->
  load_state_dict (best_model_wts st) w = Ok w' ->
  exists msg, save_outputs args st w = (Raise (TypeError msg), w', []).
Proof.
  intros Hp Hout Hload. apply snli_args_kinds in Hp as (_ & _ & Hf & _).
  apply Forall_cons_1 in Hf as [[lr Hlr] _].
  eexists. unfold save_outputs. rewrite (bind_run _ _ _ _ _ _ (update_None_Ok _ _ _ Hload)).
  unfold bind, lift, get, getattr, py_format, os_path_join, ret, raise.
  rewrite Hout, Hlr. reflexivity.
Qed.

(** X20. With an output path, and the calls that write returning, the
    saving block writes the checkpoint of the restored weights, then the
    plot exactly when [--plot] was given, then the pickle of the two lists,
    each under the output path, the first two named after the learning rate
    in [.1E] notation. *)
Theorem checkpoint_files argv args st w w' out lr plot :
  parse_args argv = Ok args ->
  args !! "output_path" = Some (PStr out) ->
  args !! "lr" = Some (PFloat lr) ->
  args !! "plot" = Some (PBool plot) ->
  load_state_dict (best_model_wts st) w = Ok w' ->
  (forall p d, torch_save p d = Ok tt) ->
  (forall p x a b, savefig p x a b = Ok tt) ->
  (forall p d, pickle_dump p d = Ok tt) ->
  exists model_file plot_file pickle_file,
    os_path_join (PStr out) ("ft_model_lr" +:+ format_float ".1E" lr +:+ ".pth")
    = Ok model_file /\
    os_path_join (PStr out) ("training_losses_" +:+ format_float ".1E" lr +:+ ".png")
    = Ok plot_file /\
    os_path_join (PStr out) "losses.pickle" = Ok pickle_file /\
    save_outputs args st w
    = (Ok tt, w',
       [TorchSave model_file (state_dict w')]
       ++ (if plot then [SaveFig plot_file (train_losses st) (dev_losses st)] else [])
       ++ [PickleDump pickle_file
             (<["dev" := dev_losses st]> (<["train" := train_losses st]> ∅))]).
Proof.
  intros Hp Hout Hlr Hplot Hload Hsave Hfig Hdump.
  apply snli_args_kinds in Hp as (_ & Hi & _ & _).
  apply Forall_cons_1 in Hi as [[n Hn] _].
  unfold os_path_join.
  destruct (String.eqb out "" || String.eqb (String.substring (String.length out - 1) 1 out) "/")
    eqn:Hc;
    do 3 eexists; (do 3 (split; [reflexivity|]));
    unfold save_outputs;
    rewrite (bind_run _ _ _ _ _ _ (update_None_Ok _ _ _ Hload));
    unfold call, bind, lift, emit, get, getattr, py_format, os_path_join, as_int, ret, raise;
    rewrite Hout, Hlr, Hplot; cbn; rewrite ?Hc; cbn;
    rewrite ?Hsave; destruct plot; cbn; rewrite ?Hn; cbn; rewrite ?Hout, ?Hlr; cbn;
    rewrite ?Hc; cbn; rewrite ?Hfig, ?Hdump; cbn; rewrite ?Hc; cbn; rewrite ?Hdump; reflexivity.
Qed.

(** X21. The accuracy of lines 243-245 divides the number of positions at
    which prediction and label agree by the number of predictions: it
    raises [ZeroDivisionError] exactly when there is no prediction; the
    pairs are those of [zip], so labels beyond the predictions are ignored
    and the agreements are no more than the predictions and no more than
    the labels. *)
Theorem accuracy_counts_agreements pred truth :
  (accuracy pred truth = Raise ZeroDivisionError <-> pred = []) /\
  (exists k,
     k <= length pred /\ k <= length truth /\
     accuracy pred truth = int_div_int (Z.of_nat k) (Z.of_nat (length pred))) /\
  accuracy pred truth = accuracy pred (firstn (length pred) truth).
Proof.
  unfold accuracy. split; [|split].
  - unfold int_div_int. destruct pred as [|p pred]; cbn [length].
    + split; reflexivity.
    + destruct (Z.eqb_spec (Z.of_nat (S (length pred))) 0) as [Hz|_]; [lia|].
      split; discriminate.
  - eexists. split; [|split; [|reflexivity]].
    + etransitivity; [apply List.filter_length_le|]. rewrite length_combine. lia.
    + etransitivity; [apply List.filter_length_le|]. rewrite length_combine. lia.
  - now rewrite <- combine_firstn_l.
Qed.

(** ** What only the train phase does, and how [inference] accumulates *)

Lemma emits_batch_loss_quiet phase batch :
  phase <> "train" -> emits (fun e => e <> OptimizerStep) (batch_loss phase batch).
Proof.
  intros Hne. unfold batch_loss.
  destruct (String.eqb_spec phase "train") as [->|_]; [contradiction|].
  repeat first
    [ apply emits_query; discriminate
    | apply emits_update; exact I
    | apply emits_ret | apply emits_lift
    | apply emits_bind; [|intros ?]
    | match goal with
      | |- emits _ (match ?x with _ => _ end) => destruct x
      end ].
Qed.

Ltac emits_no_step :=
  repeat first
    [ apply emits_update; exact I
    | apply emits_update; discriminate
    | apply emits_query; discriminate
    | apply emits_batches_of
    | apply emits_ret | apply emits_raise | apply emits_get | apply emits_put
    | apply emits_lift
    | apply emits_emit; discriminate
    | apply emits_call; discriminate
    | apply emits_for_each; intros ? ?
    | apply emits_bind; [|intros ?]
    | apply emits_if
    | match goal with
      | |- emits _ (match ?x with _ => _ end) => destruct x
      end ].

(** X22. The optimizer steps only in a train phase: no run of a phase
    other than "train", of [inference], of the saving block or of the
    evaluation block calls [optimizer.step()], however it ends. *)
Theorem optimizer_steps_only_in_training :
  (forall train_gen dev_gen phase, phase <> "train" ->
     emits (fun e => e <> OptimizerStep) (phase_loss train_gen dev_gen phase)) /\
  (forall data_gen, emits (fun e => e <> OptimizerStep) (inference data_gen)) /\
  (forall args st, emits (fun e => e <> OptimizerStep) (save_outputs args st)) /\
  (forall args train_data dev_data dev_gen bs,
     emits (fun e => e <> OptimizerStep) (evaluate args train_data dev_data dev_gen bs)).
Proof.
  split; [|split; [|split]].
  - intros train_gen dev_gen phase Hne. unfold phase_loss.
    apply emits_bind; [apply emits_update; exact I | intros _].
    apply emits_bind; [apply emits_batches_of | intros batches].
    apply emits_bind; [|intros acc; apply emits_lift].
    apply emits_for_each. intros b acc. unfold batch_step.
    apply emits_bind; [now apply emits_batch_loss_quiet | intros v; apply emits_ret].
  - intros data_gen. unfold inference, inference_step. emits_no_step.
  - intros args st. unfold save_outputs. emits_no_step.
  - intros args train_data dev_data dev_gen bs. unfold evaluate, inference, inference_step.
    emits_no_step.
Qed.

Lemma inference_step_acc batch acc w :
  inference_step batch acc w
  = bind (inference_step batch []) (fun p => ret (acc ++ p)) w.
Proof.
  unfold inference_step. rewrite !bind_assoc. apply bind_ext. intros [[emb_1 emb_2] x] w1.
  rewrite !bind_assoc. apply bind_ext. intros lg w2.
  rewrite !bind_assoc. apply bind_ext. intros p w3.
  now rewrite bind_ret_l.
Qed.

(** The loop of [inference] from any list: the list it would build from
    the empty one, appended. *)
Lemma inference_loop_acc batches :
  forall acc w,
    for_each batches acc inference_step w
    = bind (for_each batches [] inference_step) (fun l => ret (acc ++ l)) w.
Proof.
  induction batches as [|b batches IH]; intros acc w; cbn [for_each].
  - rewrite bind_ret_l. now rewrite app_nil_r.
  - rewrite (bind_cong_l _ _ _ _ (inference_step_acc b acc)).
    rewrite !bind_assoc. apply bind_ext. intros p w1.
    rewrite bind_ret_l. cbn [app]. rewrite IH. rewrite (bind_cong_l _ _ _ _ (IH p)).
    rewrite bind_assoc. apply bind_ext. intros l w2.
    rewrite bind_ret_l. now rewrite app_assoc.
Qed.

(** X23. [inference] only extends its list, batch after batch: over the
    batches [b1 ++ b2] it returns what it returns over [b1], followed by
    what it returns over [b2] from the state reached, whatever the list it
    started from. *)
Theorem inference_concatenates b1 b2 acc w out w' t :
  for_each (b1 ++ b2) acc inference_step w = (Ok out, w', t) ->
  exists l1 w1 t1 l2 t2,
    for_each b1 [] inference_step w = (Ok l1, w1, t1) /\
    for_each b2 [] inference_step w1 = (Ok l2, w', t2) /\
    out = acc ++ l1 ++ l2 /\ t = t1 ++ t2.
Proof.
  rewrite for_each_app. intros Hr.
  apply bind_Ok_inv in Hr as (a1 & w1 & t1 & t2 & H1 & H2 & ->).
  rewrite inference_loop_acc in H1, H2.
  apply bind_Ok_inv in H1 as (l1 & ? & ? & ? & H1 & Hret & ->).
  injection Hret as <- <- <-.
  apply bind_Ok_inv in H2 as (l2 & ? & ? & ? & H2 & Hret & ->).
  injection Hret as <- <- <-.
  rewrite !app_nil_r. do 5 eexists.
  split; [eassumption|]. split; [eassumption|]. split; [now rewrite app_assoc | reflexivity].
Qed.

(** ** One pass per batch *)

Lemma batch_loss_Ok_inv phase batch w v w' t :
  batch_loss phase batch w = (Ok v, w', t) ->
  exists emb,
    t = Forward phase emb :: (if String.eqb phase "train" then [OptimizerStep] else []).
Proof.
  unfold batch_loss. intros Hr.
  inv_step Hr. destruct x as [emb lbl].
  do 3 inv_step Hr.
  apply bind_Ok_inv in Hr as ([] & w2 & tif & ? & Hif & Hr & ->).
  apply lift_Ok_inv in Hr as (_ & -> & ->).
  exists emb. rewrite !app_nil_r. cbn [app]. f_equal.
  destruct (String.eqb phase "train").
  - do 2 inv_step Hif. apply update_Ok_inv in Hif as (_ & ->). reflexivity.
  - now injection Hif as <- <-.
Qed.

Lemma phase_loop_trace phase batches :
  forall acc w acc' w' t,
    for_each batches acc (batch_step phase) w = (Ok acc', w', t) ->
    exists embs,
      length embs = length batches /\
      t = flat_map (fun emb => Forward phase emb
                               :: (if String.eqb phase "train" then [OptimizerStep] else []))
            embs.
Proof.
  induction batches as [|b batches IH]; intros acc w acc' w' t; cbn [for_each].
  - intros [= <- <- <-]. now exists [].
  - intros Hr. apply bind_Ok_inv in Hr as (a1 & w1 & t1 & t2 & Hb & Hrest & ->).
    unfold batch_step in Hb.
    apply bind_Ok_inv in Hb as (v & ? & ? & ? & Hb & Hret & ->).
    injection Hret as <- <- <-. apply batch_loss_Ok_inv in Hb as (emb & ->).
    apply IH in Hrest as (embs & Hlen & ->).
    exists (emb :: embs). cbn [length flat_map]. rewrite Hlen, app_nil_r. auto.
Qed.

(** X26. A phase that returns has made one forward pass per batch of its
    loader, each followed by one optimizer step in the train phase and by
    none in the dev phase, and nothing else. *)
Theorem one_pass_per_batch train_gen dev_gen phase w v w' t :
  phase_loss train_gen dev_gen phase w = (Ok v, w', t) ->
  exists batches w0 embs,
    batches_of (if String.eqb phase "train" then train_gen else dev_gen)
      (if String.eqb phase "train" then set_train w else set_eval w)
    = (Ok batches, w0, []) /\
    length embs = length batches /\
    t = flat_map (fun emb => Forward phase emb
                             :: (if String.eqb phase "train" then [OptimizerStep] else []))
          embs.
Proof.
  unfold phase_loss. intros Hr.
  apply bind_Ok_inv in Hr as ([] & w1 & ? & ? & Hmode & Hr & ->).
  apply update_Ok_inv in Hmode as (Hmode & ->). injection Hmode as <-.
  apply bind_Ok_inv in Hr as (batches & w0 & tb & ? & Hb & Hr & ->).
  pose proof (emits_batches_of (fun _ => False) _ _ _ _ _ Hb) as Hnone.
  destruct tb as [|e tb]; [|now apply Forall_inv in Hnone].
  apply bind_Ok_inv in Hr as (acc & w2 & tl & ? & Hloop & Hr & ->).
  apply lift_Ok_inv in Hr as (_ & -> & ->).
  apply phase_loop_trace in Hloop as (embs & Hlen & ->).
  exists batches, w0, embs. rewrite app_nil_r. auto.
Qed.

(** ** Rows as pairs and as triples *)











(** ** A run that returns, block by block *)










End Facts.
End FinetuneFacts.

(** * Both scripts *)
Section Scripts.
Context `{Builtins} `{Precomp.Framework} `{Finetune.Framework}.



End Scripts.


(** * Concrete runs on the sample framework *)
Module Runs.
Import Sample.
#[local] Existing Instance builtins.
#[local] Existing Instance vsts.
#[local] Existing Instance snli.

Example str_in_cap : str_in "cap" "cap+img" = true /\ str_in "cap" "comp" = false.
Proof. split; reflexivity. Qed.

Example str_in_comp : str_in "comp" "comp+img" = true /\ str_in "img" "sent" = false.
Proof. split; reflexivity. Qed.

Example dest_batch_size : dest (Arg "--batch-size" (Store TInt None) (PInt 128)) = "batch_size".
Proof. reflexivity. Qed.

Example chunks_of_two : chunks 2 [1; 2; 3] = [[1; 2]; [3]].
Proof. reflexivity. Qed.

Example range_of_epochs : Finetune.py_range 1 (3 + 1) = [1; 2; 3]%Z.
Proof. reflexivity. Qed.

Example path_joined :
  Finetune.os_path_join (PStr "out") "losses.pickle" = Ok "out/losses.pickle" /\
  Finetune.os_path_join (PStr "out/") "losses.pickle" = Ok "out/losses.pickle".
Proof. split; reflexivity. Qed.

Example mean_of_two : Finetune.mean [1; 2]%float = Ok 1.5%float.
Proof. vm_compute. reflexivity. Qed.

Example modality_outside_choices :
  Precomp.parse_args ["--modality"; "text"] = Raise (SystemExit 2).
Proof. vm_compute. reflexivity. Qed.

Example modality_abbreviated :
  unwrap ∅ (Precomp.parse_args ["--modal=cap"; "--model"; "univse"]) !! "modality"
  = Some (PStr "cap").
Proof. vm_compute. reflexivity. Qed.

Example finetune_stops :
  Finetune.main snli_argv 0%Z
  = (Raise (AttributeError "sim_file"), [Finetune.Print "A) Load data"]).
Proof. vm_compute. reflexivity. Qed.

Example precomp_cap_kept_for_univse :
  (Precomp.main ["--modality"; "cap+img"; "--data-path"; "vsts"; "--output-path"; "out"]).1
  = Ok tt.
Proof. vm_compute. reflexivity. Qed.

Example precomp_without_output_path :
  (Precomp.main ["--data-path"; "vsts"]).1
  = Raise (TypeError "stat: path should be string, bytes, os.PathLike or integer").
Proof. vm_compute. reflexivity. Qed.

Lemma vsts_args_parsed : Precomp.parse_args vsts_argv = Ok vsts_args.
Proof. apply unwrap_ok. vm_compute. reflexivity. Qed.

Lemma snli_args_parsed : Finetune.parse_args snli_argv = Ok snli_args.
Proof. apply unwrap_ok. vm_compute. reflexivity. Qed.

Lemma vse_raises_not_implemented_run :
  exists warnings,
    Precomp.main ["--data-path"; "vsts"; "--model"; "vse++"; "--modality"; "cap+img"]
    = (Raise NotImplementedError,
       [Precomp.Print "A) Load data"; Precomp.NewDataset (PStr "vsts") "all"]
       ++ warnings ++ [Precomp.Print "B) Load model"]) /\
    Forall (fun e => exists from, e = Precomp.Print (Precomp.warning from (PStr "vse++")))
      warnings.
Proof.
  eapply (PrecompFacts.vse_raises_not_implemented (H:=builtins) (H0:=vsts)
            _ (unwrap ∅ (Precomp.parse_args
                 ["--data-path"; "vsts"; "--model"; "vse++"; "--modality"; "cap+img"]))).
  - apply unwrap_ok. vm_compute. reflexivity.
  - vm_compute. reflexivity.
  - vm_compute. reflexivity.
  - reflexivity.
Defined.

Lemma comp_modality_becomes_comp_img_run :
  vsts_args !! "model" = Some (PStr "simp_univse") /\
  vsts_args !! "modality" = Some (PStr "comp") /\
  bind Precomp.adjust_cap (fun _ => Precomp.adjust_comp) vsts_args
  = (Ok tt, <["modality" := PStr "comp+img"]> vsts_args,
     [Precomp.Print
        "WARNING: modality of embedding changed from 'comp' to 'sent', as simp_univse has only sentence embeddings as output."]).
Proof.
  split; [vm_compute; reflexivity|]. split; [vm_compute; reflexivity|].
  refine (proj2 (proj1 (PrecompFacts.comp_modality_becomes_comp_img
                          (H:=builtins) (H0:=vsts) vsts_argv vsts_args "simp_univse"
                          vsts_args_parsed _ _) "comp" _ _)).
  - vm_compute. reflexivity.
  - discriminate.
  - vm_compute. reflexivity.
  - reflexivity.
Defined.

Lemma vsts_run_returns : Precomp.main_body vsts_args = (Ok tt, vsts_run.1.2, vsts_run.2).
Proof. apply run_returns. vm_compute. reflexivity. Qed.

Lemma vsts_embedding_returns :
  Precomp.embed_phase vsts_args
  = (Ok (Some vsts_collected), vsts_embedding.1.2, vsts_embedding.2).
Proof. apply run_returns. vm_compute. reflexivity. Qed.

Lemma three_files_written_run :
  exists m md,
    vsts_args !! "model" = Some (PStr m) /\
    vsts_embedding.1.2 !! "modality" = Some (PStr md) /\
    Forall (fun e => ~ Precomp.writes e) vsts_embedding.2 /\
    Precomp.main_body vsts_args
    = (Ok tt, vsts_embedding.1.2,
       vsts_embedding.2
       ++ [Precomp.PrintShape "Emb. 1: " (Arr2 (Precomp.embs1 vsts_collected));
           Precomp.PrintShape "Emb. 2: " (Arr2 (Precomp.embs2 vsts_collected));
           Precomp.PrintShape "Sim: " (Arr1 (Precomp.sims vsts_collected))]
       ++ (if Precomp.path_exists "o" then [] else [Precomp.MkDir "o"])
       ++ [Precomp.NpSave ("o" +:+ "/" +:+ m +:+ "_" +:+ md +:+ "_emb_1.npy")
             (Arr2 (Precomp.embs1 vsts_collected));
           Precomp.NpSave ("o" +:+ "/" +:+ m +:+ "_" +:+ md +:+ "_emb_2.npy")
             (Arr2 (Precomp.embs2 vsts_collected));
           Precomp.NpSave ("o" +:+ "/sim.npy") (Arr1 (Precomp.sims vsts_collected))]).
Proof.
  refine (PrecompFacts.three_files_written (H:=builtins) (H0:=vsts)
            vsts_argv vsts_args vsts_collected _ _ "o"
            vsts_args_parsed vsts_embedding_returns _ _ _).
  - vm_compute. reflexivity.
  - intros _. reflexivity.
  - intros p a. reflexivity.
Defined.

Lemma one_row_per_instance_run :
  exists (root : pyval) (ds : @Precomp.dataset vsts) (mdl : @Precomp.model vsts)
         (acc : Precomp.collected) (f1 f2 f3 : string),
    vsts_args !! "data_path" = Some root /\ Precomp.VstsCaptions root "all" = Ok ds /\
    In (Precomp.NpSave f1 (Arr2 (Precomp.embs1 acc))) vsts_run.2 /\
    In (Precomp.NpSave f2 (Arr2 (Precomp.embs2 acc))) vsts_run.2 /\
    In (Precomp.NpSave f3 (Arr1 (Precomp.sims acc))) vsts_run.2 /\
    length (Precomp.embs1 acc) = length (Precomp.instances ds) /\
    length (Precomp.embs2 acc) = length (Precomp.instances ds) /\
    length (Precomp.sims acc) = length (Precomp.instances ds) /\
    forall (i : nat) (inst : list (@Precomp.obj vsts)),
      @Precomp.instances vsts ds !! i = Some inst ->
      exists r1 r2 s tb,
        Precomp.loop_body mdl (List.map (fun x => Stacked [x]) inst)
          (Precomp.Collected [] [] []) vsts_run.1.2
        = (Ok (Precomp.Collected [r1] [r2] [s]), vsts_run.1.2, tb) /\
        Precomp.embs1 acc !! i = Some r1 /\ Precomp.embs2 acc !! i = Some r2 /\
        Precomp.sims acc !! i = Some s.
Proof.
  exact (proj2 (proj2 (proj2 (PrecompFacts.one_row_per_instance (H:=builtins) (H0:=vsts))))
           vsts_argv vsts_args _ _ vsts_args_parsed vsts_run_returns).
Defined.

Lemma embedding_selected_by_modality_run :
  Precomp.select_pair (PStr "cap+img")
    (embeddings "univse" (Stacked [Img 1])) (embeddings "univse" (Stacked [Img 2]))
  = Precomp.both
      (Precomp.selection_spec "cap+img" (embeddings "univse" (Stacked [Img 1])))
      (Precomp.selection_spec "cap+img" (embeddings "univse" (Stacked [Img 2]))).
Proof.
  apply (proj1 (PrecompFacts.embedding_selected_by_modality (H0:=vsts))).
  simpl. tauto.
Defined.

Lemma snli_training_returns :
  Finetune.train snli_args (snli_rows "train") (snli_rows "dev") 0%Z
  = (Ok (snli_st, snli_dev_gen, PInt 2), 6%Z, snli_training.2).
Proof. apply (run_returns (S:=Z)). vm_compute. reflexivity. Qed.

Lemma snli_saving_returns :
  Finetune.save_outputs snli_args snli_st 6%Z = (Ok tt, 2%Z, snli_saving.2).
Proof. apply (run_returns (S:=Z)). vm_compute. reflexivity. Qed.

Lemma best_checkpoint_is_saved_run :
  exists path saved rest train_gen h,
    snli_saving.2 = Finetune.TorchSave path saved :: rest /\
    Finetune.ld_data train_gen = snli_rows "train" /\
    Finetune.ld_data snli_dev_gen = snli_rows "dev" /\
    Finetune.epochs_from train_gen snli_dev_gen 0%Z h /\
    Finetune.dev_losses snli_st = List.map Finetune.ep_dev h /\
    saved = Finetune.best_model_wts snli_st /\
    Finetune.best_by_record (Finetune.state_dict 0%Z) h saved.
Proof.
  apply (FinetuneFacts.best_checkpoint_is_saved (H:=builtins) (H0:=snli)
           snli_args (snli_rows "train") (snli_rows "dev") 0%Z snli_st snli_dev_gen (PInt 2)
           6%Z snli_training.2 2%Z snli_saving.2).
  - intros d w w' [= <-]. reflexivity.
  - exact snli_training_returns.
  - exact snli_saving_returns.
  - repeat constructor.
Defined.




(** ** Runs on which a specification sentence fails as worded *)

Lemma nan_training_returns :
  Finetune.train (H0:=snli_nan) snli_args (snli_rows "train") (snli_rows "dev") 0%Z
  = (Ok (nan_st, nan_dev_gen, PInt 2), 6%Z, nan_training.2).
Proof. apply (run_returns (S:=Z)). vm_compute. reflexivity. Qed.

Lemma nan_saving_returns :
  Finetune.save_outputs (H0:=snli_nan) snli_args nan_st 6%Z = (Ok tt, 4%Z, nan_saving.2).
Proof. apply (run_returns (S:=Z)). vm_compute. reflexivity. Qed.

(** Against C1 as worded.  The dev averages of the three epochs are NaN, 1
    and 9.  The weights saved are those of the second epoch, whose average
    1 is not strictly smaller than the earlier average NaN (a comparison
    with NaN is false); they are not the initial weights either, although
    no epoch's average is below every earlier one. *)
Lemma nan_average_breaks_the_record :
  Finetune.train (H0:=snli_nan) snli_args (snli_rows "train") (snli_rows "dev") 0%Z
  = (Ok (nan_st, nan_dev_gen, PInt 2), 6%Z, nan_training.2) /\
  Finetune.save_outputs (H0:=snli_nan) snli_args nan_st 6%Z = (Ok tt, 4%Z, nan_saving.2) /\
  (exists path rest, nan_saving.2 = @Finetune.TorchSave snli_nan path 4%Z :: rest) /\
  Finetune.dev_losses nan_st = [nan; 1; 9]%float /\
  PrimFloat.ltb 1 nan = false /\
  (forall k, ~ Finetune.record [nan; 1; 9]%float k) /\
  (forall h : list (@Finetune.epoch snli_nan),
     List.map Finetune.ep_dev h = [nan; 1; 9]%float ->
     ~ Finetune.best_by_record (@Finetune.state_dict snli_nan 0%Z) h 4%Z).
Proof.
  assert (Hnone : forall k, ~ Finetune.record [nan; 1; 9]%float k).
  { intros k (x & Hx & Hlt & Hall).
    destruct k as [|[|[|k]]]; cbn in Hx; try discriminate Hx; injection Hx as <-.
    - discriminate Hlt.
    - specialize (Hall 0 nan ltac:(lia) eq_refl). discriminate Hall.
    - specialize (Hall 0 nan ltac:(lia) eq_refl). discriminate Hall. }
  split; [exact nan_training_returns|]. split; [exact nan_saving_returns|].
  split; [|split; [reflexivity|split; [reflexivity|split; [exact Hnone|]]]].
  - destruct (FinetuneFacts.checkpoint_Ok_inv (H0:=snli_nan) _ _ _ _ _ nan_saving_returns)
      as (_ & out & lr & lr_text & plot & path & ppath & _ & _ & _ & _ & _ & _ & Ht).
    rewrite Ht. eexists path, _. reflexivity.
  - intros h Hh [[Hall _]|(k & ep & _ & Hrec & _)].
    + rewrite Hh in Hall. specialize (Hall 1%float ltac:(simpl; tauto)). discriminate Hall.
    + rewrite Hh in Hrec. exact (Hnone k Hrec).
Qed.

(** Against C8 as worded.  On the command line [--data-path vsts] the loop
    over the instances completes, the three shapes are printed and the run
    stops at line 163: no directory is created and no file is written. *)
Lemma loop_completed_nothing_written :
  Precomp.parse_args nopath_argv = Ok nopath_args /\
  Precomp.embed_phase nopath_args
  = (Ok (Some nopath_collected), nopath_embedding.1.2, nopath_embedding.2) /\
  (Precomp.main_body nopath_args).1.1
  = Raise (TypeError "stat: path should be string, bytes, os.PathLike or integer") /\
  Forall (fun e => ~ Precomp.writes e) (Precomp.main_body nopath_args).2.
Proof.
  assert (Hparse : Precomp.parse_args nopath_argv = Ok nopath_args)
    by (apply unwrap_ok; vm_compute; reflexivity).
  assert (Hloop : Precomp.embed_phase nopath_args
                  = (Ok (Some nopath_collected), nopath_embedding.1.2, nopath_embedding.2))
    by (apply run_returns; vm_compute; reflexivity).
  split; [exact Hparse|]. split; [exact Hloop|]. split; [vm_compute; reflexivity|].
  unfold Precomp.main_body. rewrite (bind_run _ _ _ _ _ _ Hloop).
  destruct (Precomp.save_outputs nopath_collected nopath_embedding.1.2)
    as [[r s] ts] eqn:Hsave.
  cbn [snd]. apply Forall_app. split.
  - eapply Forall_impl; [exact (PrecompFacts.embed_phase_quiet _ _ _ _ Hloop)|].
    intros [] He; cbn in *; tauto.
  - revert Hsave. unfold Precomp.save_outputs, Precomp.attr, bind, get, lift, getattr, emit,
      Precomp.as_path, ret, raise.
    replace (nopath_embedding.1.2 !! "output_path") with (Some PNone)
      by (symmetry; vm_compute; reflexivity).
    intros [= <- <- <-]. repeat constructor; intros [].
Qed.
(** ** The further properties, on the sample runs *)

Lemma cap_args_parsed : Precomp.parse_args cap_argv = Ok cap_args.
Proof. apply unwrap_ok. vm_compute. reflexivity. Qed.

Lemma nopath_args_parsed : Precomp.parse_args nopath_argv = Ok nopath_args.
Proof. apply unwrap_ok. vm_compute. reflexivity. Qed.

Lemma idle_args_parsed : Finetune.parse_args idle_argv = Ok idle_args.
Proof. apply unwrap_ok. vm_compute. reflexivity. Qed.

Lemma nopath_embedding_returns :
  Precomp.embed_phase nopath_args
  = (Ok (Some nopath_collected), nopath_embedding.1.2, nopath_embedding.2).
Proof. apply run_returns. vm_compute. reflexivity. Qed.

Lemma precomp_namespace_attributes_run :
  Precomp.parsed vsts_args /\ forall k, is_Some (vsts_args !! k) <-> In k Precomp.attributes.
Proof.
  exact (PrecompFacts.precomp_namespace_attributes vsts_argv vsts_args vsts_args_parsed).
Defined.

Lemma later_modality_overrides_run :
  In "img" Precomp.modalities /\
  Precomp.parse_args (vsts_argv ++ ["--modality"; "img"])
  = Ok (<["modality" := PStr "img"]> vsts_args).
Proof.
  assert (Hin : In "img" Precomp.modalities) by (simpl; tauto).
  refine (conj Hin (PrecompFacts.later_modality_overrides vsts_argv vsts_args "img"
                      _ vsts_args_parsed Hin)).
  repeat (constructor; [intros Hdash; first [reflexivity | discriminate Hdash]|]).
  constructor.
Defined.

Lemma unknown_choice_rejected_run :
  Precomp.main (vsts_argv ++ ["--model"; "text"; "--data-path"; "x"])
  = (Raise (SystemExit 2), []) /\
  Precomp.main (vsts_argv ++ ["--modality"; "text"; "--data-path"; "x"])
  = (Raise (SystemExit 2), []).
Proof.
  destruct (PrecompFacts.unknown_choice_rejected (H0:=vsts) vsts_argv vsts_args "text"
              ["--data-path"; "x"] vsts_args_parsed) as [Hmodel Hmodality].
  split; [apply Hmodel | apply Hmodality]; simpl; intuition discriminate.
Defined.

Lemma cap_modality_becomes_sent_run :
  cap_adjusted
  = (Ok tt, <["modality" := PStr "sent+img"]> cap_args,
     [Precomp.Print
        "WARNING: modality of embedding changed from 'cap' to 'sent', as simp_univse has only sentence embeddings as output."]).
Proof.
  refine (proj2 (PrecompFacts.cap_modality_becomes_sent (H0:=vsts) cap_argv cap_args
                   "simp_univse" "cap+img" cap_args_parsed _ _ _ _)).
  - vm_compute. reflexivity.
  - discriminate.
  - vm_compute. reflexivity.
  - reflexivity.
Defined.

Lemma modality_kept_run :
  bind Precomp.adjust_cap (fun _ => Precomp.adjust_comp) nopath_args = (Ok tt, nopath_args, []).
Proof.
  refine (PrecompFacts.modality_kept (H0:=vsts) nopath_argv nopath_args "univse" "sent"
            nopath_args_parsed _ _ _).
  - vm_compute. reflexivity.
  - vm_compute. reflexivity.
  - left. reflexivity.
Defined.

Lemma cap_embedding_only_with_univse_run :
  exists md',
    cap_adjusted.1.2 !! "modality" = Some (PStr md') /\
    In md' ["img"; "sent"; "sent+img"; "comp+img"] /\
    forall e1 e2 c1 c2,
      Precomp.select_pair (PStr md') (<["cap_emb" := c1]> e1) (<["cap_emb" := c2]> e2)
      = Precomp.select_pair (PStr md') e1 e2.
Proof.
  refine (PrecompFacts.cap_embedding_only_with_univse (H0:=vsts) cap_argv cap_args
            "simp_univse" _ _ _ cap_args_parsed _ _ (run_eta _ cap_args)).
  - vm_compute. reflexivity.
  - discriminate.
Defined.

Lemma unknown_model_branch_unreachable_run :
  Forall (fun e => e <> Precomp.Print "ERROR: model name unknown.") (Precomp.main vsts_argv).2.
Proof.
  exact (PrecompFacts.unknown_model_branch_unreachable vsts_argv _ _
           (surjective_pairing (Precomp.main vsts_argv))).
Defined.

Lemma graphs_only_for_univse_run :
  Forall (fun e => forall gp, e <> Precomp.AddGraphs gp) vsts_run.2.
Proof.
  refine (PrecompFacts.graphs_only_for_univse vsts_argv vsts_args "simp_univse" _ _ _
            vsts_args_parsed _ _ vsts_run_returns).
  - vm_compute. reflexivity.
  - discriminate.
Defined.

Lemma no_output_path_no_files_run :
  exists msg,
    Precomp.main_body nopath_args
    = (Raise (TypeError msg), nopath_embedding.1.2,
       nopath_embedding.2
       ++ [Precomp.PrintShape "Emb. 1: " (Arr2 (Precomp.embs1 nopath_collected));
           Precomp.PrintShape "Emb. 2: " (Arr2 (Precomp.embs2 nopath_collected));
           Precomp.PrintShape "Sim: " (Arr1 (Precomp.sims nopath_collected))]) /\
    Forall (fun e => ~ Precomp.writes e) nopath_embedding.2.
Proof.
  refine (PrecompFacts.no_output_path_no_files nopath_argv nopath_args nopath_collected _ _
            nopath_args_parsed _ nopath_embedding_returns).
  vm_compute. reflexivity.
Defined.

Lemma files_only_after_the_loop_run :
  exists acc args1 t1 t2,
    Precomp.embed_phase vsts_args = (Ok (Some acc), args1, t1) /\
    Precomp.save_outputs acc args1 = (Ok tt, vsts_run.1.2, t2) /\
    vsts_run.2 = t1 ++ t2 /\
    Forall (fun e => ~ Precomp.saving e) t1 /\ Forall Precomp.saving t2.
Proof.
  refine (PrecompFacts.files_only_after_the_loop vsts_args _ _ _ vsts_run_returns _).
  exact (PrecompFacts.returning_run_saves _ _ _
           (PrecompFacts.parse_args_parsed _ _ vsts_args_parsed) vsts_run_returns).
Defined.

Lemma only_modality_changes_run :
  (forall k, k <> "modality" -> vsts_run.1.2 !! k = vsts_args !! k) /\
  exists md, vsts_run.1.2 !! "modality" = Some (PStr md) /\ In md Precomp.modalities.
Proof.
  exact (PrecompFacts.only_modality_changes vsts_argv vsts_args _ _ _
           vsts_args_parsed vsts_run_returns).
Defined.

Lemma three_distinct_files_run :
  exists before f1 f2 f3 a1 a2 a3,
    vsts_run.2 = before ++ [Precomp.NpSave f1 a1; Precomp.NpSave f2 a2; Precomp.NpSave f3 a3] /\
    Forall (fun e => forall f a, e <> Precomp.NpSave f a) before /\
    f1 <> f2 /\ f1 <> f3 /\ f2 <> f3.
Proof.
  exact (PrecompFacts.three_distinct_files vsts_argv vsts_args _ _
           vsts_args_parsed vsts_run_returns).
Defined.

Lemma finetune_namespace_attributes_run :
  Finetune.parsed snli_args /\ forall k, is_Some (snli_args !! k) <-> In k Finetune.attributes.
Proof.
  exact (FinetuneFacts.finetune_namespace_attributes snli_argv snli_args snli_args_parsed).
Defined.

Lemma non_number_rejected_run :
  Finetune.main (snli_argv ++ ["--epochs"; "three"; "--plot"]) (0%Z : @Finetune.torch snli)
  = (Raise (SystemExit 2), []).
Proof.
  refine (FinetuneFacts.non_number_rejected (H0:=snli) snli_argv snli_args "--epochs" "three"
            ["--plot"] 0%Z snli_args_parsed _).
  left. split; [simpl; tauto | reflexivity].
Defined.

Lemma no_epoch_no_training_run :
  Finetune.train idle_args (snli_rows "train") (snli_rows "dev") (0%Z : @Finetune.torch snli)
  = (Ok (Finetune.Progress [] [] (Finetune.state_dict 0%Z) 1e10%float,
         Finetune.Loader (snli_rows "dev") (Z.to_nat 2) false 6, PInt 2),
     0%Z, [Finetune.Print "C) Train model"]).
Proof.
  refine (FinetuneFacts.no_epoch_no_training (H0:=snli) idle_args (snli_rows "train")
            (snli_rows "dev") 0%Z 0%Z 2%Z _ _ _ _ _).
  - vm_compute. reflexivity.
  - lia.
  - vm_compute. reflexivity.
  - lia.
  - discriminate.
Defined.

Lemma nonpositive_batch_size_rejected_run :
  exists msg,
    Finetune.train zero_batch_args (snli_rows "train") (snli_rows "dev")
      (0%Z : @Finetune.torch snli)
    = (Raise (ValueError msg), 0%Z, [Finetune.Print "C) Train model"]).
Proof.
  refine (FinetuneFacts.nonpositive_batch_size_rejected (H0:=snli) zero_batch_args
            (snli_rows "train") (snli_rows "dev") 0%Z 0%Z _ _).
  - vm_compute. reflexivity.
  - lia.
Defined.

Lemma train_phase_returns (dev_gen : @Finetune.loader snli) :
  Finetune.phase_loss snli_train_gen dev_gen "train" 0%Z
  = (Ok (unwrap 0%float snli_train_phase.1.1), snli_train_phase.1.2, snli_train_phase.2).
Proof.
  change (Finetune.phase_loss snli_train_gen dev_gen "train" 0%Z) with snli_train_phase.
  apply (run_ok (S:=Z)). vm_compute. reflexivity.
Qed.

Lemma dev_phase_returns :
  Finetune.phase_loss snli_train_gen snli_dev_gen "dev" snli_train_phase.1.2
  = (Ok (unwrap 0%float snli_dev_phase.1.1), snli_dev_phase.1.2, snli_dev_phase.2).
Proof. apply (run_ok (S:=Z)). vm_compute. reflexivity. Qed.

Lemma empty_dev_set_divides_by_zero_run :
  Finetune.run_epoch snli_train_gen empty_dev_gen snli_st 0%Z
  = (Raise ZeroDivisionError,
     Finetune.new_iterator (Finetune.set_eval snli_train_phase.1.2), snli_train_phase.2).
Proof.
  exact (FinetuneFacts.empty_dev_set_divides_by_zero (H0:=snli) snli_train_gen empty_dev_gen
           snli_st 0%Z _ _ _ (train_phase_returns empty_dev_gen) eq_refl eq_refl).
Defined.

Lemma epoch_completes_run :
  Finetune.run_epoch snli_train_gen snli_dev_gen snli_st 0%Z
  = (Ok (Finetune.Progress
           (Finetune.train_losses snli_st ++ [unwrap 0%float snli_train_phase.1.1])
           (Finetune.dev_losses snli_st ++ [unwrap 0%float snli_dev_phase.1.1])
           (if PrimFloat.ltb (unwrap 0%float snli_dev_phase.1.1) (Finetune.best_loss snli_st)
            then Finetune.state_dict snli_dev_phase.1.2
            else Finetune.best_model_wts snli_st)
           (if PrimFloat.ltb (unwrap 0%float snli_dev_phase.1.1) (Finetune.best_loss snli_st)
            then unwrap 0%float snli_dev_phase.1.1
            else Finetune.best_loss snli_st)),
     snli_dev_phase.1.2,
     snli_train_phase.2 ++ snli_dev_phase.2
     ++ [Finetune.SetDescription
           (Finetune.description (unwrap 0%float snli_train_phase.1.1)
              (unwrap 0%float snli_dev_phase.1.1))]).
Proof.
  exact (FinetuneFacts.epoch_completes (H:=builtins) (H0:=snli) snli_train_gen snli_dev_gen
           snli_st 0%Z _ _ _ _ _ _ (train_phase_returns snli_dev_gen) dev_phase_returns).
Defined.

Lemma best_loss_is_least_run :
  (Finetune.best_loss snli_st = 1e10%float
   \/ In (Finetune.best_loss snli_st) (Finetune.dev_losses snli_st)) /\
  PrimFloat.ltb 1e10%float (Finetune.best_loss snli_st) = false /\
  Forall (fun x => PrimFloat.ltb x (Finetune.best_loss snli_st) = false)
    (Finetune.dev_losses snli_st).
Proof.
  refine (FinetuneFacts.best_loss_is_least (H:=builtins) (H0:=snli) snli_args
            (snli_rows "train") (snli_rows "dev") 0%Z snli_st snli_dev_gen (PInt 2) 6%Z
            snli_training.2 snli_training_returns _).
  repeat constructor.
Defined.

Lemma evaluate_raises_attribute_error_run :
  Finetune.evaluate snli_args (snli_rows "train") (snli_rows "dev") snli_dev_gen (PInt 2)
    (0%Z : @Finetune.torch snli)
  = (Raise (AttributeError "sim_file"), 0%Z, []).
Proof.
  exact (FinetuneFacts.evaluate_raises_attribute_error (H0:=snli) snli_argv snli_args
           (snli_rows "train") (snli_rows "dev") snli_dev_gen (PInt 2) 0%Z snli_args_parsed).
Defined.

Lemma checkpoint_needs_output_path_run :
  exists msg,
    Finetune.save_outputs idle_args snli_st (6%Z : @Finetune.torch snli)
    = (Raise (TypeError msg), 2%Z, []).
Proof.
  refine (FinetuneFacts.checkpoint_needs_output_path (H0:=snli) idle_argv idle_args snli_st
            6%Z 2%Z idle_args_parsed _ eq_refl).
  vm_compute. reflexivity.
Defined.

Lemma checkpoint_files_run :
  exists model_file plot_file pickle_file,
    Finetune.os_path_join (PStr "out")
      ("ft_model_lr" +:+ format_float ".1E" 0x1.a36e2eb1c432dp-14%float +:+ ".pth")
    = Ok model_file /\
    Finetune.os_path_join (PStr "out")
      ("training_losses_" +:+ format_float ".1E" 0x1.a36e2eb1c432dp-14%float +:+ ".png")
    = Ok plot_file /\
    Finetune.os_path_join (PStr "out") "losses.pickle" = Ok pickle_file /\
    Finetune.save_outputs snli_args snli_st (6%Z : @Finetune.torch snli)
    = (Ok tt, 2%Z,
       [Finetune.TorchSave model_file (Finetune.state_dict 2%Z)]
       ++ (if true
           then [Finetune.SaveFig plot_file (Finetune.train_losses snli_st)
                   (Finetune.dev_losses snli_st)]
           else [])
       ++ [Finetune.PickleDump pickle_file
             (<["dev" := Finetune.dev_losses snli_st]>
                (<["train" := Finetune.train_losses snli_st]> ∅))]).
Proof.
  refine (FinetuneFacts.checkpoint_files (H:=builtins) (H0:=snli) snli_argv snli_args snli_st
            6%Z 2%Z "out" 0x1.a36e2eb1c432dp-14%float true snli_args_parsed _ _ _ eq_refl
            _ _ _).
  - vm_compute. reflexivity.
  - vm_compute. reflexivity.
  - vm_compute. reflexivity.
  - intros p d. reflexivity.
  - intros p x a b. reflexivity.
  - intros p d. reflexivity.
Defined.

Lemma inference_of_two_batches :
  for_each ([[1; 2; 0]] ++ [[4; 5; 0]])%Z [7%Z] (Finetune.inference_step (H0:=snli)) 0%Z
  = (Ok [7; 1; 1]%Z, 0%Z, [Finetune.Forward2 1%Z 2%Z; Finetune.Forward2 4%Z 5%Z]).
Proof. reflexivity. Qed.

Lemma inference_concatenates_run :
  exists l1 w1 t1 l2 t2,
    for_each [[1; 2; 0]]%Z [] (Finetune.inference_step (H0:=snli)) 0%Z = (Ok l1, w1, t1) /\
    for_each [[4; 5; 0]]%Z [] (Finetune.inference_step (H0:=snli)) w1 = (Ok l2, 0%Z, t2) /\
    [7; 1; 1]%Z = [7%Z] ++ l1 ++ l2 /\
    [Finetune.Forward2 1%Z 2%Z; Finetune.Forward2 4%Z 5%Z] = t1 ++ t2.
Proof.
  exact (FinetuneFacts.inference_concatenates (H0:=snli) _ _ _ _ _ _ _
           inference_of_two_batches).
Defined.

Lemma one_pass_per_batch_run :
  exists batches w0 embs,
    Finetune.batches_of snli_train_gen (Finetune.set_train (0%Z : @Finetune.torch snli))
    = (Ok batches, w0, []) /\
    length embs = length batches /\
    snli_train_phase.2
    = flat_map (fun emb => [Finetune.Forward "train" emb; Finetune.OptimizerStep]) embs.
Proof.
  exact (FinetuneFacts.one_pass_per_batch (H0:=snli) snli_train_gen snli_dev_gen "train"
           0%Z _ _ _ (train_phase_returns snli_dev_gen)).
Defined.



End Runs.
